(** * Transaction construction and signing engine of the btc wallet

    A shallow embedding of [tx.go] (the second, multi-output revision of the
    file, together with the wallet core that follows it) and the properties
    of its fee/change solver, coin selector, output resolver, size
    estimator, sweep flow and signing dispatcher.

    Go's [int64] (and [int], taken to be 64 bits wide) are modelled as [Z]
    with the two's-complement wrap-around written out in [I64]. *)

From Stdlib Require Import ZArith List Lia Bool String Ascii.
From Stdlib.Strings Require Import Byte.
From Stdlib Require Import Permutation Sorted.
Import ListNotations.
Local Open Scope Z_scope.

(* ================================================================== *)
(** * Machine integers *)
(* ================================================================== *)

Module I64.

Definition min_int : Z := - 2 ^ 63.
Definition max_int : Z := 2 ^ 63 - 1.

(** Reduction of a mathematical integer to its signed 64-bit value. *)
Definition wrap (x : Z) : Z := (x + 2 ^ 63) mod 2 ^ 64 - 2 ^ 63.

Definition add (a b : Z) : Z := wrap (a + b).
Definition sub (a b : Z) : Z := wrap (a - b).
Definition mul (a b : Z) : Z := wrap (a * b).
Definition neg (a : Z) : Z := wrap (- a).
(** Go's [/] truncates toward zero. *)
Definition quot (a b : Z) : Z := wrap (Z.quot a b).

Definition in_range (x : Z) : Prop := min_int <= x <= max_int.

End I64.

(* ================================================================== *)
(** * Data model *)
(* ================================================================== *)

(** [AddressType] is a string type in the source; the four named constants
    are the recognised families, any other string falls in the [default]
    branches. *)
Inductive AddressType : Type :=
| P2PKH
| P2WPKH
| P2SH
| P2TR
| OtherType (tag : string).

Record UTXO : Type := mkUTXO {
  TxID : string;
  Vout : Z;
  Value : Z
}.

Definition dustThreshold : Z := 546.

Definition bytes : Type := list byte.

(** [*chaincfg.Params]: the two networks [NewWallet] accepts. *)
Inductive Network : Type :=
| MainNetParams
| TestNet3Params.

(** [BitcoinWallet]; keys are kept as their byte strings, the HTTP client
    is left to the collaborators below. *)
Record BitcoinWallet : Type := mkWallet {
  privateKey : bytes;
  publicKey : bytes;
  network : Network;
  apiURL : string;
  feeRate : Z
}.

(** A test-network wallet with the given fee rate, for running the model. *)
Definition walletWithRate (rate : Z) : BitcoinWallet :=
  mkWallet [x01] [x02] TestNet3Params "api" rate.

Record PaymentOutput : Type := mkPaymentOutput {
  Address : string;
  Amount : Z
}.

(** [wire.OutPoint], [wire.TxIn], [wire.TxOut] and [wire.MsgTx]. *)
Record OutPoint : Type := mkOutPoint {
  Hash : bytes;
  Index : Z
}.

Record TxIn : Type := mkTxIn {
  PreviousOutPoint : OutPoint;
  SignatureScript : bytes;
  Witness : list bytes;
  Sequence : Z
}.

Record TxOut : Type := mkTxOut {
  OutValue : Z;
  PkScript : bytes
}.

Record MsgTx : Type := mkMsgTx {
  Version : Z;
  TxIns : list TxIn;
  TxOuts : list TxOut;
  LockTime : Z
}.

Definition len {A : Type} (l : list A) : Z := Z.of_nat (List.length l).

(* ================================================================== *)
(** * Size estimator and fee *)
(* ================================================================== *)

Definition EstimateTxSize (inputs outputs : Z) (addrType : AddressType) : Z :=
  match addrType with
  | P2PKH =>
      let baseSize :=
        I64.add (I64.add 10 (I64.mul inputs 148)) (I64.mul outputs 34) in
      baseSize
  | P2WPKH =>
      let baseSize :=
        I64.add (I64.add 10 (I64.mul inputs 64)) (I64.mul outputs 31) in
      let witnessSize := I64.add (I64.mul inputs 107) 2 in
      let vSize :=
        I64.quot (I64.add (I64.add (I64.mul baseSize 3) baseSize) witnessSize) 4 in
      vSize
  | P2SH =>
      let baseSize :=
        I64.add (I64.add 10 (I64.mul inputs 148)) (I64.mul outputs 34) in
      let witnessSize := I64.add (I64.mul inputs 107) 2 in
      let vSize :=
        I64.quot (I64.add (I64.add (I64.mul baseSize 3) baseSize) witnessSize) 4 in
      vSize
  | P2TR =>
      let baseSize :=
        I64.add (I64.add 10 (I64.mul inputs 64)) (I64.mul outputs 31) in
      let witnessSize := I64.add (I64.mul inputs 64) 2 in
      let vSize :=
        I64.quot (I64.add (I64.add (I64.mul baseSize 3) baseSize) witnessSize) 4 in
      vSize
  | OtherType _ => 250
  end.

Definition estimateFee (w : BitcoinWallet) (inputCount outputCount : Z)
    (addrType : AddressType) : Z :=
  let size := EstimateTxSize inputCount outputCount addrType in
  if size <=? 0 then 0
  else
    let rate := if feeRate w <=? 0 then 1 else feeRate w in
    I64.mul size rate.

(** Returns [(fee, changeAmount)]. *)
Definition computeFeeAndChange (w : BitcoinWallet) (fromAddrType : AddressType)
    (totalAmount : Z) (outputCount : Z) (utxos : list UTXO) (totalValue : Z)
    : Z * Z :=
  if len utxos =? 0 then (0, I64.neg totalAmount)
  else
    let feeNoChange := estimateFee w (len utxos) outputCount fromAddrType in
    let changeNoChange := I64.sub (I64.sub totalValue totalAmount) feeNoChange in
    if changeNoChange <? 0 then (feeNoChange, changeNoChange)
    else
      let feeWithChange :=
        estimateFee w (len utxos) (I64.add outputCount 1) fromAddrType in
      let changeWithChange :=
        I64.sub (I64.sub totalValue totalAmount) feeWithChange in
      if changeWithChange >? dustThreshold then (feeWithChange, changeWithChange)
      else
        let actualFee := I64.sub totalValue totalAmount in
        if actualFee <? 0 then (feeWithChange, changeWithChange)
        else (actualFee, 0).

(** The arithmetic of the size estimator stays inside the machine range for
    [n] inputs and [m] outputs. *)
Definition sizes_in_range (n m : Z) : Prop :=
  0 <= n /\ 0 <= m /\ 4 * (10 + 148 * n + 34 * m) + 107 * n + 2 <= I64.max_int.

(** The estimator's formulas over unbounded integers, with the floor
    division the code performs; [EstimateTxSize] agrees with it whenever
    [sizes_in_range] holds. *)
Definition txSizeZ (n m : Z) (addrType : AddressType) : Z :=
  match addrType with
  | P2PKH => 10 + 148 * n + 34 * m
  | P2WPKH => (4 * (10 + 64 * n + 31 * m) + (107 * n + 2)) / 4
  | P2SH => (4 * (10 + 148 * n + 34 * m) + (107 * n + 2)) / 4
  | P2TR => (4 * (10 + 64 * n + 31 * m) + (64 * n + 2)) / 4
  | OtherType _ => 250
  end.

(** Rounding-up division, and the virtual size as the specification words
    it for both witness-v0 families: [ceil((3*base + (base + witness)) / 4)]
    with [base = 10 + 64 n + 31 m] and [witness = 107 n + 2]. *)
Definition ceil_div (a b : Z) : Z := (a + b - 1) / b.

Definition spec_segwit_vsize (n m : Z) : Z :=
  let base := 10 + 64 * n + 31 * m in
  let witness := 107 * n + 2 in
  ceil_div (3 * base + (base + witness)) 4.


(* ================================================================== *)
(** * Errors *)
(* ================================================================== *)

(** Why [decodeAndValidateAddress] rejected an address. *)
Inductive addrError : Type :=
| AddrEmpty            (* the trimmed address is empty *)
| AddrDecodeFailed     (* btcutil.DecodeAddress failed *)
| AddrWrongNetwork.    (* the address is for another network *)

(** One constructor per [fmt.Errorf] site; those whose message carries an
    index or amounts carry them here. *)
Inductive error : Type :=
| ErrNoOutputs
| ErrAmountNotPositive (idx : Z)
| ErrAddressInvalid (idx : Z) (cause : addrError)
| ErrOutputScript (idx : Z)
| ErrBelowDust (idx : Z) (threshold : Z)
| ErrAmountOverflow
| ErrNoUTXO
| ErrInsufficientFunds (need available : Z)
| ErrSelectUTXO (cause : error)
| ErrDestination (cause : addrError)
| ErrSenderAddress
| ErrFetchUTXO
| ErrFeeExceedsBalance
| ErrParseTxHash
| ErrReceiverScript
| ErrMissingOutputs
| ErrInvalidChange (change : Z)
| ErrMissingTxID (idx : Z)
| ErrChangeAddress
| ErrChangeDecode
| ErrChangeScript
| ErrBuild (cause : error)
| ErrSenderDecode
| ErrSenderScript
| ErrUnsupportedType
| ErrSigHash
| ErrWitnessSigHash
| ErrRedeemScript
| ErrSignatureScript
| ErrTaprootAddress
| ErrTaprootDecode
| ErrTaprootScript
| ErrTaprootSignature
| ErrSignInput (idx : Z) (cause : error)
| ErrSign (cause : error)
| ErrSerialize
| ErrBroadcast.

Inductive result (A : Type) : Type :=
| Ok (a : A)
| Err (e : error).
Arguments Ok {A} a.
Arguments Err {A} e.

(* ================================================================== *)
(** * Coin selection *)
(* ================================================================== *)

(** Sum of the coin values over unbounded integers. *)
Fixpoint sumValues (l : list UTXO) : Z :=
  match l with
  | [] => 0
  | u :: rest => Value u + sumValues rest
  end.

Definition value_le (a b : UTXO) : Prop := Value a <= Value b.

(** [sort.Slice] with the comparison [sorted[i].Value < sorted[j].Value].
    The library sort is not stable, so the order among coins of equal value
    is not fixed by the source: a [ValueSorter] is any function returning an
    ascending rearrangement of its argument. *)
Record ValueSorter : Type := mkValueSorter {
  sortSlice : list UTXO -> list UTXO;
  sortSlice_perm : forall l, Permutation l (sortSlice l);
  sortSlice_sorted : forall l, StronglySorted value_le (sortSlice l)
}.

(** The [for _, utxo := range sorted] loop of [SelectUTXOs]. *)
Fixpoint selectLoop (sorted selected : list UTXO) (total amount : Z)
    : result (list UTXO * Z) :=
  match sorted with
  | [] => Err (ErrInsufficientFunds amount total)
  | utxo :: rest =>
      let selected' := selected ++ [utxo] in
      let total' := I64.add total (Value utxo) in
      if total' >=? amount then Ok (selected', total')
      else selectLoop rest selected' total' amount
  end.

Definition SelectUTXOs (S : ValueSorter) (utxos : list UTXO) (amount : Z)
    : result (list UTXO * Z) :=
  if len utxos =? 0 then Err ErrNoUTXO
  else selectLoop (sortSlice S utxos) [] 0 amount.

(** An insertion sort by value, one inhabitant of [ValueSorter]. *)
Fixpoint insertByValue (u : UTXO) (l : list UTXO) : list UTXO :=
  match l with
  | [] => [u]
  | v :: rest =>
      if Value u <=? Value v then u :: v :: rest
      else v :: insertByValue u rest
  end.

Definition insertionSort (l : list UTXO) : list UTXO :=
  fold_right insertByValue [] l.


(* ================================================================== *)
(** * Collaborators *)
(* ================================================================== *)

(** The functions of the Go standard library, of [btcutil], [btcec],
    [txscript], [chainhash] and [wire], and the HTTP endpoints the wallet
    calls.  They are outside the repository; the engine is parametric in
    them.  A failing call ([err != nil]) is [None]. *)
Record Collaborators : Type := mkCollaborators {
  btcAddress : Type;
  (* strings, btcutil *)
  trimSpace : string -> string;
  decodeAddress : string -> Network -> option btcAddress;
  isForNet : btcAddress -> Network -> bool;
  encodeAddress : btcAddress -> string;
  hash160 : bytes -> bytes;
  newAddressPubKeyHash : bytes -> Network -> option btcAddress;
  newAddressWitnessPubKeyHash : bytes -> Network -> option btcAddress;
  newAddressScriptHashFromHash : bytes -> Network -> option btcAddress;
  newAddressTaproot : bytes -> Network -> option btcAddress;
  (* btcec, ecdsa, schnorr *)
  serializeCompressed : bytes -> bytes;
  computeTaprootKeyNoScript : bytes -> bytes;
  schnorrSerializePubKey : bytes -> bytes;
  ecdsaSignSerialize : bytes -> bytes -> bytes;
  (* txscript *)
  payToAddrScript : btcAddress -> option bytes;
  calcSignatureHash : bytes -> MsgTx -> Z -> option bytes;
  calcWitnessSigHash : bytes -> bytes * Z -> MsgTx -> Z -> Z -> option bytes;
  rawTxInTaprootSignature :
    MsgTx -> bytes * Z -> Z -> Z -> bytes -> bytes -> option bytes;
  (* chainhash, wire, hex *)
  newHashFromStr : string -> option bytes;
  serializeHex : MsgTx -> option string;
  (* HTTP: GetUTXOs and BroadcastTransaction, by API URL *)
  fetchUTXOs : string -> string -> option (list UTXO);
  postTx : string -> string -> option string
}.

(* ================================================================== *)
(** * Output resolution *)
(* ================================================================== *)

Record resolvedOutput (L : Collaborators) : Type := mkResolvedOutput {
  address : btcAddress L;
  script : bytes;
  amount : Z
}.
Arguments mkResolvedOutput {L} _ _ _.
Arguments address {L} _.
Arguments script {L} _.
Arguments amount {L} _.

Definition decodeAndValidateAddress (L : Collaborators) (w : BitcoinWallet)
    (addr : string) : btcAddress L + addrError :=
  let trimmed := trimSpace L addr in
  if String.eqb trimmed "" then inr AddrEmpty
  else
    match decodeAddress L trimmed (network w) with
    | None => inr AddrDecodeFailed
    | Some decoded =>
        if negb (isForNet L decoded (network w)) then inr AddrWrongNetwork
        else inl decoded
    end.

(** The [for idx, output := range outputs] loop of
    [resolvePaymentOutputs]. *)
Fixpoint resolveLoop (L : Collaborators) (w : BitcoinWallet)
    (outputs : list PaymentOutput) (idx : Z)
    (resolved : list (resolvedOutput L)) (totalAmount : Z)
    : result (list (resolvedOutput L) * Z) :=
  match outputs with
  | [] => Ok (resolved, totalAmount)
  | output :: rest =>
      if Amount output <=? 0 then Err (ErrAmountNotPositive idx)
      else
        match decodeAndValidateAddress L w (Address output) with
        | inr cause => Err (ErrAddressInvalid idx cause)
        | inl addr =>
            match payToAddrScript L addr with
            | None => Err (ErrOutputScript idx)
            | Some sc =>
                if Amount output <? dustThreshold
                then Err (ErrBelowDust idx dustThreshold)
                else
                  let resolved' :=
                    resolved ++ [mkResolvedOutput addr sc (Amount output)] in
                  let totalAmount' := I64.add totalAmount (Amount output) in
                  if totalAmount' <? 0 then Err ErrAmountOverflow
                  else resolveLoop L w rest (idx + 1) resolved' totalAmount'
            end
        end
  end.

Definition resolvePaymentOutputs (L : Collaborators) (w : BitcoinWallet)
    (outputs : list PaymentOutput) : result (list (resolvedOutput L) * Z) :=
  if len outputs =? 0 then Err ErrNoOutputs
  else resolveLoop L w outputs 0 [] 0.

(** Sum of the requested amounts over unbounded integers. *)
Fixpoint sumAmounts (l : list PaymentOutput) : Z :=
  match l with
  | [] => 0
  | o :: rest => Amount o + sumAmounts rest
  end.

(** The address of an entry decodes for the wallet's network and yields a
    locking script. *)
Definition address_resolves (L : Collaborators) (w : BitcoinWallet)
    (addr : string) : bool :=
  match decodeAndValidateAddress L w addr with
  | inl a =>
      match payToAddrScript L a with
      | Some _ => true
      | None => false
      end
  | inr _ => false
  end.

(** What a resolved output records about its request. *)
Definition entry_resolves (L : Collaborators) (w : BitcoinWallet)
    (o : PaymentOutput) (r : resolvedOutput L) : Prop :=
  decodeAndValidateAddress L w (Address o) = inl (address r) /\
  payToAddrScript L (address r) = Some (script r) /\
  amount r = Amount o.

(** An offending entry: non-positive amount, an address that is malformed
    or of another network (or has no locking script), or an amount below the
    dust threshold. *)
Definition entry_bad (L : Collaborators) (w : BitcoinWallet)
    (o : PaymentOutput) : Prop :=
  Amount o <= 0 \/ address_resolves L w (Address o) = false \/
  Amount o < dustThreshold.

Definition entry_ok (L : Collaborators) (w : BitcoinWallet)
    (o : PaymentOutput) : Prop :=
  dustThreshold <= Amount o /\ address_resolves L w (Address o) = true.

(** The error the loop reports for an entry at position [i] that fails a
    per-entry check, by the first check it fails. *)
Definition entry_rejected (L : Collaborators) (w : BitcoinWallet)
    (i : Z) (o : PaymentOutput) (e : error) : Prop :=
  (Amount o <= 0 /\ e = ErrAmountNotPositive i)
  \/ (0 < Amount o /\ exists cause,
        decodeAndValidateAddress L w (Address o) = inr cause /\
        e = ErrAddressInvalid i cause)
  \/ (0 < Amount o /\ exists a,
        decodeAndValidateAddress L w (Address o) = inl a /\
        payToAddrScript L a = None /\ e = ErrOutputScript i)
  \/ (0 < Amount o < dustThreshold /\
        address_resolves L w (Address o) = true /\
        e = ErrBelowDust i dustThreshold).

(** The index an error message names, if it names one. *)
Definition error_index (e : error) : option Z :=
  match e with
  | ErrAmountNotPositive i | ErrAddressInvalid i _ | ErrOutputScript i
  | ErrBelowDust i _ | ErrMissingTxID i | ErrSignInput i _ => Some i
  | _ => None
  end.


(* ================================================================== *)
(** * Script builder *)
(* ================================================================== *)

(** [txscript.ScriptBuilder] with the canonical data pushes of the library:
    a builder carries the script so far and whether an earlier step failed. *)
Record ScriptBuilder : Type := mkScriptBuilder {
  sbScript : bytes;
  sbFailed : bool
}.

Definition NewScriptBuilder : ScriptBuilder := mkScriptBuilder [] false.

Definition MaxScriptSize : Z := 10000.
Definition MaxScriptElementSize : Z := 520.

Definition OP_0 : byte := x00.
Definition OP_PUSHDATA1 : byte := x4c.
Definition OP_PUSHDATA2 : byte := x4d.
Definition OP_PUSHDATA4 : byte := x4e.
Definition OP_1NEGATE : byte := x4f.

Definition byteToZ (b : byte) : Z := Z.of_N (Byte.to_N b).

Definition byteOfZ (z : Z) : byte :=
  match Byte.of_N (Z.to_N (z mod 256)) with
  | Some b => b
  | None => x00
  end.

(** Little-endian encoding of [z] on [n] bytes. *)
Fixpoint littleEndian (n : nat) (z : Z) : bytes :=
  match n with
  | O => []
  | Datatypes.S n' => byteOfZ z :: littleEndian n' (z / 256)
  end.

Definition AddOp (opcode : byte) (b : ScriptBuilder) : ScriptBuilder :=
  if sbFailed b then b
  else if len (sbScript b) + 1 >? MaxScriptSize
       then mkScriptBuilder (sbScript b) true
       else mkScriptBuilder (sbScript b ++ [opcode]) false.

Definition isSmallInt (data : bytes) : bool :=
  match data with
  | [d] => (byteToZ d <=? 16) || (byteToZ d =? 129)
  | _ => false
  end.

Definition canonicalDataSize (data : bytes) : Z :=
  let dataLen := len data in
  if dataLen =? 0 then 1
  else if isSmallInt data then 1
  else if dataLen <? 76 then 1 + dataLen
  else if dataLen <=? 255 then 2 + dataLen
  else if dataLen <=? 65535 then 3 + dataLen
  else 5 + dataLen.

(** The unchecked push: small integers become their opcode, other data is
    prefixed by the shortest length encoding. *)
Definition pushData (data : bytes) : bytes :=
  let dataLen := len data in
  match data with
  | [] => [OP_0]
  | [d] =>
      if byteToZ d =? 0 then [OP_0]
      else if byteToZ d <=? 16 then [byteOfZ (80 + byteToZ d)]
      else if byteToZ d =? 129 then [OP_1NEGATE]
      else [byteOfZ dataLen; d]
  | _ =>
      if dataLen <? 76 then byteOfZ dataLen :: data
      else if dataLen <=? 255 then OP_PUSHDATA1 :: byteOfZ dataLen :: data
      else if dataLen <=? 65535
           then OP_PUSHDATA2 :: littleEndian 2 dataLen ++ data
           else OP_PUSHDATA4 :: littleEndian 4 dataLen ++ data
  end.

Definition AddData (data : bytes) (b : ScriptBuilder) : ScriptBuilder :=
  if sbFailed b then b
  else if len (sbScript b) + canonicalDataSize data >? MaxScriptSize
       then mkScriptBuilder (sbScript b) true
       else if len data >? MaxScriptElementSize
            then mkScriptBuilder (sbScript b) true
            else mkScriptBuilder (sbScript b ++ pushData data) false.

(** [Script()] returns the script together with the recorded error. *)
Definition Script (b : ScriptBuilder) : bytes * bool :=
  (sbScript b, sbFailed b).

(* ================================================================== *)
(** * Wallet addresses *)
(* ================================================================== *)

Definition getP2PKHAddress (L : Collaborators) (w : BitcoinWallet)
    : option string :=
  let pubKeyHash := hash160 L (serializeCompressed L (publicKey w)) in
  match newAddressPubKeyHash L pubKeyHash (network w) with
  | None => None
  | Some addr => Some (encodeAddress L addr)
  end.

Definition getP2WPKHAddress (L : Collaborators) (w : BitcoinWallet)
    : option string :=
  let pubKeyHash := hash160 L (serializeCompressed L (publicKey w)) in
  match newAddressWitnessPubKeyHash L pubKeyHash (network w) with
  | None => None
  | Some addr => Some (encodeAddress L addr)
  end.

(** The P2WPKH redeem script [OP_0 <pubKeyHash>] built by both
    [getP2SHAddress] and [SignP2SHTransaction]. *)
Definition redeemScriptBuilder (L : Collaborators) (w : BitcoinWallet)
    : ScriptBuilder :=
  let pubKeyHash := hash160 L (serializeCompressed L (publicKey w)) in
  AddData pubKeyHash (AddOp OP_0 NewScriptBuilder).

Definition getP2SHAddress (L : Collaborators) (w : BitcoinWallet)
    : option string :=
  let (witnessScript, failed) := Script (redeemScriptBuilder L w) in
  if failed then None
  else
    let scriptHash := hash160 L witnessScript in
    match newAddressScriptHashFromHash L scriptHash (network w) with
    | None => None
    | Some addr => Some (encodeAddress L addr)
    end.

Definition getP2TRAddress (L : Collaborators) (w : BitcoinWallet)
    : option string :=
  let tapKey := computeTaprootKeyNoScript L (publicKey w) in
  match newAddressTaproot L (schnorrSerializePubKey L tapKey) (network w) with
  | None => None
  | Some addr => Some (encodeAddress L addr)
  end.

Definition GetAddress (L : Collaborators) (w : BitcoinWallet)
    (addrType : AddressType) : option string :=
  match addrType with
  | P2PKH => getP2PKHAddress L w
  | P2WPKH => getP2WPKHAddress L w
  | P2SH => getP2SHAddress L w
  | P2TR => getP2TRAddress L w
  | OtherType _ => None
  end.


(* ================================================================== *)
(** * Transaction builder *)
(* ================================================================== *)

Definition TxVersion : Z := 1.
Definition MaxTxInSequenceNum : Z := 4294967295.

Definition NewMsgTx (version : Z) : MsgTx := mkMsgTx version [] [] 0.

(** [wire.NewTxIn(wire.NewOutPoint(hash, vout), nil, nil)]. *)
Definition NewTxIn (hash : bytes) (vout : Z) : TxIn :=
  mkTxIn (mkOutPoint hash vout) [] [] MaxTxInSequenceNum.

Definition AddTxIn (ti : TxIn) (tx : MsgTx) : MsgTx :=
  mkMsgTx (Version tx) (TxIns tx ++ [ti]) (TxOuts tx) (LockTime tx).

Definition AddTxOut (to : TxOut) (tx : MsgTx) : MsgTx :=
  mkMsgTx (Version tx) (TxIns tx) (TxOuts tx ++ [to]) (LockTime tx).

(** The input loop of [buildTransaction], which refuses an empty
    transaction identifier before parsing it. *)
Fixpoint addInputsChecked (L : Collaborators) (utxos : list UTXO) (idx : Z)
    (tx : MsgTx) : result MsgTx :=
  match utxos with
  | [] => Ok tx
  | utxo :: rest =>
      if String.eqb (TxID utxo) "" then Err (ErrMissingTxID idx)
      else
        match newHashFromStr L (TxID utxo) with
        | None => Err ErrParseTxHash
        | Some txHash =>
            addInputsChecked L rest (idx + 1)
              (AddTxIn (NewTxIn txHash (Vout utxo)) tx)
        end
  end.

(** The input loop of [SendAll]. *)
Fixpoint addInputs (L : Collaborators) (utxos : list UTXO) (tx : MsgTx)
    : result MsgTx :=
  match utxos with
  | [] => Ok tx
  | utxo :: rest =>
      match newHashFromStr L (TxID utxo) with
      | None => Err ErrParseTxHash
      | Some txHash =>
          addInputs L rest (AddTxIn (NewTxIn txHash (Vout utxo)) tx)
      end
  end.

(** [wire.NewTxOut(output.amount, output.script)]. *)
Definition toTxOut {L : Collaborators} (output : resolvedOutput L) : TxOut :=
  mkTxOut (amount output) (script output).

Definition addOutputs {L : Collaborators} (outputs : list (resolvedOutput L))
    (tx : MsgTx) : MsgTx :=
  fold_left (fun acc output => AddTxOut (toTxOut output) acc) outputs tx.

Definition buildTransaction (L : Collaborators) (w : BitcoinWallet)
    (fromAddrType : AddressType) (utxos : list UTXO)
    (outputs : list (resolvedOutput L)) (changeAmount : Z) : result MsgTx :=
  if len outputs =? 0 then Err ErrMissingOutputs
  else if changeAmount <? 0 then Err (ErrInvalidChange changeAmount)
  else
    match addInputsChecked L utxos 0 (NewMsgTx TxVersion) with
    | Err e => Err e
    | Ok tx =>
        let tx := addOutputs outputs tx in
        if changeAmount >? dustThreshold then
          match GetAddress L w fromAddrType with
          | None => Err ErrChangeAddress
          | Some changeAddr =>
              match decodeAddress L changeAddr (network w) with
              | None => Err ErrChangeDecode
              | Some changeAddrObj =>
                  match payToAddrScript L changeAddrObj with
                  | None => Err ErrChangeScript
                  | Some changeScript =>
                      Ok (AddTxOut (mkTxOut changeAmount changeScript) tx)
                  end
              end
          end
        else Ok tx
    end.

(* ================================================================== *)
(** * Signing *)
(* ================================================================== *)

(** A call either returns normally, returns an error, or stops in Go's
    run-time panic for an index outside a slice. *)
Inductive outcome (A : Type) : Type :=
| Done (a : A)
| Failed (e : error)
| IndexPanic (index : Z) (length : Z).
Arguments Done {A} a.
Arguments Failed {A} e.
Arguments IndexPanic {A} index length.

Definition SigHashAll : byte := x01.

(** [tx.TxIn[idx]] as the target of an assignment: [f] updates the input at
    [idx]; an index outside [0 .. len(tx.TxIn) - 1] panics. *)
Definition updateTxIn (tx : MsgTx) (idx : Z) (f : TxIn -> TxIn) : outcome MsgTx :=
  if (idx <? 0) || (len (TxIns tx) <=? idx)
  then IndexPanic idx (len (TxIns tx))
  else
    let i := Z.to_nat idx in
    match nth_error (TxIns tx) i with
    | None => IndexPanic idx (len (TxIns tx))
    | Some ti =>
        Done (mkMsgTx (Version tx)
                (firstn i (TxIns tx) ++ f ti :: skipn (Datatypes.S i) (TxIns tx))
                (TxOuts tx) (LockTime tx))
    end.

Definition setSignatureScript (sc : bytes) (ti : TxIn) : TxIn :=
  mkTxIn (PreviousOutPoint ti) sc (Witness ti) (Sequence ti).

Definition setWitness (wit : list bytes) (ti : TxIn) : TxIn :=
  mkTxIn (PreviousOutPoint ti) (SignatureScript ti) wit (Sequence ti).

Definition SignP2PKHTransaction (L : Collaborators) (w : BitcoinWallet)
    (tx : MsgTx) (idx : Z) (pkScript : bytes) : outcome MsgTx :=
  match calcSignatureHash L pkScript tx idx with
  | None => Failed ErrSigHash
  | Some sigHash =>
      let signature := ecdsaSignSerialize L (privateKey w) sigHash in
      let sigWithHashType := signature ++ [SigHashAll] in
      let (sc, failed) :=
        Script (AddData (serializeCompressed L (publicKey w))
                  (AddData sigWithHashType NewScriptBuilder)) in
      match updateTxIn tx idx (setSignatureScript sc) with
      | Done tx' => if failed then Failed ErrSignatureScript else Done tx'
      | other => other
      end
  end.

Definition SignP2WPKHTransaction (L : Collaborators) (w : BitcoinWallet)
    (tx : MsgTx) (idx : Z) (value : Z) (pkScript : bytes) : outcome MsgTx :=
  let prevFetcher := (pkScript, value) in
  match calcWitnessSigHash L pkScript prevFetcher tx idx value with
  | None => Failed ErrWitnessSigHash
  | Some sigHash =>
      let signature := ecdsaSignSerialize L (privateKey w) sigHash in
      let sigWithHashType := signature ++ [SigHashAll] in
      updateTxIn tx idx
        (setWitness [sigWithHashType; serializeCompressed L (publicKey w)])
  end.

Definition SignP2SHTransaction (L : Collaborators) (w : BitcoinWallet)
    (tx : MsgTx) (idx : Z) (value : Z) (pkScript : bytes) : outcome MsgTx :=
  let (witnessScript, failed) := Script (redeemScriptBuilder L w) in
  if failed then Failed ErrRedeemScript
  else
    let prevFetcher := (pkScript, value) in
    match calcWitnessSigHash L witnessScript prevFetcher tx idx value with
    | None => Failed ErrWitnessSigHash
    | Some sigHash =>
        let signature := ecdsaSignSerialize L (privateKey w) sigHash in
        let sigWithHashType := signature ++ [SigHashAll] in
        match updateTxIn tx idx
                (setWitness [sigWithHashType;
                             serializeCompressed L (publicKey w)]) with
        | Done tx1 =>
            let (sc, failed') :=
              Script (AddData witnessScript NewScriptBuilder) in
            match updateTxIn tx1 idx (setSignatureScript sc) with
            | Done tx2 => if failed' then Failed ErrSignatureScript else Done tx2
            | other => other
            end
        | other => other
        end
    end.

Definition SignP2TRTransaction (L : Collaborators) (w : BitcoinWallet)
    (tx : MsgTx) (idx : Z) (value : Z) (pkScript : bytes) : outcome MsgTx :=
  match getP2TRAddress L w with
  | None => Failed ErrTaprootAddress
  | Some p2trAddr =>
      match decodeAddress L p2trAddr (network w) with
      | None => Failed ErrTaprootDecode
      | Some addrObj =>
          match payToAddrScript L addrObj with
          | None => Failed ErrTaprootScript
          | Some prevScript =>
              let prevFetcher := (prevScript, value) in
              match rawTxInTaprootSignature L tx prevFetcher idx value
                      prevScript (privateKey w) with
              | None => Failed ErrTaprootSignature
              | Some sig => updateTxIn tx idx (setWitness [sig])
              end
          end
      end
  end.

(** The [switch fromAddrType] of [SignTransaction] for input [i]; an error
    of a signing function is wrapped with the input index, the [default]
    branch returns its own error. *)
Definition signInput (L : Collaborators) (w : BitcoinWallet)
    (fromAddrType : AddressType) (fromScript : bytes)
    (tx : MsgTx) (i : Z) (utxo : UTXO) : outcome MsgTx :=
  let wrapped (o : outcome MsgTx) : outcome MsgTx :=
    match o with
    | Failed e => Failed (ErrSignInput i e)
    | other => other
    end in
  match fromAddrType with
  | P2PKH => wrapped (SignP2PKHTransaction L w tx i fromScript)
  | P2WPKH => wrapped (SignP2WPKHTransaction L w tx i (Value utxo) fromScript)
  | P2SH => wrapped (SignP2SHTransaction L w tx i (Value utxo) fromScript)
  | P2TR => wrapped (SignP2TRTransaction L w tx i (Value utxo) fromScript)
  | OtherType _ => Failed ErrUnsupportedType
  end.

(** The [for i, utxo := range utxos] loop of [SignTransaction]. *)
Fixpoint signLoop (L : Collaborators) (w : BitcoinWallet)
    (fromAddrType : AddressType) (fromScript : bytes)
    (utxos : list UTXO) (i : Z) (tx : MsgTx) : outcome MsgTx :=
  match utxos with
  | [] => Done tx
  | utxo :: rest =>
      match signInput L w fromAddrType fromScript tx i utxo with
      | Done tx' => signLoop L w fromAddrType fromScript rest (i + 1) tx'
      | other => other
      end
  end.

(** The sender's own locking script, looked up before the loop. *)
Definition senderScript (L : Collaborators) (w : BitcoinWallet)
    (fromAddrType : AddressType) : result bytes :=
  match GetAddress L w fromAddrType with
  | None => Err ErrSenderAddress
  | Some fromAddr =>
      match decodeAddress L fromAddr (network w) with
      | None => Err ErrSenderDecode
      | Some fromAddrObj =>
          match payToAddrScript L fromAddrObj with
          | None => Err ErrSenderScript
          | Some fromScript => Ok fromScript
          end
      end
  end.

Definition SignTransaction (L : Collaborators) (w : BitcoinWallet)
    (tx : MsgTx) (fromAddrType : AddressType) (utxos : list UTXO)
    : outcome MsgTx :=
  match senderScript L w fromAddrType with
  | Err e => Failed e
  | Ok fromScript => signLoop L w fromAddrType fromScript utxos 0 tx
  end.

(** A freshly built transaction: no input carries unlocking data yet. *)
Definition unsigned (tx : MsgTx) : Prop :=
  Forall (fun ti => SignatureScript ti = [] /\ Witness ti = []) (TxIns tx).

(** What signing does to one input, by family. *)
Definition signed_as (L : Collaborators) (w : BitcoinWallet)
    (fromAddrType : AddressType) (before after : TxIn) : Prop :=
  PreviousOutPoint after = PreviousOutPoint before /\
  Sequence after = Sequence before /\
  match fromAddrType with
  | P2PKH =>
      (exists sigHash,
          SignatureScript after =
            pushData (ecdsaSignSerialize L (privateKey w) sigHash ++ [SigHashAll])
            ++ pushData (serializeCompressed L (publicKey w))) /\
      Witness after = Witness before
  | P2WPKH =>
      (exists sigHash,
          Witness after =
            [ecdsaSignSerialize L (privateKey w) sigHash ++ [SigHashAll];
             serializeCompressed L (publicKey w)]) /\
      SignatureScript after = SignatureScript before
  | P2SH =>
      (exists sigHash,
          Witness after =
            [ecdsaSignSerialize L (privateKey w) sigHash ++ [SigHashAll];
             serializeCompressed L (publicKey w)]) /\
      SignatureScript after =
        pushData (OP_0 :: pushData (hash160 L (serializeCompressed L (publicKey w))))
  | P2TR =>
      (exists sig, Witness after = [sig]) /\
      SignatureScript after = SignatureScript before
  | OtherType _ => False
  end.

(** [tx'] is [tx] with the input at position [n] replaced. *)
Definition input_replaced (tx tx' : MsgTx) (n : nat) (before after : TxIn)
    : Prop :=
  nth_error (TxIns tx) n = Some before /\
  TxIns tx' = firstn n (TxIns tx) ++ after :: skipn (Datatypes.S n) (TxIns tx) /\
  TxOuts tx' = TxOuts tx.

(** The calls a signing function makes before it assigns to
    [tx.TxIn[idx]] all succeed. *)
Definition reachesAssignment (L : Collaborators) (w : BitcoinWallet)
    (fromAddrType : AddressType) (fromScript : bytes)
    (tx : MsgTx) (idx : Z) (value : Z) : Prop :=
  match fromAddrType with
  | P2PKH => calcSignatureHash L fromScript tx idx <> None
  | P2WPKH =>
      calcWitnessSigHash L fromScript (fromScript, value) tx idx value <> None
  | P2SH =>
      exists witnessScript,
        Script (redeemScriptBuilder L w) = (witnessScript, false) /\
        calcWitnessSigHash L witnessScript (fromScript, value) tx idx value
        <> None
  | P2TR =>
      exists p2trAddr addrObj prevScript,
        getP2TRAddress L w = Some p2trAddr /\
        decodeAddress L p2trAddr (network w) = Some addrObj /\
        payToAddrScript L addrObj = Some prevScript /\
        rawTxInTaprootSignature L tx (prevScript, value) idx value prevScript
          (privateKey w) <> None
  | OtherType _ => False
  end.

(** The unlocking data a signed input carries, by family. *)
Definition carries_unlocking_data (L : Collaborators) (w : BitcoinWallet)
    (fromAddrType : AddressType) (ti' : TxIn) : Prop :=
  match fromAddrType with
  | P2PKH => SignatureScript ti' <> [] /\ Witness ti' = []
  | P2WPKH =>
      (exists sigHash,
          Witness ti' =
            [ecdsaSignSerialize L (privateKey w) sigHash ++ [SigHashAll];
             serializeCompressed L (publicKey w)]) /\
      SignatureScript ti' = []
  | P2SH =>
      Script (redeemScriptBuilder L w)
      = (OP_0 :: pushData (hash160 L (serializeCompressed L (publicKey w))),
         false) /\
      SignatureScript ti'
      = pushData (OP_0 :: pushData (hash160 L (serializeCompressed L (publicKey w)))) /\
      SignatureScript ti' <> [] /\
      (exists sigHash,
          Witness ti' =
            [ecdsaSignSerialize L (privateKey w) sigHash ++ [SigHashAll];
             serializeCompressed L (publicKey w)])
  | P2TR => (exists sig, Witness ti' = [sig]) /\ SignatureScript ti' = []
  | OtherType _ => False
  end.

(** What the library's witness and taproot digest routines do with an input
    index at or past the number of inputs: [CalcWitnessSigHash] and
    [RawTxInTaprootSignature] compare the index with [len(tx.TxIn)] first
    and return an error.  [CalcSignatureHash], the legacy digest, makes no
    such comparison. *)
Definition digests_check_index (L : Collaborators) : Prop :=
  (forall (sc : bytes) (prev : bytes * Z) (tx : MsgTx) (idx value : Z),
      len (TxIns tx) <= idx ->
      calcWitnessSigHash L sc prev tx idx value = None) /\
  (forall (tx : MsgTx) (prev : bytes * Z) (idx value : Z) (sc key : bytes),
      len (TxIns tx) <= idx ->
      rawTxInTaprootSignature L tx prev idx value sc key = None).

(* ================================================================== *)
(** * Send flows *)
(* ================================================================== *)

Definition GetUTXOs (L : Collaborators) (w : BitcoinWallet) (addr : string)
    : option (list UTXO) :=
  fetchUTXOs L (apiURL w) addr.

Definition BroadcastTransaction (L : Collaborators) (w : BitcoinWallet)
    (txHex : string) : outcome string :=
  match postTx L (apiURL w) txHex with
  | None => Failed ErrBroadcast
  | Some txid => Done txid
  end.

(** The tail shared by [SendMany] and [SendAll]: sign, serialize, submit. *)
Definition signAndBroadcast (L : Collaborators) (w : BitcoinWallet)
    (tx : MsgTx) (fromAddrType : AddressType) (utxos : list UTXO)
    : outcome string :=
  match SignTransaction L w tx fromAddrType utxos with
  | Failed e => Failed (ErrSign e)
  | IndexPanic a b => IndexPanic a b
  | Done signed =>
      match serializeHex L signed with
      | None => Failed ErrSerialize
      | Some txHex => BroadcastTransaction L w txHex
      end
  end.

(** One decision of the reselection loop: the selected coins, their total
    value, the fee and the change. *)
Record FeeDecision : Type := mkFeeDecision {
  selectedUTXOs : list UTXO;
  totalValue : Z;
  estimatedFee : Z;
  changeAmount : Z
}.

(** The unbounded [for { ... }] loop of [SendMany], run for at most [fuel]
    rounds; [None] means the rounds were used up without leaving the
    loop. *)
Fixpoint sendManyLoop (S : ValueSorter) (w : BitcoinWallet)
    (fromAddrType : AddressType) (totalAmount outputCount : Z)
    (utxos : list UTXO) (fuel : nat) (requiredAmount : Z)
    : option (result FeeDecision) :=
  match fuel with
  | O => None
  | Datatypes.S fuel' =>
      match SelectUTXOs S utxos requiredAmount with
      | Err e => Some (Err (ErrSelectUTXO e))
      | Ok (selected, total) =>
          let (fee, change) :=
            computeFeeAndChange w fromAddrType totalAmount outputCount
              selected total in
          if change >=? 0
          then Some (Ok (mkFeeDecision selected total fee change))
          else sendManyLoop S w fromAddrType totalAmount outputCount utxos
                 fuel' (I64.add totalAmount fee)
      end
  end.

Definition SendMany (S : ValueSorter) (L : Collaborators) (w : BitcoinWallet)
    (fuel : nat) (fromAddrType : AddressType) (outputs : list PaymentOutput)
    : option (outcome string) :=
  match resolvePaymentOutputs L w outputs with
  | Err e => Some (Failed e)
  | Ok (resolvedOutputs, totalAmount) =>
      match GetAddress L w fromAddrType with
      | None => Some (Failed ErrSenderAddress)
      | Some fromAddr =>
          match GetUTXOs L w fromAddr with
          | None => Some (Failed ErrFetchUTXO)
          | Some utxos =>
              if len utxos =? 0 then Some (Failed ErrNoUTXO)
              else
                match sendManyLoop S w fromAddrType totalAmount
                        (len resolvedOutputs) utxos fuel totalAmount with
                | None => None
                | Some (Err e) => Some (Failed e)
                | Some (Ok d) =>
                    match buildTransaction L w fromAddrType (selectedUTXOs d)
                            resolvedOutputs (changeAmount d) with
                    | Err e => Some (Failed (ErrBuild e))
                    | Ok tx =>
                        Some (signAndBroadcast L w tx fromAddrType
                                (selectedUTXOs d))
                    end
                end
          end
      end
  end.

(** [totalBalance] of [SendAll]: the running 64-bit sum of the values. *)
Definition totalBalanceOf (utxos : list UTXO) : Z :=
  fold_left (fun acc utxo => I64.add acc (Value utxo)) utxos 0.

(** [transferAmount] of [SendAll]. *)
Definition sweepTransferAmount (w : BitcoinWallet) (fromAddrType : AddressType)
    (utxos : list UTXO) : Z :=
  let totalBalance := totalBalanceOf utxos in
  let estimatedSize := EstimateTxSize (len utxos) 1 fromAddrType in
  let rate := if feeRate w <=? 0 then 1 else feeRate w in
  let estimatedFee := I64.mul estimatedSize rate in
  I64.sub totalBalance estimatedFee.

(** The unsigned transaction [SendAll] assembles once the amount is known
    to be positive. *)
Definition sweepTransaction (L : Collaborators) (targetAddr : btcAddress L)
    (utxos : list UTXO) (transferAmount : Z) : result MsgTx :=
  match addInputs L utxos (NewMsgTx TxVersion) with
  | Err e => Err e
  | Ok tx =>
      match payToAddrScript L targetAddr with
      | None => Err ErrReceiverScript
      | Some receiverScript =>
          Ok (AddTxOut (mkTxOut transferAmount receiverScript) tx)
      end
  end.

Definition SendAll (L : Collaborators) (w : BitcoinWallet)
    (fromAddrType : AddressType) (toAddress : string) : outcome string :=
  match decodeAndValidateAddress L w toAddress with
  | inr cause => Failed (ErrDestination cause)
  | inl targetAddr =>
      match GetAddress L w fromAddrType with
      | None => Failed ErrSenderAddress
      | Some fromAddr =>
          match GetUTXOs L w fromAddr with
          | None => Failed ErrFetchUTXO
          | Some utxos =>
              if len utxos =? 0 then Failed ErrNoUTXO
              else
                let transferAmount :=
                  sweepTransferAmount w fromAddrType utxos in
                if transferAmount <=? 0 then Failed ErrFeeExceedsBalance
                else
                  match sweepTransaction L targetAddr utxos transferAmount with
                  | Err e => Failed e
                  | Ok tx => signAndBroadcast L w tx fromAddrType utxos
                  end
          end
      end
  end.


(** How the reselection loop may leave: with a decision whose change is
    not negative, or with the selector's insufficient-funds error. *)
Definition loop_exit (r : result FeeDecision) : Prop :=
  match r with
  | Ok d => 0 <= changeAmount d
  | Err e => exists need available,
      e = ErrSelectUTXO (ErrInsufficientFunds need available)
  end.


(* ================================================================== *)
(** * The rest of the wallet interface *)
(* ================================================================== *)

Definition SetFeeRate (w : BitcoinWallet) (rate : Z) : BitcoinWallet :=
  mkWallet (privateKey w) (publicKey w) (network w) (apiURL w) rate.

Definition GetFeeRate (w : BitcoinWallet) : Z := feeRate w.

Definition CreateTransactionWithOutputs (L : Collaborators) (w : BitcoinWallet)
    (fromAddrType : AddressType) (utxos : list UTXO)
    (outputs : list PaymentOutput) (changeAmount : Z) : result MsgTx :=
  match resolvePaymentOutputs L w outputs with
  | Err e => Err e
  | Ok (resolved, _) =>
      buildTransaction L w fromAddrType utxos resolved changeAmount
  end.

Definition CreateTransaction (L : Collaborators) (w : BitcoinWallet)
    (fromAddrType : AddressType) (toAddress : string) (amount : Z)
    (utxos : list UTXO) (changeAmount : Z) : result MsgTx :=
  match resolvePaymentOutputs L w [mkPaymentOutput toAddress amount] with
  | Err e => Err e
  | Ok (resolved, _) =>
      buildTransaction L w fromAddrType utxos resolved changeAmount
  end.

Definition SendTransaction (S : ValueSorter) (L : Collaborators)
    (w : BitcoinWallet) (fuel : nat) (fromAddrType : AddressType)
    (toAddress : string) (amount : Z) : option (outcome string) :=
  SendMany S L w fuel fromAddrType [mkPaymentOutput toAddress amount].

(** The errors of the raw-transaction functions that no other function
    raises, beside the ones they share with the rest of the engine. *)
Inductive rawError : Type :=
| RawShared (e : error)
| RawValueOverflow        (* the sum of the coin values overflowed *)
| RawInsufficient         (* the coins do not cover amount and fee *)
| RawHexDecode            (* hex.DecodeString failed *)
| RawDeserialize.         (* tx.Deserialize failed *)

Inductive rawOutcome (A : Type) : Type :=
| RawDone (a : A)
| RawFailed (e : rawError)
| RawPanic (index : Z) (length : Z).
Arguments RawDone {A} a.
Arguments RawFailed {A} e.
Arguments RawPanic {A} index length.

(** The summing loop of [CreateRawTransactionWithOutputs], which stops as
    soon as the running total is negative; [None] is that error. *)
Fixpoint sumValuesChecked (utxos : list UTXO) (totalValue : Z) : option Z :=
  match utxos with
  | [] => Some totalValue
  | utxo :: rest =>
      let totalValue' := I64.add totalValue (Value utxo) in
      if totalValue' <? 0 then None
      else sumValuesChecked rest totalValue'
  end.

Definition CreateRawTransactionWithOutputs (L : Collaborators)
    (w : BitcoinWallet) (fromAddrType : AddressType)
    (outputs : list PaymentOutput) (utxos : list UTXO) : rawOutcome string :=
  match resolvePaymentOutputs L w outputs with
  | Err e => RawFailed (RawShared e)
  | Ok (resolvedOutputs, totalAmount) =>
      if len utxos =? 0 then RawFailed (RawShared ErrNoUTXO)
      else
        match sumValuesChecked utxos 0 with
        | None => RawFailed RawValueOverflow
        | Some totalValue =>
            let (_, changeAmount) :=
              computeFeeAndChange w fromAddrType totalAmount
                (len resolvedOutputs) utxos totalValue in
            if changeAmount <? 0 then RawFailed RawInsufficient
            else
              match buildTransaction L w fromAddrType utxos resolvedOutputs
                      changeAmount with
              | Err e => RawFailed (RawShared (ErrBuild e))
              | Ok tx =>
                  match serializeHex L tx with
                  | None => RawFailed (RawShared ErrSerialize)
                  | Some txHex => RawDone txHex
                  end
              end
        end
  end.

Definition CreateRawTransaction (L : Collaborators) (w : BitcoinWallet)
    (fromAddrType : AddressType) (toAddress : string) (amount : Z)
    (utxos : list UTXO) : rawOutcome string :=
  CreateRawTransactionWithOutputs L w fromAddrType
    [mkPaymentOutput toAddress amount] utxos.

(** [hex.DecodeString] and [tx.Deserialize], the decoding half of the wire
    format, used by [SignRawTransaction] only. *)
Record WireDecoder : Type := mkWireDecoder {
  hexDecodeString : string -> option bytes;
  deserializeTx : bytes -> option MsgTx
}.

Definition SignRawTransaction (L : Collaborators) (D : WireDecoder)
    (w : BitcoinWallet) (txHex : string) (fromAddrType : AddressType)
    (utxos : list UTXO) : rawOutcome string :=
  match hexDecodeString D txHex with
  | None => RawFailed RawHexDecode
  | Some data =>
      match deserializeTx D data with
      | None => RawFailed RawDeserialize
      | Some tx =>
          match SignTransaction L w tx fromAddrType utxos with
          | Failed e => RawFailed (RawShared (ErrSign e))
          | IndexPanic a b => RawPanic a b
          | Done signed =>
              match serializeHex L signed with
              | None => RawFailed (RawShared ErrSerialize)
              | Some signedHex => RawDone signedHex
              end
          end
      end
  end.

(** Sum of the output values of a transaction, over unbounded integers. *)
Fixpoint sumOutValues (outs : list TxOut) : Z :=
  match outs with
  | [] => 0
  | o :: rest => OutValue o + sumOutValues rest
  end.

(** Sum of the resolved amounts, over unbounded integers. *)
Fixpoint sumResolved {L : Collaborators} (outs : list (resolvedOutput L)) : Z :=
  match outs with
  | [] => 0
  | o :: rest => amount o + sumResolved rest
  end.

(** A coin the builder accepts: a non-empty identifier that parses. *)
Definition coin_parses (L : Collaborators) (u : UTXO) : Prop :=
  TxID u <> ""%string /\ newHashFromStr L (TxID u) <> None.

(** The input built for a coin: its parsed identifier and output index,
    no unlocking data, final sequence number. *)
Definition input_of_coin (L : Collaborators) (u : UTXO) (ti : TxIn) : Prop :=
  exists txHash,
    newHashFromStr L (TxID u) = Some txHash /\ ti = NewTxIn txHash (Vout u).

(** The wallet's own change script for a family, as the builder looks it
    up. *)
Definition change_script (L : Collaborators) (w : BitcoinWallet)
    (t : AddressType) (sc : bytes) : Prop :=
  exists changeAddr changeAddrObj,
    GetAddress L w t = Some changeAddr /\
    decodeAddress L changeAddr (network w) = Some changeAddrObj /\
    payToAddrScript L changeAddrObj = Some sc.

(** The error a signing function returns for one input. *)
Definition input_signing_error (e : error) : Prop :=
  e = ErrSigHash \/ e = ErrWitnessSigHash \/ e = ErrRedeemScript \/
  e = ErrSignatureScript \/ e = ErrTaprootAddress \/ e = ErrTaprootDecode \/
  e = ErrTaprootScript \/ e = ErrTaprootSignature.

(** The running 64-bit total of [SelectUTXOs] after the coins of [l],
    started from [acc]. *)
Definition runningTotal (acc : Z) (l : list UTXO) : Z :=
  fold_left (fun a utxo => I64.add a (Value utxo)) l acc.


(* ================================================================== *)
(** * A stand-in for the collaborators *)
(* ================================================================== *)

(** A small deterministic inhabitant of [Collaborators], used to run the
    engine on concrete inputs.  Addresses are their own strings; ["bad"]
    does not decode and ["bc1..."] addresses belong to the main network;
    the coin endpoint answers with [coins].
    Like the library's witness and taproot digests, its digests of those two
    kinds refuse an input index outside the transaction. *)
Definition testIndexOk (tx : MsgTx) (idx : Z) : bool :=
  (0 <=? idx) && (idx <? len (TxIns tx)).

Definition testIsMainnet (a : string) : bool := String.prefix "bc1" a.

Definition testLibWith (coins : list UTXO) : Collaborators := {|
  btcAddress := string;
  trimSpace := fun s => s;
  decodeAddress := fun s _ => if String.eqb s "bad" then None else Some s;
  isForNet := fun a net =>
    match net with
    | MainNetParams => testIsMainnet a
    | TestNet3Params => negb (testIsMainnet a)
    end;
  encodeAddress := fun a => a;
  hash160 := fun b => firstn 20 (b ++ repeat x00 20);
  newAddressPubKeyHash := fun _ _ => Some "m-legacy"%string;
  newAddressWitnessPubKeyHash := fun _ _ => Some "tb1q-segwit"%string;
  newAddressScriptHashFromHash := fun _ _ => Some "2-nested"%string;
  newAddressTaproot := fun _ _ => Some "tb1p-taproot"%string;
  serializeCompressed := fun k => x02 :: k;
  computeTaprootKeyNoScript := fun k => x50 :: k;
  schnorrSerializePubKey := fun k => k;
  ecdsaSignSerialize := fun _ digest => x30 :: digest;
  payToAddrScript := fun a => Some [x76; xa9];
  calcSignatureHash := fun sc _ idx => Some [x11];
  calcWitnessSigHash := fun sc _ tx idx _ =>
    if testIndexOk tx idx then Some [x22] else None;
  rawTxInTaprootSignature := fun tx _ idx _ _ _ =>
    if testIndexOk tx idx then Some [x33] else None;
  newHashFromStr := fun s => if String.eqb s "zz" then None else Some [xab];
  serializeHex := fun _ => Some "hex"%string;
  fetchUTXOs := fun _ _ => Some coins;
  postTx := fun _ _ => Some "txid"%string
|}.

Definition testLib : Collaborators := testLibWith [].

(** A decoder that reads ["tx1"] as the one-input, one-output transaction
    [testTx] and refuses every other string. *)
Definition testTx : MsgTx :=
  mkMsgTx 1 [mkTxIn (mkOutPoint [xab] 0) [] [] MaxTxInSequenceNum]
    [mkTxOut 1500 [x00; x14]] 0.

Definition testDecoder : WireDecoder := {|
  hexDecodeString := fun s => if String.eqb s "tx1" then Some [x01] else None;
  deserializeTx := fun b => match b with [x01] => Some testTx | _ => None end
|}.


(* ================================================================== *)
(** * An inhabitant of [ValueSorter] *)
(* ================================================================== *)

Section InsertionSort.

Lemma insertByValue_perm (u : UTXO) (l : list UTXO) :
  Permutation (u :: l) (insertByValue u l).
Proof.
  induction l as [ | v rest IH]; cbn; [reflexivity | ].
  destruct (Value u <=? Value v); [reflexivity | ].
  rewrite perm_swap. now constructor.
Qed.

Lemma insertionSort_perm (l : list UTXO) : Permutation l (insertionSort l).
Proof.
  induction l as [ | u rest IH]; cbn; [constructor | ].
  rewrite <- insertByValue_perm. now constructor.
Qed.

Lemma insertByValue_sorted (u : UTXO) (l : list UTXO) :
  StronglySorted value_le l -> StronglySorted value_le (insertByValue u l).
Proof.
  induction 1 as [ | v rest Hs IH Hall]; cbn.
  - repeat constructor.
  - destruct (Z.leb_spec (Value u) (Value v)) as [Hle | Hgt].
    + constructor; [now constructor | ].
      constructor; [exact Hle | ].
      eapply Forall_impl; [ | exact Hall].
      unfold value_le; intros; lia.
    + constructor; [exact IH | ].
      eapply Permutation_Forall; [apply insertByValue_perm | ].
      constructor; [unfold value_le; lia | exact Hall].
Qed.

Lemma insertionSort_sorted (l : list UTXO) :
  StronglySorted value_le (insertionSort l).
Proof.
  induction l as [ | u rest IH]; cbn; [constructor | ].
  now apply insertByValue_sorted.
Qed.

End InsertionSort.

Definition insertionSorter : ValueSorter :=
  mkValueSorter insertionSort insertionSort_perm insertionSort_sorted.

(* ================================================================== *)
(** * Properties *)
(* ================================================================== *)

Section Int64Facts.

Lemma wrap_small (x : Z) : I64.in_range x -> I64.wrap x = x.
Proof.
  unfold I64.in_range, I64.wrap, I64.min_int, I64.max_int. intros H.
  rewrite Z.mod_small; lia.
Qed.

Lemma add_small (a b : Z) : I64.in_range (a + b) -> I64.add a b = a + b.
Proof. apply wrap_small. Qed.

Lemma sub_small (a b : Z) : I64.in_range (a - b) -> I64.sub a b = a - b.
Proof. apply wrap_small. Qed.

Lemma mul_small (a b : Z) : I64.in_range (a * b) -> I64.mul a b = a * b.
Proof. apply wrap_small. Qed.

Lemma quot_small (a b : Z) :
  I64.in_range (Z.quot a b) -> I64.quot a b = Z.quot a b.
Proof. apply wrap_small. Qed.

Lemma len_zero_nil {A : Type} (l : list A) : len l = 0 <-> l = [].
Proof.
  unfold len. destruct l; cbn; split; intros H; try reflexivity;
    try discriminate; lia.
Qed.

End Int64Facts.

Ltac range_lia :=
  unfold I64.in_range, I64.min_int, I64.max_int in *; lia.

(** Removes the wrap-around of every operation whose exact result is seen
    to lie in the machine range, innermost operations first. *)
Ltac range_simpl :=
  repeat match goal with
    | |- context [I64.mul ?a ?b] => rewrite (mul_small a b) by range_lia
    | |- context [I64.add ?a ?b] => rewrite (add_small a b) by range_lia
    | |- context [I64.sub ?a ?b] => rewrite (sub_small a b) by range_lia
    end.

Ltac unfold_range :=
  unfold sizes_in_range, I64.in_range, I64.min_int, I64.max_int in *.

Section SizeEstimator.

Lemma quot4_nonneg (a : Z) :
  0 <= a <= I64.max_int -> I64.quot a 4 = a / 4.
Proof.
  intros H. rewrite quot_small; rewrite Z.quot_div_nonneg by lia; trivial.
  unfold_range. split.
  - apply Z.le_trans with 0; [lia | apply Z.div_pos; lia].
  - apply Z.le_trans with a; [ | lia].
    apply Z.div_le_upper_bound; lia.
Qed.

Lemma EstimateTxSize_exact (n m : Z) (t : AddressType) :
  sizes_in_range n m -> EstimateTxSize n m t = txSizeZ n m t.
Proof.
  intros H. unfold_range. destruct H as (Hn & Hm & Hb).
  destruct t; cbn [EstimateTxSize txSizeZ]; cbv zeta; range_simpl;
    try rewrite quot4_nonneg by (unfold_range; lia);
    try (f_equal; lia); reflexivity.
Qed.

Lemma txSizeZ_pos (n m : Z) (t : AddressType) :
  0 <= n -> 0 <= m -> 0 < txSizeZ n m t.
Proof.
  intros Hn Hm. destruct t; cbn [txSizeZ]; try lia.
  all: apply Z.div_str_pos; lia.
Qed.

Lemma txSizeZ_mono_outputs (n m m' : Z) (t : AddressType) :
  m <= m' -> txSizeZ n m t <= txSizeZ n m' t.
Proof.
  intros H. destruct t; cbn [txSizeZ]; try lia.
  all: apply Z.div_le_mono; lia.
Qed.

Lemma txSizeZ_mono_inputs (n n' m : Z) (t : AddressType) :
  n <= n' -> txSizeZ n m t <= txSizeZ n' m t.
Proof.
  intros H. destruct t; cbn [txSizeZ]; try lia.
  all: apply Z.div_le_mono; lia.
Qed.

Lemma sizes_in_range_outputs (n m m' : Z) :
  0 <= m <= m' -> sizes_in_range n m' -> sizes_in_range n m.
Proof. unfold sizes_in_range. lia. Qed.

End SizeEstimator.

(** C2 (as amended): for [n] inputs and [m] outputs whose size arithmetic
    stays in range, the segwit-v0 estimate is the rounded-DOWN quotient
    [(3*base + (base + witness)) / 4] with [base = 10 + 64 n + 31 m] and
    [witness = 107 n + 2], and the nested-segwit estimate is the same
    rounded-down quotient over the legacy base [10 + 148 n + 34 m]. *)
Theorem EstimateTxSize_witness_v0_floor (n m : Z) :
  sizes_in_range n m ->
  EstimateTxSize n m P2WPKH
  = (3 * (10 + 64 * n + 31 * m) + ((10 + 64 * n + 31 * m) + (107 * n + 2))) / 4
  /\
  EstimateTxSize n m P2SH
  = (3 * (10 + 148 * n + 34 * m) + ((10 + 148 * n + 34 * m) + (107 * n + 2))) / 4.
Proof.
  intros H. rewrite !EstimateTxSize_exact by assumption. cbn [txSizeZ].
  split; f_equal; lia.
Qed.

Lemma EstimateTxSize_witness_v0_floor_witness :
  sizes_in_range 2 3 /\
  EstimateTxSize 2 3 P2WPKH = 285 /\ EstimateTxSize 2 3 P2SH = 462.
Proof.
  assert (R : sizes_in_range 2 3) by (unfold sizes_in_range, I64.max_int; lia).
  split; [exact R | ].
  destruct (EstimateTxSize_witness_v0_floor 2 3 R) as [-> ->].
  split; reflexivity.
Defined.

(** C2 as stated fails already for one input and one output: the code
    rounds down (132, where the rounded-up quotient is 133), and the
    nested-segwit branch uses the 148/34 base constants (219). *)
Lemma EstimateTxSize_spec_vsize_counterexample :
  spec_segwit_vsize 1 1 = 133 /\
  EstimateTxSize 1 1 P2WPKH = 132 /\
  EstimateTxSize 1 1 P2SH = 219 /\
  EstimateTxSize 1 1 P2WPKH <> spec_segwit_vsize 1 1 /\
  EstimateTxSize 1 1 P2SH <> spec_segwit_vsize 1 1.
Proof. repeat split; try reflexivity; vm_compute; discriminate. Qed.

Section FeeChangeSolver.

Variable w : BitcoinWallet.

(** The fee-rate floor: a configured rate [<= 0] counts as 1. *)
Lemma estimateFee_exact (n m : Z) (t : AddressType) :
  sizes_in_range n m ->
  txSizeZ n m t * Z.max 1 (feeRate w) <= I64.max_int ->
  estimateFee w n m t = txSizeZ n m t * Z.max 1 (feeRate w).
Proof.
  intros Hs Hf. unfold estimateFee. cbv zeta.
  rewrite (EstimateTxSize_exact _ _ _ Hs).
  assert (Hp : 0 < txSizeZ n m t)
    by (apply txSizeZ_pos; unfold sizes_in_range in Hs; lia).
  destruct (Z.leb_spec (txSizeZ n m t) 0) as [Hle | _]; [lia | ].
  assert (Hr : (if feeRate w <=? 0 then 1 else feeRate w) = Z.max 1 (feeRate w))
    by (destruct (Z.leb_spec (feeRate w) 0); lia).
  rewrite Hr. apply mul_small. unfold_range. nia.
Qed.

Lemma fee_le_more_outputs (n m m' : Z) (t : AddressType) :
  m <= m' ->
  txSizeZ n m t * Z.max 1 (feeRate w) <= txSizeZ n m' t * Z.max 1 (feeRate w).
Proof.
  intros H. apply Z.mul_le_mono_nonneg_r; [lia | ].
  now apply txSizeZ_mono_outputs.
Qed.

End FeeChangeSolver.

(** Inside the machine range the solver is the three-way case analysis of
    the specification, over exact integers. *)
Lemma computeFeeAndChange_in_range
    (w : BitcoinWallet) (t : AddressType) (R k : Z) (utxos : list UTXO) (V : Z) :
  0 <= V <= I64.max_int ->
  0 < R ->
  0 <= k ->
  utxos <> [] ->
  sizes_in_range (len utxos) (k + 1) ->
  R + txSizeZ (len utxos) (k + 1) t * Z.max 1 (feeRate w) <= I64.max_int ->
  let f0 := txSizeZ (len utxos) k t * Z.max 1 (feeRate w) in
  let f1 := txSizeZ (len utxos) (k + 1) t * Z.max 1 (feeRate w) in
  0 < f0 <= f1 /\
  computeFeeAndChange w t R k utxos V =
    if V - R - f0 <? 0 then (f0, V - R - f0)
    else if V - R - f1 >? dustThreshold then (f1, V - R - f1)
    else (V - R, 0).
Proof.
  intros HV HR Hk Hne Hs Hb f0 f1.
  assert (Hs0 : sizes_in_range (len utxos) k)
    by (apply sizes_in_range_outputs with (k + 1); [lia | assumption]).
  pose proof (fee_le_more_outputs w (len utxos) k (k + 1) t ltac:(lia)) as Hmono.
  assert (Hp0 : 0 < txSizeZ (len utxos) k t)
    by (apply txSizeZ_pos; unfold sizes_in_range in Hs; lia).
  assert (Hf0 : 0 < f0) by (subst f0; nia).
  fold f0 f1 in Hmono. fold f1 in Hb.
  split; [lia | ].
  unfold computeFeeAndChange. cbv zeta.
  assert (Hk1 : I64.add k 1 = k + 1)
    by (apply add_small; unfold_range; lia).
  rewrite Hk1.
  rewrite (estimateFee_exact w _ _ t Hs0) by (unfold I64.max_int in *; lia).
  rewrite (estimateFee_exact w _ _ t Hs) by (unfold I64.max_int in *; lia).
  fold f0 f1.
  assert (HVR : I64.sub V R = V - R) by (apply sub_small; unfold_range; lia).
  rewrite HVR.
  assert (H0 : I64.sub (V - R) f0 = V - R - f0)
    by (apply sub_small; unfold_range; lia).
  assert (H1 : I64.sub (V - R) f1 = V - R - f1)
    by (apply sub_small; unfold_range; lia).
  rewrite H0, H1.
  destruct (Z.eqb_spec (len utxos) 0) as [E | NE];
    [apply len_zero_nil in E; contradiction | ].
  destruct (Z.ltb_spec (V - R - f0) 0) as [L0 | G0]; [reflexivity | ].
  destruct (Z.gtb_spec (V - R - f1) dustThreshold) as [G1 | L1]; [reflexivity | ].
  destruct (Z.ltb_spec (V - R) 0) as [L2 | G2]; [lia | reflexivity].
Qed.

(** C1 (as amended): when the selection's value, the requested total and
    the fee for one more output stay inside the signed 64-bit range
    ([0 <= V], [0 < R], [R + size(n, k+1) * max(rate, 1) <= 2^63 - 1]), a
    returned change [>= 0] satisfies [V = R + fee + change] exactly, and the
    change is either 0 with [fee = V - R] or strictly above the dust
    threshold 546. *)
Theorem computeFeeAndChange_balanced
    (w : BitcoinWallet) (t : AddressType) (R k : Z) (utxos : list UTXO) (V : Z)
    (fee change : Z) :
  0 <= V <= I64.max_int ->
  0 < R ->
  0 <= k ->
  sizes_in_range (len utxos) (k + 1) ->
  R + EstimateTxSize (len utxos) (k + 1) t * Z.max 1 (feeRate w) <= I64.max_int ->
  computeFeeAndChange w t R k utxos V = (fee, change) ->
  0 <= change ->
  V = R + fee + change /\
  ((change = 0 /\ fee = V - R) \/ dustThreshold < change).
Proof.
  intros HV HR Hk Hs Hb Hc Hch.
  rewrite (EstimateTxSize_exact _ _ _ Hs) in Hb.
  assert (HRmax : R <= I64.max_int).
  { pose proof (txSizeZ_pos (len utxos) (k + 1) t) as Hp.
    unfold sizes_in_range in Hs. nia. }
  destruct utxos as [ | u rest].
  - unfold computeFeeAndChange in Hc.
    change (len (@nil UTXO) =? 0) with true in Hc. cbv iota in Hc.
    unfold I64.neg in Hc.
    rewrite wrap_small in Hc by (unfold_range; lia).
    inversion Hc; subst. lia.
  - destruct (computeFeeAndChange_in_range w t R k (u :: rest) V HV HR Hk
                ltac:(discriminate) Hs Hb) as [Hf Heq].
    rewrite Heq in Hc. clear Heq.
    destruct (Z.ltb_spec (V - R - txSizeZ (len (u :: rest)) k t
                                  * Z.max 1 (feeRate w)) 0) as [L0 | G0].
    + inversion Hc; subst. lia.
    + destruct (Z.gtb_spec (V - R - txSizeZ (len (u :: rest)) (k + 1) t
                                    * Z.max 1 (feeRate w)) dustThreshold)
        as [G1 | L1].
      * inversion Hc; subst. split; [lia | right; lia].
      * inversion Hc; subst. split; [lia | left; lia].
Qed.

Lemma computeFeeAndChange_balanced_witness :
  let w := walletWithRate 1 in
  let coins := [mkUTXO "00" 0 3000] in
  computeFeeAndChange w P2WPKH 1500 1 coins 3000 = (163, 1337) /\
  3000 = 1500 + 163 + 1337 /\
  ((1337 = 0 /\ 163 = 3000 - 1500) \/ dustThreshold < 1337).
Proof.
  intros w coins. split; [reflexivity | ].
  apply (computeFeeAndChange_balanced w P2WPKH 1500 1 coins 3000 163 1337).
  - unfold I64.max_int; lia.
  - lia.
  - lia.
  - unfold sizes_in_range, I64.max_int; cbn; lia.
  - vm_compute; discriminate.
  - reflexivity.
  - lia.
Defined.

(** C1 as stated fails where the 64-bit arithmetic wraps.  With the default
    rate 1, a coin of 100 and a requested total of [2^63 - 10] the solver
    answers fee 226 and a positive change of [2^63 - 116], which do not add
    up to the coin value; with a rate whose product with the size wraps to a
    negative fee it answers a change of 2, inside the dust band. *)
Lemma computeFeeAndChange_wrap_counterexample :
  (computeFeeAndChange (walletWithRate 1) P2PKH (2 ^ 63 - 10) 1
     [mkUTXO "00" 0 100] 100 = (226, 2 ^ 63 - 116)
   /\ 0 <= 2 ^ 63 - 116
   /\ 100 <> (2 ^ 63 - 10) + 226 + (2 ^ 63 - 116))
  /\
  (computeFeeAndChange (walletWithRate 4570874637733340219) P2PKH 2000 1
     [mkUTXO "00" 0 1000] 1000 = (-1002, 2)
   /\ 0 < 2 <= dustThreshold).
Proof.
  split; (split; [vm_compute; reflexivity | ]).
  - split; [vm_compute; discriminate | lia].
  - unfold dustThreshold; lia.
Qed.


Section CoinSelector.

Variable S : ValueSorter.

Lemma sumValues_perm (a b : list UTXO) :
  Permutation a b -> sumValues a = sumValues b.
Proof. induction 1; cbn in *; lia. Qed.

Lemma sumValues_nonneg (l : list UTXO) :
  Forall (fun u => 0 <= Value u) l -> 0 <= sumValues l.
Proof. induction 1; cbn in *; lia. Qed.

Lemma sumValues_sorted (l : list UTXO) :
  sumValues (sortSlice S l) = sumValues l.
Proof. symmetry. apply sumValues_perm, sortSlice_perm. Qed.

(** The loop seen from an arbitrary iteration: [total] is the value
    accumulated so far and [rest] the coins not yet visited. *)
Lemma selectLoop_in_range (amount : Z) (rest : list UTXO) :
  forall (selected : list UTXO) (total : Z),
    Forall (fun u => 0 <= Value u) rest ->
    0 <= total ->
    total + sumValues rest <= I64.max_int ->
    (forall sel t,
        selectLoop rest selected total amount = Ok (sel, t) ->
        exists k : nat,
          (0 < k <= List.length rest)%nat /\
          sel = selected ++ firstn k rest /\
          t = total + sumValues (firstn k rest) /\
          amount <= t /\
          (forall j : nat, (0 < j < k)%nat ->
             total + sumValues (firstn j rest) < amount))
    /\
    ((exists e, selectLoop rest selected total amount = Err e) <->
     (rest = [] \/ total + sumValues rest < amount)).
Proof.
  induction rest as [ | u rest IH]; intros selected total Hnn Ht Hb.
  - split.
    + intros sel t H; discriminate H.
    + split; [now left | cbn; eauto].
  - inversion Hnn as [ | ? ? Hu Hrest]; subst.
    pose proof (sumValues_nonneg rest Hrest) as Hsr.
    cbn [sumValues] in Hb.
    cbn [selectLoop]. cbv zeta.
    rewrite add_small by (unfold_range; lia).
    destruct (Z.geb_spec (total + Value u) amount) as [Hge | Hlt].
    + split.
      * intros sel t H. inversion H; subst. exists 1%nat. cbn.
        repeat split; try lia.
      * split.
        -- intros [e H]; discriminate H.
        -- intros [H | H]; [discriminate H | ].
           cbn [sumValues] in H. lia.
    + destruct (IH (selected ++ [u]) (total + Value u) Hrest) as [IH1 IH2];
        [lia | lia | ].
      split.
      * intros sel t H. destruct (IH1 sel t H) as (k & Hk & Hsel & Htot & Hamt & Hfirst).
        exists (Datatypes.S k). cbn [firstn sumValues List.length].
        repeat split; try lia.
        -- rewrite Hsel, <- app_assoc. reflexivity.
        -- intros j Hj. destruct j as [ | j]; [lia | ].
           cbn [firstn sumValues].
           destruct j as [ | j].
           ++ cbn. lia.
           ++ specialize (Hfirst (Datatypes.S j) ltac:(lia)). lia.
      * rewrite IH2. cbn [sumValues].
        split.
        -- intros [-> | H]; right; cbn in *; lia.
        -- intros [H | H]; [discriminate H | right; lia].
Qed.

End CoinSelector.

(** C3 (as amended): for coins of non-negative value whose sum fits the
    signed 64-bit range, a successful selection is a non-empty prefix of the
    ascending-sorted coin list that stops at the first coin where the
    running total reaches the target, its total is the sum of the selected
    coins and is at least the target; and the selection fails exactly when
    the coin list is empty or the sum of all coins is below the target. *)
Theorem SelectUTXOs_greedy_prefix
    (S : ValueSorter) (utxos : list UTXO) (amount : Z) :
  Forall (fun u => 0 <= Value u) utxos ->
  sumValues utxos <= I64.max_int ->
  (forall sel total,
      SelectUTXOs S utxos amount = Ok (sel, total) ->
      StronglySorted value_le (sortSlice S utxos) /\
      Permutation utxos (sortSlice S utxos) /\
      exists k : nat,
        (0 < k <= List.length utxos)%nat /\
        sel = firstn k (sortSlice S utxos) /\
        total = sumValues sel /\
        amount <= total /\
        (forall j : nat, (0 < j < k)%nat ->
           sumValues (firstn j (sortSlice S utxos)) < amount))
  /\
  ((exists e, SelectUTXOs S utxos amount = Err e) <->
   (utxos = [] \/ sumValues utxos < amount)).
Proof.
  intros Hnn Hb.
  pose proof (sortSlice_perm S utxos) as Hperm.
  assert (Hnn' : Forall (fun u => 0 <= Value u) (sortSlice S utxos))
    by (eapply Permutation_Forall; eassumption).
  destruct (selectLoop_in_range amount (sortSlice S utxos) [] 0 Hnn'
              ltac:(lia) ltac:(rewrite sumValues_sorted; lia)) as [H1 H2].
  unfold SelectUTXOs.
  destruct (Z.eqb_spec (len utxos) 0) as [E | NE].
  - apply len_zero_nil in E. subst utxos. split.
    + intros sel total H; discriminate H.
    + split; [now left | eauto].
  - split.
    + intros sel total H. split; [apply sortSlice_sorted | ].
      split; [exact Hperm | ].
      destruct (H1 sel total H) as (k & Hk & Hsel & Htot & Hamt & Hfirst).
      exists k. rewrite <- (Permutation_length Hperm) in Hk.
      cbn in Hsel. subst sel.
      repeat split; try lia. exact Hfirst.
    + rewrite H2, sumValues_sorted. split.
      * intros [H | H]; [ | right; lia].
        exfalso. apply NE. apply len_zero_nil.
        apply Permutation_sym in Hperm. rewrite H in Hperm.
        now apply Permutation_nil in Hperm.
      * intros [H | H]; [ | right; lia].
        exfalso. apply NE. now apply len_zero_nil.
Qed.

Lemma SelectUTXOs_greedy_prefix_witness :
  let a := mkUTXO "aa" 0 700 in
  let b := mkUTXO "bb" 1 300 in
  let c := mkUTXO "cc" 0 5000 in
  SelectUTXOs insertionSorter [a; b; c] 900 = Ok ([b; a], 1000) /\
  ((exists e, SelectUTXOs insertionSorter [a; b; c] 7000 = Err e) <->
   ([a; b; c] = [] \/ sumValues [a; b; c] < 7000)).
Proof.
  intros a b c. split; [reflexivity | ].
  refine (proj2 (SelectUTXOs_greedy_prefix insertionSorter [a; b; c] 7000 _ _)).
  - repeat constructor; cbn; lia.
  - vm_compute; discriminate.
Defined.

(** C3 as stated fails outside that domain.  Two coins of [2^62] sum to
    [2^63], above the target [2^62 + 1], yet the running total wraps and the
    selection fails; two coins of value [-1] sum to [-2], below the target
    [-1], yet the first coin alone is returned. *)
Lemma SelectUTXOs_sum_counterexample :
  let big := mkUTXO "aa" 0 (2 ^ 62) in
  let neg := mkUTXO "bb" 0 (-1) in
  (SelectUTXOs insertionSorter [big; big] (2 ^ 62 + 1)
     = Err (ErrInsufficientFunds (2 ^ 62 + 1) (- 2 ^ 63))
   /\ [big; big] <> []
   /\ ~ sumValues [big; big] < 2 ^ 62 + 1)
  /\
  (SelectUTXOs insertionSorter [neg; neg] (-1) = Ok ([neg], -1)
   /\ sumValues [neg; neg] < -1).
Proof.
  intros big neg. split; split; try (vm_compute; reflexivity).
  - split; [discriminate | vm_compute; discriminate].
Qed.

Section OutputResolver.

Variable L : Collaborators.
Variable w : BitcoinWallet.

Lemma wrap_high (x : Z) :
  I64.max_int < x < 2 ^ 64 -> I64.wrap x = x - 2 ^ 64.
Proof.
  unfold I64.wrap, I64.max_int. intros H.
  replace (x + 2 ^ 63) with (x - 2 ^ 63 + 1 * 2 ^ 64) by lia.
  rewrite Z.mod_add by lia. rewrite Z.mod_small; lia.
Qed.

Lemma entry_bad_not_ok (o : PaymentOutput) :
  entry_bad L w o <-> ~ entry_ok L w o.
Proof.
  unfold entry_bad, entry_ok, dustThreshold.
  destruct (address_resolves L w (Address o)); split.
  - intros [H | [H | H]] [H1 H2]; try discriminate; lia.
  - intros H. destruct (Z.lt_ge_cases (Amount o) 546); [auto | ].
    exfalso. apply H. split; [lia | reflexivity].
  - intros _ [_ H]; discriminate.
  - auto.
Qed.

Lemma entry_rejected_bad (i : Z) (o : PaymentOutput) (e : error) :
  entry_rejected L w i o e -> entry_bad L w o /\ error_index e = Some i.
Proof.
  unfold entry_rejected, entry_bad, address_resolves.
  intros [[H ->] | [[H (c & Hc & ->)] | [[H (a & Ha & Hs & ->)] | [H [Hr ->]]]]];
    split; try reflexivity.
  - now left.
  - right; left. now rewrite Hc.
  - right; left. now rewrite Ha, Hs.
  - right; right. lia.
Qed.

Lemma sumAmounts_app (a b : list PaymentOutput) :
  sumAmounts (a ++ b) = sumAmounts a + sumAmounts b.
Proof. induction a as [ | o a IH]; cbn [sumAmounts app]; lia. Qed.

Lemma sumAmounts_ok_nonneg (l : list PaymentOutput) :
  Forall (entry_ok L w) l -> 0 <= sumAmounts l.
Proof.
  induction 1 as [ | o l [Ho _] _ IH]; cbn [sumAmounts];
    unfold dustThreshold in *; lia.
Qed.

(** The loop seen from an arbitrary iteration. *)
Lemma resolveLoop_spec (outputs : list PaymentOutput) :
  forall (idx : Z) (resolved : list (resolvedOutput L)) (total : Z),
    Forall (fun o => I64.in_range (Amount o)) outputs ->
    0 <= total <= I64.max_int ->
    match resolveLoop L w outputs idx resolved total with
    | Ok (res, t) =>
        Forall (entry_ok L w) outputs /\
        t = total + sumAmounts outputs /\ t <= I64.max_int /\
        exists fresh, res = resolved ++ fresh /\
                      Forall2 (entry_resolves L w) outputs fresh
    | Err e =>
        exists pre o post,
          outputs = pre ++ o :: post /\
          Forall (entry_ok L w) pre /\
          total + sumAmounts pre <= I64.max_int /\
          (entry_rejected L w (idx + len pre) o e
           \/ (entry_ok L w o /\
               I64.max_int < total + sumAmounts pre + Amount o /\
               e = ErrAmountOverflow))
    end.
Proof.
  induction outputs as [ | o rest IH]; intros idx resolved total Hr Ht.
  - cbn [resolveLoop sumAmounts].
    split; [constructor | ]. split; [lia | ]. split; [lia | ].
    exists []. rewrite app_nil_r. split; [reflexivity | constructor].
  - inversion Hr as [ | ? ? Ho Hrest]; subst.
    assert (Hhere : forall e, entry_rejected L w idx o e ->
              exists pre o' post, o :: rest = pre ++ o' :: post /\
                Forall (entry_ok L w) pre /\
                total + sumAmounts pre <= I64.max_int /\
                (entry_rejected L w (idx + len pre) o' e
                 \/ (entry_ok L w o' /\
                     I64.max_int < total + sumAmounts pre + Amount o' /\
                     e = ErrAmountOverflow))).
    { intros e He. exists [], o, rest. cbn [app sumAmounts].
      split; [reflexivity | ]. split; [constructor | ]. split; [lia | ].
      left. replace (idx + len []) with idx by (unfold len; cbn; lia).
      exact He. }
    cbn [resolveLoop]. cbv zeta.
    destruct (Z.leb_spec (Amount o) 0) as [Hnp | Hpos].
    { apply Hhere. left. auto. }
    destruct (decodeAndValidateAddress L w (Address o)) as [a | c] eqn:Ed.
    2:{ apply Hhere. right; left. split; [lia | ]. eauto. }
    destruct (payToAddrScript L a) as [sc | ] eqn:Es.
    2:{ apply Hhere. right; right; left. split; [lia | ]. eauto. }
    assert (Hres : address_resolves L w (Address o) = true)
      by (unfold address_resolves; now rewrite Ed, Es).
    destruct (Z.ltb_spec (Amount o) dustThreshold) as [Hd | Hd].
    { apply Hhere. right; right; right. repeat split; auto; lia. }
    assert (Hok : entry_ok L w o) by (split; assumption).
    unfold I64.add. unfold I64.in_range, I64.min_int, I64.max_int in Ho.
    destruct (Z.le_gt_cases (total + Amount o) I64.max_int) as [Hin | Hover].
    + rewrite wrap_small by (unfold_range; unfold dustThreshold in *; lia).
      destruct (Z.ltb_spec (total + Amount o) 0) as [Hneg | _];
        [unfold dustThreshold in *; lia | ].
      specialize (IH (idx + 1)
                    (resolved ++ [mkResolvedOutput a sc (Amount o)])
                    (total + Amount o) Hrest
                    ltac:(unfold dustThreshold in *; lia)).
      destruct (resolveLoop L w rest (idx + 1) _ (total + Amount o))
        as [[res t] | e].
      * destruct IH as (Hall & Hsum & Hle & fresh & Hfresh & Hf2).
        cbn [sumAmounts]. split; [ | split; [lia | split; [lia | ]]].
        -- now constructor.
        -- exists (mkResolvedOutput a sc (Amount o) :: fresh). split.
           ++ rewrite Hfresh, <- app_assoc. reflexivity.
           ++ constructor; [ | exact Hf2]. now repeat split.
      * destruct IH as (pre & o' & post & Heq & Hpre & Hsum & Hcase).
        exists (o :: pre), o', post. cbn [app sumAmounts].
        split; [ | split; [ | split]].
        -- now rewrite Heq.
        -- now constructor.
        -- lia.
        -- replace (idx + len (o :: pre)) with (idx + 1 + len pre)
             by (unfold len; cbn [List.length]; lia).
           destruct Hcase as [Hc | (Hc1 & Hc2 & Hc3)]; [now left | right].
           split; [assumption | ]. split; [lia | assumption].
    + rewrite wrap_high by (unfold I64.max_int in *; lia).
      destruct (Z.ltb_spec (total + Amount o - 2 ^ 64) 0) as [_ | Hge];
        [ | unfold I64.max_int in *; lia].
      exists [], o, rest. cbn [app sumAmounts].
      split; [reflexivity | ]. split; [constructor | ]. split; [lia | ].
      right. split; [assumption | ]. split; [lia | reflexivity].
Qed.

End OutputResolver.

Section OutputResolverTotal.

Variable L : Collaborators.
Variable w : BitcoinWallet.

Lemma entries_ok_or_bad (l : list PaymentOutput) :
  Forall (entry_ok L w) l \/ Exists (entry_bad L w) l.
Proof.
  induction l as [ | o l [IH | IH]].
  - left; constructor.
  - destruct (Z.lt_ge_cases (Amount o) dustThreshold) as [Hd | Hd].
    + right. constructor. right; right. exact Hd.
    + destruct (address_resolves L w (Address o)) eqn:Ea.
      * left. constructor; [split; [lia | exact Ea] | exact IH].
      * right. constructor. right; left. exact Ea.
  - right. now constructor 2.
Qed.

Lemma entries_ok_not_bad (l : list PaymentOutput) :
  Forall (entry_ok L w) l -> Exists (entry_bad L w) l -> False.
Proof.
  intros Hok Hbad. apply Exists_exists in Hbad. destruct Hbad as (o & Hin & Hb).
  rewrite Forall_forall in Hok. apply entry_bad_not_ok in Hb. auto.
Qed.

End OutputResolverTotal.

(** C5 (as amended): [resolvePaymentOutputs] fails exactly when the list is
    empty, some entry is offending (non-positive amount, address that is
    malformed, of another network or without locking script, amount below
    546), or the sum of the amounts exceeds the signed 64-bit range.  A
    failure on an entry's own checks carries the index of the first
    offending entry; the overflow error, raised at the first entry whose
    running sum leaves the range, carries no index (nor does the empty-list
    error).  On success the resolved outputs follow the requests in order
    and the total is the exact sum. *)
Theorem resolvePaymentOutputs_first_violation
    (L : Collaborators) (w : BitcoinWallet) (outputs : list PaymentOutput) :
  Forall (fun o => I64.in_range (Amount o)) outputs ->
  ((exists e, resolvePaymentOutputs L w outputs = Err e) <->
   (outputs = [] \/ Exists (entry_bad L w) outputs \/
    I64.max_int < sumAmounts outputs))
  /\
  (forall e, resolvePaymentOutputs L w outputs = Err e ->
     (outputs = [] /\ e = ErrNoOutputs) \/
     exists pre o post,
       outputs = pre ++ o :: post /\
       Forall (entry_ok L w) pre /\
       sumAmounts pre <= I64.max_int /\
       ((entry_rejected L w (len pre) o e /\ error_index e = Some (len pre))
        \/ (entry_ok L w o /\
            I64.max_int < sumAmounts pre + Amount o /\
            e = ErrAmountOverflow /\ error_index e = None)))
  /\
  (forall res total, resolvePaymentOutputs L w outputs = Ok (res, total) ->
     Forall2 (entry_resolves L w) outputs res /\
     total = sumAmounts outputs /\
     total <= I64.max_int).
Proof.
  intros Hr. unfold resolvePaymentOutputs.
  destruct (Z.eqb_spec (len outputs) 0) as [E | NE].
  { apply len_zero_nil in E. subst outputs. split; [ | split].
    - split; [now left | eauto].
    - intros e H. inversion H. now left.
    - intros res total H; discriminate H. }
  assert (Hne : outputs <> []) by (intros ->; apply NE; reflexivity).
  pose proof (resolveLoop_spec L w outputs 0 [] 0 Hr
                ltac:(unfold I64.max_int; lia)) as Hloop.
  destruct (resolveLoop L w outputs 0 [] 0) as [[res t] | e].
  - destruct Hloop as (Hall & Hsum & Hle & fresh & Hfresh & Hf2).
    cbn [app] in Hfresh. subst fresh. split; [ | split].
    + split.
      * intros [e H]; discriminate H.
      * intros [H | [H | H]].
        -- contradiction.
        -- exfalso. eapply entries_ok_not_bad; eassumption.
        -- lia.
    + intros e H; discriminate H.
    + intros res' total H. inversion H; subst. repeat split; try assumption; lia.
  - destruct Hloop as (pre & o & post & Heq & Hpre & Hsum & Hcase).
    replace (0 + len pre) with (len pre) in Hcase by lia.
    cbn [Z.add] in Hsum. split; [ | split].
    + split; [ | eauto]. intros _. right.
      destruct Hcase as [Hrej | (Hok & Hover & _)].
      * left. subst outputs. apply Exists_app. right. constructor.
        now apply (entry_rejected_bad L w (len pre) o e).
      * destruct (entries_ok_or_bad L w post) as [Hpost | Hpost].
        -- right. subst outputs. rewrite sumAmounts_app. cbn [sumAmounts].
           pose proof (sumAmounts_ok_nonneg L w post Hpost). lia.
        -- left. subst outputs. apply Exists_app. right. now constructor 2.
    + intros e' H. inversion H; subst e'. right.
      exists pre, o, post. split; [exact Heq | ]. split; [exact Hpre | ].
      split; [lia | ].
      destruct Hcase as [Hrej | (Hok & Hover & ->)].
      * left. split; [exact Hrej | ].
        now apply (entry_rejected_bad L w (len pre) o e).
      * right. split; [exact Hok | ]. split; [lia | ]. now split.
    + intros res total H; discriminate H.
Qed.

Lemma resolvePaymentOutputs_first_violation_witness :
  let w := walletWithRate 1 in
  let outs := [mkPaymentOutput "tb1q-a" 1500; mkPaymentOutput "tb1q-b" 100;
               mkPaymentOutput "tb1q-c" 200] in
  resolvePaymentOutputs testLib w outs = Err (ErrBelowDust 1 dustThreshold) /\
  ((exists e, resolvePaymentOutputs testLib w outs = Err e) <->
   (outs = [] \/ Exists (entry_bad testLib w) outs \/
    I64.max_int < sumAmounts outs)).
Proof.
  intros w outs. split; [reflexivity | ].
  refine (proj1 (resolvePaymentOutputs_first_violation testLib w outs _)).
  repeat constructor; vm_compute; discriminate.
Defined.

(** C5 as stated fails on the overflow error: two valid requests of [2^62]
    are rejected at the second entry, and the error names no index. *)
Lemma resolvePaymentOutputs_overflow_counterexample :
  let w := walletWithRate 1 in
  let outs := [mkPaymentOutput "tb1q-a" (2 ^ 62);
               mkPaymentOutput "tb1q-b" (2 ^ 62)] in
  resolvePaymentOutputs testLib w outs = Err ErrAmountOverflow /\
  error_index ErrAmountOverflow = None.
Proof. split; reflexivity. Qed.

Section ReselectionLoop.

Variable S : ValueSorter.
Variable w : BitcoinWallet.
Variable t : AddressType.
Variables R k : Z.
Variable utxos : list UTXO.

Hypothesis coins_nonempty : utxos <> [].
Hypothesis coins_nonneg : Forall (fun u => 0 <= Value u) utxos.
Hypothesis coins_in_range : sumValues utxos <= I64.max_int.
Hypothesis R_pos : 0 < R.
Hypothesis k_nonneg : 0 <= k.
Hypothesis size_ok : sizes_in_range (len utxos) (k + 1).
Hypothesis fee_ok :
  R + txSizeZ (len utxos) (k + 1) t * Z.max 1 (feeRate w) <= I64.max_int.

Lemma prefix_sum_mono (l : list UTXO) :
  Forall (fun u => 0 <= Value u) l ->
  forall i j : nat, (i <= j)%nat ->
    0 <= sumValues (firstn i l) <= sumValues (firstn j l) /\
    sumValues (firstn j l) <= sumValues l.
Proof.
  induction 1 as [ | u l Hu Hl IH]; intros i j Hij.
  - rewrite !firstn_nil. cbn. lia.
  - destruct j as [ | j].
    + assert (i = 0)%nat by lia. subst i. cbn [firstn sumValues].
      pose proof (sumValues_nonneg l Hl). lia.
    + destruct i as [ | i]; cbn [firstn sumValues].
      * destruct (IH 0%nat j ltac:(lia)) as [H1 H2].
        cbn [firstn sumValues] in H1. lia.
      * destruct (IH i j ltac:(lia)) as [H1 H2]. lia.
Qed.

Lemma selectLoop_error_kind (amount : Z) (rest : list UTXO) :
  forall selected total e,
    selectLoop rest selected total amount = Err e ->
    exists available, e = ErrInsufficientFunds amount available.
Proof.
  induction rest as [ | u rest IH]; intros selected total e H.
  - inversion H. eauto.
  - cbn [selectLoop] in H. cbv zeta in H.
    destruct (I64.add total (Value u) >=? amount); [discriminate H | eauto].
Qed.

Lemma SelectUTXOs_in_range (a : Z) :
  match SelectUTXOs S utxos a with
  | Ok (sel, V) =>
      exists j : nat,
        (0 < j <= List.length utxos)%nat /\
        sel = firstn j (sortSlice S utxos) /\
        V = sumValues sel /\ a <= V
  | Err e => exists available, e = ErrInsufficientFunds a available
  end.
Proof.
  pose proof (sortSlice_perm S utxos) as Hperm.
  unfold SelectUTXOs.
  destruct (Z.eqb_spec (len utxos) 0) as [E | _];
    [apply len_zero_nil in E; contradiction | ].
  assert (Hnn' : Forall (fun u => 0 <= Value u) (sortSlice S utxos))
    by (eapply Permutation_Forall; eassumption).
  destruct (selectLoop_in_range a (sortSlice S utxos) [] 0 Hnn'
              ltac:(lia) ltac:(rewrite sumValues_sorted; lia)) as [H1 _].
  destruct (selectLoop (sortSlice S utxos) [] 0 a) as [[sel V] | e] eqn:E.
  - destruct (H1 sel V eq_refl) as (j & Hj & Hsel & HV & Ha & _).
    exists j. rewrite <- (Permutation_length Hperm) in Hj.
    cbn [app] in Hsel. subst sel. repeat split; try lia.
  - eapply selectLoop_error_kind. exact E.
Qed.

(** One round on the first [j] sorted coins: either the loop leaves with a
    change that is not negative, or the next target exceeds their value. *)
Lemma round_on_prefix (j : nat) :
  (0 < j <= List.length utxos)%nat ->
  let sel := firstn j (sortSlice S utxos) in
  let V := sumValues sel in
  (exists fee change,
      computeFeeAndChange w t R k sel V = (fee, change) /\ 0 <= change)
  \/
  (exists fee change,
      computeFeeAndChange w t R k sel V = (fee, change) /\ change < 0 /\
      V < I64.add R fee).
Proof.
  intros Hj sel V.
  pose proof (sortSlice_perm S utxos) as Hperm.
  assert (Hnn' : Forall (fun u => 0 <= Value u) (sortSlice S utxos))
    by (eapply Permutation_Forall; eassumption).
  assert (Hlen : List.length sel = j).
  { subst sel. rewrite length_firstn, <- (Permutation_length Hperm). lia. }
  assert (Hlz : len sel = Z.of_nat j) by (unfold len; now rewrite Hlen).
  assert (Hne : sel <> []) by (intros E; rewrite E in Hlen; cbn in Hlen; lia).
  destruct (prefix_sum_mono _ Hnn' 0%nat j ltac:(lia)) as [[_ HV0] HV1].
  cbn [firstn sumValues] in HV0. fold sel in HV0, HV1. fold V in HV0, HV1.
  rewrite sumValues_sorted in HV1.
  assert (Hjn : Z.of_nat j <= len utxos) by (unfold len; lia).
  assert (Hs : sizes_in_range (len sel) (k + 1))
    by (rewrite Hlz; unfold sizes_in_range in *; lia).
  pose proof (txSizeZ_mono_inputs (len sel) (len utxos) (k + 1) t
                ltac:(lia)) as Hmono.
  assert (Hb : R + txSizeZ (len sel) (k + 1) t * Z.max 1 (feeRate w)
               <= I64.max_int) by nia.
  destruct (computeFeeAndChange_in_range w t R k sel V ltac:(lia) R_pos
              k_nonneg Hne Hs Hb) as [Hf Heq].
  rewrite Heq. clear Heq.
  set (f0 := txSizeZ (len sel) k t * Z.max 1 (feeRate w)) in *.
  set (f1 := txSizeZ (len sel) (k + 1) t * Z.max 1 (feeRate w)) in *.
  destruct (Z.ltb_spec (V - R - f0) 0) as [L0 | G0].
  - right. exists f0, (V - R - f0). split; [reflexivity | ]. split; [lia | ].
    rewrite add_small by (unfold_range; lia). lia.
  - left. destruct (Z.gtb_spec (V - R - f1) dustThreshold) as [G1 | L1].
    + exists f1, (V - R - f1). split; [reflexivity | ].
      unfold dustThreshold in G1. lia.
    + exists (V - R), 0. split; [reflexivity | lia].
Qed.

(** After a round that selected the first [m] sorted coins and found them
    insufficient, every later round selects more than [m] coins; the loop
    therefore leaves within [length utxos - m + 1] further rounds. *)
Lemma sendManyLoop_leaves_from (d : nat) :
  forall (m : nat) (a : Z),
    (List.length utxos - m <= d)%nat ->
    (forall i : nat, (0 < i <= m)%nat ->
       sumValues (firstn i (sortSlice S utxos)) < a) ->
    exists r,
      sendManyLoop S w t R k utxos (Datatypes.S d) a = Some r /\ loop_exit r.
Proof.
  pose proof (sortSlice_perm S utxos) as Hperm.
  assert (Hnn' : Forall (fun u => 0 <= Value u) (sortSlice S utxos))
    by (eapply Permutation_Forall; eassumption).
  induction d as [ | d IH]; intros m a Hm Hlow.
  all: cbn [sendManyLoop].
  all: pose proof (SelectUTXOs_in_range a) as Hsel.
  all: destruct (SelectUTXOs S utxos a) as [[sel V] | e].
  all: try (destruct Hsel as [av ->]; eexists; split;
            [reflexivity | cbn; eauto]; fail).
  all: destruct Hsel as (j & Hj & -> & -> & Ha).
  all: assert (Hjm : (m < j)%nat)
         by (destruct (Nat.lt_ge_cases m j) as [ | Hge]; [assumption | ];
             specialize (Hlow j ltac:(lia)); lia).
  - lia.
  - destruct (round_on_prefix j Hj) as [(fee & change & Heq & Hc)
                                       | (fee & change & Heq & Hc & Hnext)].
    + rewrite Heq. destruct (Z.geb_spec change 0) as [_ | Hlt]; [ | lia].
      eexists. split; [reflexivity | exact Hc].
    + rewrite Heq. destruct (Z.geb_spec change 0) as [Hge | _]; [lia | ].
      apply (IH j); [lia | ].
      intros i Hi.
      destruct (prefix_sum_mono _ Hnn' i j ltac:(lia)) as [[_ Hle] _]. lia.
Qed.

End ReselectionLoop.

(** C4 (as amended): the loop carries no round bound of its own, but for a
    non-empty set of coins of non-negative value, a positive requested
    total and arithmetic that stays inside the signed 64-bit range (sum of
    the coins, and requested total plus the fee for all coins and one more
    output), it leaves within [length utxos + 1] rounds, either with a
    decision whose change is not negative or with the selector's
    insufficient-funds error. *)
Theorem sendManyLoop_leaves_in_range
    (S : ValueSorter) (w : BitcoinWallet) (t : AddressType) (R k : Z)
    (utxos : list UTXO) :
  utxos <> [] ->
  Forall (fun u => 0 <= Value u) utxos ->
  sumValues utxos <= I64.max_int ->
  0 < R ->
  0 <= k ->
  sizes_in_range (len utxos) (k + 1) ->
  R + EstimateTxSize (len utxos) (k + 1) t * Z.max 1 (feeRate w) <= I64.max_int ->
  exists r,
    sendManyLoop S w t R k utxos (Datatypes.S (List.length utxos)) R = Some r /\
    loop_exit r.
Proof.
  intros Hne Hnn Hsum HR Hk Hs Hb.
  rewrite (EstimateTxSize_exact _ _ _ Hs) in Hb.
  apply (sendManyLoop_leaves_from S w t R k utxos Hne Hnn Hsum HR Hk Hs Hb
           (List.length utxos) 0%nat R); [lia | ].
  intros i Hi. lia.
Qed.

Lemma sendManyLoop_leaves_in_range_witness :
  let w := walletWithRate 1 in
  let coins := [mkUTXO "aa" 0 700; mkUTXO "bb" 1 300; mkUTXO "cc" 0 5000] in
  sendManyLoop insertionSorter w P2WPKH 900 1 coins 4 900
  = Some (Ok (mkFeeDecision
                [mkUTXO "bb" 1 300; mkUTXO "aa" 0 700; mkUTXO "cc" 0 5000]
                6000 344 4756)) /\
  exists r,
    sendManyLoop insertionSorter w P2WPKH 900 1 coins 4 900 = Some r /\
    loop_exit r.
Proof.
  intros w coins. split; [vm_compute; reflexivity | ].
  apply (sendManyLoop_leaves_in_range insertionSorter w P2WPKH 900 1 coins).
  - discriminate.
  - repeat constructor; cbn; lia.
  - vm_compute; discriminate.
  - lia.
  - lia.
  - unfold sizes_in_range, I64.max_int; cbn; lia.
  - vm_compute; discriminate.
Defined.

(** With the rate 48038396025285290 the legacy fee for one input and one
    output is [2^63 - 128]; for one coin of 1000 and a requested total of
    600 the next target [600 + fee] wraps to a negative number and the same
    coin is selected again, whatever the sorter and however many rounds the
    loop is given. *)
Lemma sendManyLoop_stuck :
  forall (S : ValueSorter) (fuel : nat),
    sendManyLoop S (walletWithRate 48038396025285290) P2PKH 600 1
      [mkUTXO "aa" 0 1000] fuel 600 = None.
Proof.
  intros S.
  set (w := walletWithRate 48038396025285290).
  set (c := mkUTXO "aa" 0 1000).
  assert (Hsort : sortSlice S [c] = [c])
    by (apply Permutation_length_1_inv, sortSlice_perm).
  assert (Hsel : forall a, a <= 1000 -> SelectUTXOs S [c] a = Ok ([c], 1000)).
  { intros a Ha. unfold SelectUTXOs. rewrite Hsort. cbn.
    destruct (Z.geb_spec 1000 a); [reflexivity | lia]. }
  assert (Hfee : computeFeeAndChange w P2PKH 600 1 [c] 1000
                 = (9223372036854775680, -9223372036854775280))
    by (vm_compute; reflexivity).
  assert (Hnext : I64.add 600 9223372036854775680 = -9223372036854775336)
    by (vm_compute; reflexivity).
  assert (Hfix : forall fuel,
             sendManyLoop S w P2PKH 600 1 [c] fuel (-9223372036854775336)
             = None).
  { induction fuel as [ | fuel IH]; [reflexivity | ].
    cbn [sendManyLoop]. rewrite Hsel by lia. rewrite Hfee.
    cbn [Z.geb Z.compare]. rewrite Hnext. exact IH. }
  intros [ | fuel]; [reflexivity | ].
  cbn [sendManyLoop]. rewrite Hsel by lia. rewrite Hfee.
  cbn [Z.geb Z.compare]. rewrite Hnext. apply Hfix.
Qed.

(** C4 as stated fails where the next target wraps: for that rate, coin and
    requested total no number of rounds lets the loop leave. *)
Lemma sendManyLoop_never_leaves :
  ~ exists (fuel : nat) (r : result FeeDecision),
      sendManyLoop insertionSorter (walletWithRate 48038396025285290) P2PKH
        600 1 [mkUTXO "aa" 0 1000] fuel 600 = Some r.
Proof.
  intros (fuel & r & H). rewrite sendManyLoop_stuck in H. discriminate H.
Qed.

Section ListUpdate.

Context {A : Type}.

Lemma replace_length (l : list A) (n : nat) (x : A) :
  (n < List.length l)%nat ->
  List.length (firstn n l ++ x :: skipn (Datatypes.S n) l) = List.length l.
Proof.
  intros H. rewrite length_app, length_firstn. cbn [List.length].
  rewrite length_skipn. lia.
Qed.

Lemma replace_nth_same (l : list A) (n : nat) (x : A) :
  (n < List.length l)%nat ->
  nth_error (firstn n l ++ x :: skipn (Datatypes.S n) l) n = Some x.
Proof.
  intros H. rewrite nth_error_app2; rewrite length_firstn; [ | lia].
  replace (n - Nat.min n (List.length l))%nat with 0%nat by lia.
  reflexivity.
Qed.

Lemma replace_nth_other (l : list A) (n j : nat) (x : A) :
  (n < List.length l)%nat -> j <> n ->
  nth_error (firstn n l ++ x :: skipn (Datatypes.S n) l) j = nth_error l j.
Proof.
  intros H Hj. destruct (Nat.lt_ge_cases j n) as [Hlt | Hge].
  - rewrite nth_error_app1 by (rewrite length_firstn; lia).
    rewrite nth_error_firstn.
    destruct (Nat.ltb_spec j n); [reflexivity | lia].
  - rewrite nth_error_app2; rewrite length_firstn; [ | lia].
    replace (Nat.min n (List.length l)) with n by lia.
    destruct (j - n)%nat as [ | d] eqn:E; [lia | ].
    cbn [nth_error]. rewrite nth_error_skipn. f_equal. lia.
Qed.

Lemma replace_firstn (l : list A) (n : nat) (x : A) :
  (n < List.length l)%nat ->
  firstn n (firstn n l ++ x :: skipn (Datatypes.S n) l) = firstn n l.
Proof.
  intros H. rewrite firstn_app, length_firstn.
  replace (n - Nat.min n (List.length l))%nat with 0%nat by lia.
  cbn [firstn]. rewrite app_nil_r. rewrite firstn_firstn. f_equal. lia.
Qed.

Lemma replace_skipn (l : list A) (n : nat) (x : A) :
  (n < List.length l)%nat ->
  skipn (Datatypes.S n) (firstn n l ++ x :: skipn (Datatypes.S n) l)
  = skipn (Datatypes.S n) l.
Proof.
  intros H. rewrite skipn_app, length_firstn.
  replace (Datatypes.S n - Nat.min n (List.length l))%nat with 1%nat by lia.
  rewrite skipn_all2 by (rewrite length_firstn; lia). reflexivity.
Qed.

End ListUpdate.

Section ScriptBuilderFacts.

Lemma pushData_nonempty (data : bytes) : pushData data <> [].
Proof.
  unfold pushData. destruct data as [ | d [ | d' rest]]; [discriminate | | ].
  - destruct (byteToZ d =? 0); [discriminate | ].
    destruct (byteToZ d <=? 16); [discriminate | ].
    destruct (byteToZ d =? 129); discriminate.
  - cbv zeta.
    destruct (len (d :: d' :: rest) <? 76); [discriminate | ].
    destruct (len (d :: d' :: rest) <=? 255); [discriminate | ].
    destruct (len (d :: d' :: rest) <=? 65535); discriminate.
Qed.

Lemma AddData_done (data : bytes) (b : ScriptBuilder) :
  sbFailed (AddData data b) = false ->
  sbFailed b = false /\ sbScript (AddData data b) = sbScript b ++ pushData data.
Proof.
  unfold AddData. destruct (sbFailed b) eqn:E; [congruence | ].
  destruct (len (sbScript b) + canonicalDataSize data >? MaxScriptSize);
    [cbn; discriminate | ].
  destruct (len data >? MaxScriptElementSize); [cbn; discriminate | ].
  cbn. auto.
Qed.

Lemma AddOp_done (opcode : byte) (b : ScriptBuilder) :
  sbFailed (AddOp opcode b) = false ->
  sbFailed b = false /\ sbScript (AddOp opcode b) = sbScript b ++ [opcode].
Proof.
  unfold AddOp. destruct (sbFailed b) eqn:E; [congruence | ].
  destruct (len (sbScript b) + 1 >? MaxScriptSize); [cbn; discriminate | ].
  cbn. auto.
Qed.

Lemma redeemScript_done (L : Collaborators) (w : BitcoinWallet) (sc : bytes) :
  Script (redeemScriptBuilder L w) = (sc, false) ->
  sc = OP_0 :: pushData (hash160 L (serializeCompressed L (publicKey w))).
Proof.
  unfold Script, redeemScriptBuilder. cbv zeta. intros H.
  injection H as Hs Hf. subst sc.
  destruct (AddData_done _ _ Hf) as [Hf1 ->].
  destruct (AddOp_done _ _ Hf1) as [_ ->]. reflexivity.
Qed.

End ScriptBuilderFacts.

Section UpdateTxIn.

Lemma updateTxIn_done (tx tx' : MsgTx) (idx : Z) (f : TxIn -> TxIn) :
  updateTxIn tx idx f = Done tx' ->
  0 <= idx < len (TxIns tx) /\
  exists ti,
    nth_error (TxIns tx) (Z.to_nat idx) = Some ti /\
    TxIns tx' = firstn (Z.to_nat idx) (TxIns tx)
                ++ f ti :: skipn (Datatypes.S (Z.to_nat idx)) (TxIns tx) /\
    TxOuts tx' = TxOuts tx /\ Version tx' = Version tx /\
    LockTime tx' = LockTime tx.
Proof.
  unfold updateTxIn.
  destruct (Z.ltb_spec idx 0) as [Hneg | Hpos]; [discriminate | ].
  destruct (Z.leb_spec (len (TxIns tx)) idx) as [Hbig | Hlt]; [discriminate | ].
  cbn [orb]. destruct (nth_error (TxIns tx) (Z.to_nat idx)) as [ti | ];
    [ | discriminate].
  intros H. inversion H; subst. cbn. split; [lia | ].
  exists ti. repeat split.
Qed.

Lemma updateTxIn_panic (tx : MsgTx) (idx : Z) (f : TxIn -> TxIn) (a b : Z) :
  updateTxIn tx idx f = IndexPanic a b ->
  ~ (0 <= idx < len (TxIns tx)) /\ a = idx /\ b = len (TxIns tx).
Proof.
  unfold updateTxIn.
  destruct (Z.ltb_spec idx 0) as [Hneg | Hpos];
    [intros H; inversion H; split; [lia | auto] | ].
  destruct (Z.leb_spec (len (TxIns tx)) idx) as [Hbig | Hlt];
    [intros H; inversion H; split; [lia | auto] | ].
  cbn [orb].
  destruct (nth_error (TxIns tx) (Z.to_nat idx)) as [ti | ] eqn:E;
    [discriminate | ].
  apply nth_error_None in E. unfold len in Hlt. lia.
Qed.

Lemma updateTxIn_out_of_range (tx : MsgTx) (idx : Z) (f : TxIn -> TxIn) :
  ~ (0 <= idx < len (TxIns tx)) ->
  updateTxIn tx idx f = IndexPanic idx (len (TxIns tx)).
Proof.
  intros H. unfold updateTxIn.
  destruct (Z.ltb_spec idx 0) as [Hneg | Hpos]; [reflexivity | ].
  destruct (Z.leb_spec (len (TxIns tx)) idx) as [Hbig | Hlt];
    [reflexivity | lia].
Qed.

End UpdateTxIn.

Ltac simpl_txin :=
  cbn [SignatureScript Witness setSignatureScript setWitness
       PreviousOutPoint Sequence].

Section Signer.

Variable L : Collaborators.
Variable w : BitcoinWallet.

Lemma updateTxIn_replaced (tx tx' : MsgTx) (idx : Z) (f : TxIn -> TxIn) :
  updateTxIn tx idx f = Done tx' ->
  0 <= idx < len (TxIns tx) /\
  exists ti, input_replaced tx tx' (Z.to_nat idx) ti (f ti).
Proof.
  intros H. destruct (updateTxIn_done _ _ _ _ H) as (Hr & ti & H1 & H2 & H3 & _).
  split; [exact Hr | ]. exists ti. repeat split; assumption.
Qed.

Lemma builder_two_pushes (a b sc : bytes) :
  Script (AddData b (AddData a NewScriptBuilder)) = (sc, false) ->
  sc = pushData a ++ pushData b.
Proof.
  unfold Script. intros H. injection H as Hs Hf. subst sc.
  destruct (AddData_done _ _ Hf) as [Hf1 ->].
  destruct (AddData_done _ _ Hf1) as [_ ->]. reflexivity.
Qed.

Lemma builder_one_push (a sc : bytes) :
  Script (AddData a NewScriptBuilder) = (sc, false) -> sc = pushData a.
Proof.
  unfold Script. intros H. injection H as Hs Hf. subst sc.
  destruct (AddData_done _ _ Hf) as [_ ->]. reflexivity.
Qed.

Lemma SignP2PKHTransaction_done (tx tx' : MsgTx) (i : Z) (pkScript : bytes) :
  SignP2PKHTransaction L w tx i pkScript = Done tx' ->
  0 <= i < len (TxIns tx) /\
  exists ti ti',
    input_replaced tx tx' (Z.to_nat i) ti ti' /\ signed_as L w P2PKH ti ti'.
Proof.
  unfold SignP2PKHTransaction.
  destruct (calcSignatureHash L pkScript tx i) as [sigHash | ]; [ | discriminate].
  cbv zeta.
  destruct (Script _) as [sc failed] eqn:Esc.
  destruct (updateTxIn tx i (setSignatureScript sc)) as [tx1 | e | a b] eqn:Eu;
    try discriminate.
  destruct failed; [discriminate | ]. intros H. inversion H; subst tx1.
  destruct (updateTxIn_replaced _ _ _ _ Eu) as (Hr & ti & Hrep).
  split; [exact Hr | ]. exists ti, (setSignatureScript sc ti).
  split; [exact Hrep | ].
  unfold signed_as. simpl_txin.
  split; [reflexivity | ]. split; [reflexivity | ]. split; [ | reflexivity].
  exists sigHash. now apply builder_two_pushes.
Qed.

Lemma SignP2WPKHTransaction_done (tx tx' : MsgTx) (i value : Z) (pkScript : bytes) :
  SignP2WPKHTransaction L w tx i value pkScript = Done tx' ->
  0 <= i < len (TxIns tx) /\
  exists ti ti',
    input_replaced tx tx' (Z.to_nat i) ti ti' /\ signed_as L w P2WPKH ti ti'.
Proof.
  unfold SignP2WPKHTransaction. cbv zeta.
  destruct (calcWitnessSigHash L pkScript (pkScript, value) tx i value)
    as [sigHash | ]; [ | discriminate].
  intros Eu. destruct (updateTxIn_replaced _ _ _ _ Eu) as (Hr & ti & Hrep).
  split; [exact Hr | ]. eexists ti, _. split; [exact Hrep | ].
  unfold signed_as. simpl_txin.
  split; [reflexivity | ]. split; [reflexivity | ]. split; [eauto | reflexivity].
Qed.

Lemma SignP2SHTransaction_done (tx tx' : MsgTx) (i value : Z) (pkScript : bytes) :
  SignP2SHTransaction L w tx i value pkScript = Done tx' ->
  0 <= i < len (TxIns tx) /\
  exists ti ti',
    input_replaced tx tx' (Z.to_nat i) ti ti' /\ signed_as L w P2SH ti ti'.
Proof.
  unfold SignP2SHTransaction.
  destruct (Script (redeemScriptBuilder L w)) as [witnessScript failed] eqn:Er.
  destruct failed; [discriminate | ]. cbv zeta.
  destruct (calcWitnessSigHash L witnessScript (pkScript, value) tx i value)
    as [sigHash | ]; [ | discriminate].
  destruct (updateTxIn tx i _) as [tx1 | e | a b] eqn:E1; try discriminate.
  destruct (Script (AddData witnessScript NewScriptBuilder))
    as [sc failed'] eqn:Esc.
  destruct (updateTxIn tx1 i (setSignatureScript sc)) as [tx2 | e | a b] eqn:E2;
    try discriminate.
  destruct failed'; [discriminate | ]. intros H. inversion H; subst tx2.
  destruct (updateTxIn_replaced _ _ _ _ E1) as (Hr & ti & Hn & Hins & Houts).
  destruct (updateTxIn_replaced _ _ _ _ E2) as (_ & ti1 & Hn1 & Hins1 & Houts1).
  assert (Hlt : (Z.to_nat i < List.length (TxIns tx))%nat)
    by (unfold len in Hr; lia).
  rewrite Hins, replace_nth_same in Hn1 by exact Hlt.
  inversion Hn1; subst ti1.
  rewrite Hins, replace_firstn, replace_skipn in Hins1 by exact Hlt.
  split; [exact Hr | ]. eexists ti, _.
  split; [repeat split; [exact Hn | exact Hins1 | congruence] | ].
  unfold signed_as. simpl_txin.
  split; [reflexivity | ]. split; [reflexivity | ]. split; [eauto | ].
  rewrite (builder_one_push _ _ Esc). f_equal.
  now apply redeemScript_done.
Qed.

Lemma SignP2TRTransaction_done (tx tx' : MsgTx) (i value : Z) (pkScript : bytes) :
  SignP2TRTransaction L w tx i value pkScript = Done tx' ->
  0 <= i < len (TxIns tx) /\
  exists ti ti',
    input_replaced tx tx' (Z.to_nat i) ti ti' /\ signed_as L w P2TR ti ti'.
Proof.
  unfold SignP2TRTransaction.
  destruct (getP2TRAddress L w) as [p2trAddr | ]; [ | discriminate].
  destruct (decodeAddress L p2trAddr (network w)) as [addrObj | ];
    [ | discriminate].
  destruct (payToAddrScript L addrObj) as [prevScript | ]; [ | discriminate].
  cbv zeta.
  destruct (rawTxInTaprootSignature L tx (prevScript, value) i value prevScript
              (privateKey w)) as [sig | ]; [ | discriminate].
  intros Eu. destruct (updateTxIn_replaced _ _ _ _ Eu) as (Hr & ti & Hrep).
  split; [exact Hr | ]. eexists ti, _. split; [exact Hrep | ].
  unfold signed_as. simpl_txin.
  split; [reflexivity | ]. split; [reflexivity | ]. split; [eauto | reflexivity].
Qed.

Lemma signInput_done (t : AddressType) (fromScript : bytes)
    (tx tx' : MsgTx) (i : Z) (u : UTXO) :
  signInput L w t fromScript tx i u = Done tx' ->
  0 <= i < len (TxIns tx) /\
  exists ti ti',
    input_replaced tx tx' (Z.to_nat i) ti ti' /\ signed_as L w t ti ti'.
Proof.
  unfold signInput. cbv zeta. destruct t; try discriminate.
  - destruct (SignP2PKHTransaction L w tx i fromScript) eqn:E; try discriminate.
    intros H; inversion H; subst. now apply SignP2PKHTransaction_done in E.
  - destruct (SignP2WPKHTransaction L w tx i (Value u) fromScript) eqn:E;
      try discriminate.
    intros H; inversion H; subst. now apply SignP2WPKHTransaction_done in E.
  - destruct (SignP2SHTransaction L w tx i (Value u) fromScript) eqn:E;
      try discriminate.
    intros H; inversion H; subst. now apply SignP2SHTransaction_done in E.
  - destruct (SignP2TRTransaction L w tx i (Value u) fromScript) eqn:E;
      try discriminate.
    intros H; inversion H; subst. now apply SignP2TRTransaction_done in E.
Qed.

End Signer.

Section SigningLoop.

Variable L : Collaborators.
Variable w : BitcoinWallet.
Variable t : AddressType.
Variable fromScript : bytes.

Lemma input_replaced_length (tx tx' : MsgTx) (n : nat) (ti ti' : TxIn) :
  input_replaced tx tx' n ti ti' ->
  (n < List.length (TxIns tx))%nat /\
  List.length (TxIns tx') = List.length (TxIns tx).
Proof.
  intros (Hn & Hins & _).
  assert (Hlt : (n < List.length (TxIns tx))%nat)
    by (apply nth_error_Some; congruence).
  split; [exact Hlt | ]. rewrite Hins. now apply replace_length.
Qed.

Lemma signInput_panic (tx : MsgTx) (i : Z) (u : UTXO) (a b : Z) :
  signInput L w t fromScript tx i u = IndexPanic a b ->
  ~ (0 <= i < len (TxIns tx)) /\ a = i /\ b = len (TxIns tx).
Proof.
  unfold signInput. cbv zeta. destruct t; try discriminate.
  - unfold SignP2PKHTransaction.
    destruct (calcSignatureHash L fromScript tx i); [ | discriminate].
    cbv zeta. destruct (Script _) as [sc failed].
    destruct (updateTxIn tx i (setSignatureScript sc)) as [tx1 | e | a' b'] eqn:E.
    + destruct failed; discriminate.
    + discriminate.
    + intros H. inversion H; subst. now apply updateTxIn_panic in E.
  - unfold SignP2WPKHTransaction. cbv zeta.
    destruct (calcWitnessSigHash L fromScript _ tx i (Value u)); [ | discriminate].
    destruct (updateTxIn tx i _) as [tx1 | e | a' b'] eqn:E; try discriminate.
    intros H. inversion H; subst. now apply updateTxIn_panic in E.
  - unfold SignP2SHTransaction.
    destruct (Script (redeemScriptBuilder L w)) as [witnessScript failed].
    destruct failed; [discriminate | ]. cbv zeta.
    destruct (calcWitnessSigHash L witnessScript _ tx i (Value u));
      [ | discriminate].
    destruct (updateTxIn tx i _) as [tx1 | e | a' b'] eqn:E1.
    + destruct (Script (AddData witnessScript NewScriptBuilder)) as [sc failed'].
      destruct (updateTxIn tx1 i (setSignatureScript sc))
        as [tx2 | e | a' b'] eqn:E2.
      * destruct failed'; discriminate.
      * discriminate.
      * intros H. inversion H; subst. exfalso.
        destruct (updateTxIn_replaced _ _ _ _ E1) as (Hr & ti & Hrep).
        destruct (input_replaced_length _ _ _ _ _ Hrep) as [_ Hlen].
        apply updateTxIn_panic in E2. destruct E2 as [E2 _].
        apply E2. unfold len in *. rewrite Hlen. exact Hr.
    + discriminate.
    + intros H. inversion H; subst. now apply updateTxIn_panic in E1.
  - unfold SignP2TRTransaction.
    destruct (getP2TRAddress L w) as [p2trAddr | ]; [ | discriminate].
    destruct (decodeAddress L p2trAddr (network w)) as [addrObj | ];
      [ | discriminate].
    destruct (payToAddrScript L addrObj) as [prevScript | ]; [ | discriminate].
    cbv zeta.
    destruct (rawTxInTaprootSignature L tx _ i (Value u) prevScript _);
      [ | discriminate].
    destruct (updateTxIn tx i _) as [tx1 | e | a' b'] eqn:E; try discriminate.
    intros H. inversion H; subst. now apply updateTxIn_panic in E.
Qed.

Lemma signInput_out_of_range (tx : MsgTx) (i : Z) (u : UTXO) :
  ~ (0 <= i < len (TxIns tx)) ->
  reachesAssignment L w t fromScript tx i (Value u) ->
  signInput L w t fromScript tx i u = IndexPanic i (len (TxIns tx)).
Proof.
  intros Hout Hreach. unfold signInput, reachesAssignment in *. cbv zeta.
  destruct t; try contradiction.
  - unfold SignP2PKHTransaction.
    destruct (calcSignatureHash L fromScript tx i); [ | contradiction].
    cbv zeta. destruct (Script _) as [sc failed].
    now rewrite updateTxIn_out_of_range.
  - unfold SignP2WPKHTransaction. cbv zeta.
    destruct (calcWitnessSigHash L fromScript _ tx i (Value u));
      [ | contradiction].
    now rewrite updateTxIn_out_of_range.
  - unfold SignP2SHTransaction.
    destruct Hreach as (witnessScript & -> & Hd). cbv zeta.
    destruct (calcWitnessSigHash L witnessScript _ tx i (Value u));
      [ | contradiction].
    now rewrite updateTxIn_out_of_range.
  - unfold SignP2TRTransaction.
    destruct Hreach as (p2trAddr & addrObj & prevScript & -> & -> & -> & Hs).
    cbv zeta.
    destruct (rawTxInTaprootSignature L tx _ i (Value u) prevScript _);
      [ | contradiction].
    now rewrite updateTxIn_out_of_range.
Qed.

(** The loop started at input [n]: it signs the inputs [n .. n + |utxos| - 1]
    one by one and leaves every other input and all outputs as they are. *)
Lemma signLoop_done (utxos : list UTXO) :
  forall (n : nat) (tx tx' : MsgTx),
    signLoop L w t fromScript utxos (Z.of_nat n) tx = Done tx' ->
    (utxos <> [] -> (n + List.length utxos <= List.length (TxIns tx))%nat) /\
    List.length (TxIns tx') = List.length (TxIns tx) /\
    TxOuts tx' = TxOuts tx /\
    (forall j : nat, (j < n \/ n + List.length utxos <= j)%nat ->
       nth_error (TxIns tx') j = nth_error (TxIns tx) j) /\
    (forall j : nat, (n <= j < n + List.length utxos)%nat ->
       exists ti ti',
         nth_error (TxIns tx) j = Some ti /\
         nth_error (TxIns tx') j = Some ti' /\
         signed_as L w t ti ti').
Proof.
  induction utxos as [ | u rest IH]; intros n tx tx' H.
  - inversion H; subst. cbn [List.length].
    split; [congruence | ]. split; [reflexivity | ]. split; [reflexivity | ].
    split; [reflexivity | intros j Hj; lia].
  - cbn [signLoop] in H.
    destruct (signInput L w t fromScript tx (Z.of_nat n) u) as [tx1 | e | a b]
      eqn:E; try discriminate.
    destruct (signInput_done L w _ _ _ _ _ _ E) as (Hr & ti & ti' & Hrep & Hsig).
    rewrite Nat2Z.id in Hrep.
    destruct (input_replaced_length _ _ _ _ _ Hrep) as [Hlt Hlen].
    destruct Hrep as (Hn & Hins & Houts).
    replace (Z.of_nat n + 1) with (Z.of_nat (Datatypes.S n)) in H by lia.
    destruct (IH _ _ _ H) as (Hb & Hl & Ho & Hother & Hsigned).
    cbn [List.length]. split.
    { intros _. destruct rest as [ | u' rest'];
        [cbn [List.length]; lia | ].
      specialize (Hb ltac:(discriminate)). cbn [List.length] in *. lia. }
    split; [congruence | ].
    split; [congruence | ]. split.
    + intros j Hj. rewrite Hother by lia. rewrite Hins.
      apply replace_nth_other; [exact Hlt | lia].
    + intros j Hj. destruct (Nat.eq_dec j n) as [-> | Hne].
      * exists ti, ti'. split; [exact Hn | ]. split; [ | exact Hsig].
        rewrite Hother by lia. rewrite Hins. now apply replace_nth_same.
      * destruct (Hsigned j ltac:(lia)) as (tj & tj' & H1 & H2 & H3).
        exists tj, tj'. split; [ | split; assumption].
        rewrite <- H1, Hins. symmetry.
        apply replace_nth_other; [exact Hlt | exact Hne].
Qed.

Lemma signLoop_no_panic (utxos : list UTXO) :
  forall (n : nat) (tx : MsgTx) (a b : Z),
    (n + List.length utxos <= List.length (TxIns tx))%nat ->
    signLoop L w t fromScript utxos (Z.of_nat n) tx <> IndexPanic a b.
Proof.
  induction utxos as [ | u rest IH]; intros n tx a b Hle H.
  - discriminate H.
  - cbn [signLoop List.length] in *.
    destruct (signInput L w t fromScript tx (Z.of_nat n) u) as [tx1 | e | a' b']
      eqn:E; try discriminate.
    + destruct (signInput_done L w _ _ _ _ _ _ E) as (_ & ti & ti' & Hrep & _).
      destruct (input_replaced_length _ _ _ _ _ Hrep) as [_ Hlen].
      replace (Z.of_nat n + 1) with (Z.of_nat (Datatypes.S n)) in H by lia.
      apply (IH (Datatypes.S n) tx1 a b); [lia | exact H].
    + apply signInput_panic in E. destruct E as [E _].
      apply E. unfold len. lia.
Qed.

(** With more coins than inputs, the loop reaches input [|TxIn|]: once the
    inputs before it are signed and the calls before the assignment
    succeed, the assignment is out of range. *)
Lemma signLoop_reaches_panic (pre post : list UTXO) (u : UTXO)
    (tx tx1 : MsgTx) :
  List.length pre = List.length (TxIns tx) ->
  signLoop L w t fromScript pre 0 tx = Done tx1 ->
  reachesAssignment L w t fromScript tx1 (len (TxIns tx)) (Value u) ->
  signLoop L w t fromScript (pre ++ u :: post) 0 tx
  = IndexPanic (len (TxIns tx)) (len (TxIns tx)).
Proof.
  intros Hlen Hpre Hreach.
  assert (Hgen : forall (l : list UTXO) (n : nat) (tx0 : MsgTx),
             signLoop L w t fromScript l (Z.of_nat n) tx0 = Done tx1 ->
             signLoop L w t fromScript (l ++ u :: post) (Z.of_nat n) tx0
             = signLoop L w t fromScript (u :: post)
                 (Z.of_nat (n + List.length l)) tx1).
  { induction l as [ | x l IH]; intros n tx0 H.
    - inversion H; subst. cbn [app List.length]. now rewrite Nat.add_0_r.
    - rewrite <- app_comm_cons. cbn [signLoop] in H |- *.
      destruct (signInput L w t fromScript tx0 (Z.of_nat n) x) as [tx2 | e | a b];
        try discriminate.
      assert (Hs : Z.of_nat n + 1 = Z.of_nat (Datatypes.S n)) by lia.
      rewrite Hs in H |- *.
      rewrite (IH _ _ H). cbn [List.length].
      replace (n + Datatypes.S (List.length l))%nat
        with (Datatypes.S n + List.length l)%nat by lia.
      reflexivity. }
  change 0 with (Z.of_nat 0) in Hpre |- *.
  rewrite (Hgen pre 0%nat tx Hpre). cbn [Nat.add signLoop].
  destruct (signLoop_done pre 0%nat tx tx1 Hpre) as (_ & Hl & _).
  assert (Hi : Z.of_nat (List.length pre) = len (TxIns tx1))
    by (unfold len; lia).
  assert (Hsame : len (TxIns tx1) = len (TxIns tx)) by (unfold len; lia).
  rewrite Hi, signInput_out_of_range; [now rewrite Hsame | lia | ].
  now rewrite Hsame.
Qed.

End SigningLoop.

Section CheckedDigests.

Variable L : Collaborators.
Variable w : BitcoinWallet.

(** The loop over [pre ++ rest] is the loop over [rest], started where the
    loop over [pre] stopped. *)
Lemma signLoop_app (t : AddressType) (fromScript : bytes)
    (rest : list UTXO) (tx1 : MsgTx) (pre : list UTXO) :
  forall (n : nat) (tx0 : MsgTx),
    signLoop L w t fromScript pre (Z.of_nat n) tx0 = Done tx1 ->
    signLoop L w t fromScript (pre ++ rest) (Z.of_nat n) tx0
    = signLoop L w t fromScript rest (Z.of_nat (n + List.length pre)) tx1.
Proof.
  induction pre as [ | x l IH]; intros n tx0 H.
  - inversion H; subst. cbn [app List.length]. now rewrite Nat.add_0_r.
  - rewrite <- app_comm_cons. cbn [signLoop] in H |- *.
    destruct (signInput L w t fromScript tx0 (Z.of_nat n) x) as [tx2 | e | a b];
      try discriminate.
    assert (Hs : Z.of_nat n + 1 = Z.of_nat (Datatypes.S n)) by lia.
    rewrite Hs in H |- *.
    rewrite (IH _ _ H). cbn [List.length].
    replace (n + Datatypes.S (List.length l))%nat
      with (Datatypes.S n + List.length l)%nat by lia.
    reflexivity.
Qed.

(** With digests that check the index, a witness or taproot signing
    function handed an index past the inputs returns the digest's error (or
    an earlier one) and does not get to [tx.TxIn[idx]]. *)
Lemma signInput_index_rejected (t : AddressType) (fromScript : bytes)
    (tx : MsgTx) (i : Z) (u : UTXO) :
  digests_check_index L ->
  t = P2WPKH \/ t = P2SH \/ t = P2TR ->
  len (TxIns tx) <= i ->
  exists cause,
    signInput L w t fromScript tx i u = Failed (ErrSignInput i cause) /\
    input_signing_error cause.
Proof.
  intros [Hw Ht] Hfam Hi. unfold signInput, input_signing_error. cbv zeta.
  destruct Hfam as [-> | [-> | ->]].
  - unfold SignP2WPKHTransaction. cbv zeta. rewrite (Hw _ _ _ _ _ Hi).
    eexists. split; [reflexivity | tauto].
  - unfold SignP2SHTransaction.
    destruct (Script (redeemScriptBuilder L w)) as [witnessScript failed].
    destruct failed; [eexists; split; [reflexivity | tauto] | ].
    cbv zeta. rewrite (Hw _ _ _ _ _ Hi).
    eexists. split; [reflexivity | tauto].
  - unfold SignP2TRTransaction.
    destruct (getP2TRAddress L w) as [p2trAddr | ];
      [ | eexists; split; [reflexivity | tauto]].
    destruct (decodeAddress L p2trAddr (network w)) as [addrObj | ];
      [ | eexists; split; [reflexivity | tauto]].
    destruct (payToAddrScript L addrObj) as [prevScript | ];
      [ | eexists; split; [reflexivity | tauto]].
    cbv zeta. rewrite (Ht _ _ _ _ _ _ Hi).
    eexists. split; [reflexivity | tauto].
Qed.

Lemma signLoop_checked_no_panic (t : AddressType) (fromScript : bytes)
    (utxos : list UTXO) :
  digests_check_index L ->
  t = P2WPKH \/ t = P2SH \/ t = P2TR ->
  forall (n : nat) (tx : MsgTx) (a b : Z),
    signLoop L w t fromScript utxos (Z.of_nat n) tx <> IndexPanic a b.
Proof.
  intros Hlaw Hfam.
  induction utxos as [ | u rest IH]; intros n tx a b H; [discriminate H | ].
  cbn [signLoop] in H.
  destruct (signInput L w t fromScript tx (Z.of_nat n) u) as [tx1 | e | a' b']
    eqn:E; try discriminate.
  - replace (Z.of_nat n + 1) with (Z.of_nat (Datatypes.S n)) in H by lia.
    exact (IH _ _ _ _ H).
  - destruct (signInput_panic L w t fromScript tx (Z.of_nat n) u a' b' E)
      as [Hout _].
    destruct (signInput_index_rejected t fromScript tx (Z.of_nat n) u Hlaw
                Hfam ltac:(lia)) as (cause & Hf & _).
    rewrite Hf in E. discriminate E.
Qed.

End CheckedDigests.

(** C7: after [SignTransaction] succeeds on a freshly built transaction,
    the transaction has as many inputs as before and at least one per coin,
    and every signed input (there is one for each coin) carries, for the
    nested-segwit family, a non-empty unlocking script that is the single
    push of the P2WPKH redeem script [OP_0 <hash160(pubkey)>] together with
    the two-element witness (signature with hash type, compressed public
    key); for the legacy family a non-empty unlocking script and an empty
    witness; for taproot a one-element witness and an empty unlocking
    script (and for segwit-v0 the two-element witness and an empty
    unlocking script).  When the transaction has exactly one input per
    coin, as the builder makes it, this holds for every input of the
    result. *)
Theorem SignTransaction_unlocking_data
    (L : Collaborators) (w : BitcoinWallet) (tx tx' : MsgTx)
    (t : AddressType) (utxos : list UTXO) :
  unsigned tx ->
  SignTransaction L w tx t utxos = Done tx' ->
  List.length (TxIns tx') = List.length (TxIns tx) /\
  (List.length utxos <= List.length (TxIns tx'))%nat /\
  (forall j : nat,
     (j < List.length utxos)%nat ->
     exists ti' : TxIn,
       nth_error (TxIns tx') j = Some ti' /\
       carries_unlocking_data L w t ti') /\
  (List.length (TxIns tx) = List.length utxos ->
   Forall (carries_unlocking_data L w t) (TxIns tx')).
Proof.
  intros Hfresh Hsign.
  pose proof Hsign as Hloop. unfold SignTransaction in Hloop.
  destruct (senderScript L w t) as [fromScript | e]; [ | discriminate].
  change 0 with (Z.of_nat 0) in Hloop.
  destruct (signLoop_done L w t fromScript utxos 0%nat tx tx' Hloop)
    as (Hbound & Hlen & _ & _ & Hsigned).
  assert (Hper : forall j : nat,
             (j < List.length utxos)%nat ->
             exists ti' : TxIn,
               nth_error (TxIns tx') j = Some ti' /\
               carries_unlocking_data L w t ti').
  { intros j Hj.
    destruct (Hsigned j ltac:(lia)) as (ti & ti' & Hti & Hti' & Hsig).
    exists ti'. split; [exact Hti' | ].
    unfold unsigned in Hfresh. rewrite Forall_forall in Hfresh.
    destruct (Hfresh ti (nth_error_In _ _ Hti)) as [Hs0 Hw0].
    destruct Hsig as (_ & _ & Hsig).
    unfold carries_unlocking_data. destruct t.
    - destruct Hsig as [(sigHash & Hsc) Hw]. split; [ | congruence].
      rewrite Hsc. intros E. apply app_eq_nil in E. destruct E as [E _].
      now apply pushData_nonempty in E.
    - destruct Hsig as [Hw Hsc]. split; [exact Hw | congruence].
    - destruct Hsig as [Hw Hsc].
      split; [ | split; [exact Hsc | split; [ | exact Hw]]].
      + (* the redeem script was built before the first input was signed *)
        destruct utxos as [ | u rest]; [cbn in Hj; lia | ].
        cbn [signLoop] in Hloop.
        unfold signInput, SignP2SHTransaction in Hloop. cbv zeta in Hloop.
        destruct (Script (redeemScriptBuilder L w)) as [sc failed] eqn:Er.
        destruct failed; [discriminate Hloop | ].
        now rewrite (redeemScript_done L w sc Er).
      + rewrite Hsc. apply pushData_nonempty.
    - destruct Hsig as [Hw Hsc]. split; [exact Hw | congruence].
    - contradiction. }
  split; [exact Hlen | ]. split; [ | split; [exact Hper | ]].
  - destruct utxos as [ | u rest]; [cbn; lia | ].
    specialize (Hbound ltac:(discriminate)). lia.
  - intros Hall. apply Forall_forall. intros ti' Hin.
    destruct (In_nth_error _ _ Hin) as [j Hj].
    assert (Hlt : (j < List.length (TxIns tx'))%nat)
      by (apply nth_error_Some; congruence).
    destruct (Hper j ltac:(lia)) as (ti0 & Hnth & Hdata).
    rewrite Hj in Hnth. inversion Hnth; subst ti0. exact Hdata.
Qed.

Lemma SignTransaction_unlocking_data_witness :
  let w := walletWithRate 1 in
  let tx := AddTxOut (mkTxOut 1500 [x00; x14])
              (AddTxIn (NewTxIn [xab] 0) (NewMsgTx TxVersion)) in
  let coins := [mkUTXO "aa" 0 3000] in
  exists tx',
    SignTransaction testLib w tx P2SH coins = Done tx' /\
    List.length (TxIns tx') = 1%nat /\
    Forall (carries_unlocking_data testLib w P2SH) (TxIns tx').
Proof.
  intros w tx coins. eexists. split; [vm_compute; reflexivity | ].
  match goal with
  | |- List.length (TxIns ?r) = _ /\ _ =>
      destruct (SignTransaction_unlocking_data testLib w tx r P2SH coins)
        as (Hlen & _ & _ & Hall)
  end.
  - repeat constructor.
  - vm_compute; reflexivity.
  - split; [exact Hlen | apply Hall; reflexivity].
Defined.

(** C8: the taproot signing result does not depend on the previous-output
    script handed in by the caller: for every transaction, input index and
    coin value, any two [pkScript] arguments give the same outcome, because
    the signature is computed over the wallet's own taproot output script,
    derived again from its key, and that signature alone becomes the
    witness. *)
Theorem SignP2TRTransaction_ignores_pkScript
    (L : Collaborators) (w : BitcoinWallet) (tx : MsgTx) (idx value : Z)
    (pkScript1 pkScript2 : bytes) :
  SignP2TRTransaction L w tx idx value pkScript1
  = SignP2TRTransaction L w tx idx value pkScript2
  /\
  (forall tx',
      SignP2TRTransaction L w tx idx value pkScript1 = Done tx' ->
      exists p2trAddr addrObj prevScript sig ti,
        getP2TRAddress L w = Some p2trAddr /\
        decodeAddress L p2trAddr (network w) = Some addrObj /\
        payToAddrScript L addrObj = Some prevScript /\
        rawTxInTaprootSignature L tx (prevScript, value) idx value prevScript
          (privateKey w) = Some sig /\
        input_replaced tx tx' (Z.to_nat idx) ti (setWitness [sig] ti)).
Proof.
  split; [reflexivity | ].
  intros tx'. unfold SignP2TRTransaction.
  destruct (getP2TRAddress L w) as [p2trAddr | ] eqn:Ea; [ | discriminate].
  destruct (decodeAddress L p2trAddr (network w)) as [addrObj | ] eqn:Ed;
    [ | discriminate].
  destruct (payToAddrScript L addrObj) as [prevScript | ] eqn:Es;
    [ | discriminate].
  cbv zeta.
  destruct (rawTxInTaprootSignature L tx (prevScript, value) idx value
              prevScript (privateKey w)) as [sig | ] eqn:Eg; [ | discriminate].
  intros Hu. destruct (updateTxIn_replaced _ _ _ _ Hu) as (_ & ti & Hrep).
  exists p2trAddr, addrObj, prevScript, sig, ti.
  split; [reflexivity | ]. split; [exact Ed | ]. split; [exact Es | ].
  split; [exact Eg | exact Hrep].
Qed.

(** C9 (as amended): [SignTransaction] needs [len(utxos) <= len(tx.TxIn)].
    Under that precondition no index access is out of range, and with more
    coins than inputs the call never succeeds.  What happens then depends
    on the family.  For the legacy family, whose digest routine does not
    look at the number of inputs, the out-of-range access is reached
    instead of an error being returned: once the inputs that exist are
    signed and the digest for index [len(tx.TxIn)] is computed, the
    assignment to [tx.TxIn[len(tx.TxIn)]] is out of range.  For the
    segwit-v0, nested-segwit and taproot families the digest routine is
    called with the index before the assignment; with a library that
    checks the index there, no access is ever out of range and the call
    with more coins than inputs returns an error, the one of signing input
    [len(tx.TxIn)] once the inputs that exist are signed. *)
Theorem SignTransaction_index_precondition
    (L : Collaborators) (w : BitcoinWallet) (tx : MsgTx)
    (t : AddressType) (utxos : list UTXO) :
  ((List.length utxos <= List.length (TxIns tx))%nat ->
   forall a b, SignTransaction L w tx t utxos <> IndexPanic a b)
  /\
  ((List.length (TxIns tx) < List.length utxos)%nat ->
   forall tx', SignTransaction L w tx t utxos <> Done tx')
  /\
  (t = P2PKH ->
   forall (pre post : list UTXO) (u : UTXO) (fromScript : bytes) (tx1 : MsgTx),
     utxos = pre ++ u :: post ->
     List.length pre = List.length (TxIns tx) ->
     senderScript L w t = Ok fromScript ->
     signLoop L w t fromScript pre 0 tx = Done tx1 ->
     calcSignatureHash L fromScript tx1 (len (TxIns tx)) <> None ->
     SignTransaction L w tx t utxos
     = IndexPanic (len (TxIns tx)) (len (TxIns tx)))
  /\
  (t = P2WPKH \/ t = P2SH \/ t = P2TR ->
   digests_check_index L ->
   (forall a b, SignTransaction L w tx t utxos <> IndexPanic a b) /\
   ((List.length (TxIns tx) < List.length utxos)%nat ->
    exists e, SignTransaction L w tx t utxos = Failed e) /\
   (forall (pre post : list UTXO) (u : UTXO) (fromScript : bytes) (tx1 : MsgTx),
      utxos = pre ++ u :: post ->
      List.length pre = List.length (TxIns tx) ->
      senderScript L w t = Ok fromScript ->
      signLoop L w t fromScript pre 0 tx = Done tx1 ->
      exists cause,
        SignTransaction L w tx t utxos
        = Failed (ErrSignInput (len (TxIns tx)) cause) /\
        input_signing_error cause)).
Proof.
  assert (Hnever : (List.length (TxIns tx) < List.length utxos)%nat ->
                   forall tx', SignTransaction L w tx t utxos <> Done tx').
  { intros Hlt tx'. unfold SignTransaction.
    destruct (senderScript L w t) as [fromScript | e]; [ | discriminate].
    change 0 with (Z.of_nat 0). intros H.
    destruct (signLoop_done L w t fromScript utxos 0%nat tx tx' H) as (Hb & _).
    assert (Hne : utxos <> []) by (intros ->; cbn in Hlt; lia).
    specialize (Hb Hne). lia. }
  split; [ | split; [exact Hnever | split]].
  - intros Hle a b. unfold SignTransaction.
    destruct (senderScript L w t) as [fromScript | e]; [ | discriminate].
    change 0 with (Z.of_nat 0). apply signLoop_no_panic. lia.
  - intros -> pre post u fromScript tx1 -> Hlen Hs Hpre Hdigest.
    unfold SignTransaction. rewrite Hs.
    apply signLoop_reaches_panic with (tx1 := tx1); try assumption.
  - intros Hfam Hlaw.
    assert (Hnp : forall a b, SignTransaction L w tx t utxos <> IndexPanic a b).
    { intros a b. unfold SignTransaction.
      destruct (senderScript L w t) as [fromScript | e]; [ | discriminate].
      change 0 with (Z.of_nat 0).
      now apply signLoop_checked_no_panic. }
    split; [exact Hnp | split].
    + intros Hlt.
      destruct (SignTransaction L w tx t utxos) as [tx' | e | a b] eqn:E.
      * exfalso. exact (Hnever Hlt tx' eq_refl).
      * now exists e.
      * exfalso. exact (Hnp a b eq_refl).
    + intros pre post u fromScript tx1 -> Hlen Hs Hpre.
      unfold SignTransaction. rewrite Hs.
      change 0 with (Z.of_nat 0) in Hpre |- *.
      rewrite (signLoop_app L w t fromScript (u :: post) tx1 pre 0%nat tx Hpre).
      destruct (signLoop_done L w t fromScript pre 0%nat tx tx1 Hpre)
        as (_ & Hl & _).
      cbn [Nat.add signLoop].
      assert (Hi : Z.of_nat (List.length pre) = len (TxIns tx))
        by (unfold len; lia).
      rewrite Hi.
      destruct (signInput_index_rejected L w t fromScript tx1 (len (TxIns tx))
                  u Hlaw Hfam ltac:(unfold len; lia)) as (cause & Hf & Hc).
      rewrite Hf. exists cause. split; [reflexivity | exact Hc].
Qed.

Lemma SignTransaction_index_precondition_witness :
  let w := walletWithRate 1 in
  let tx := AddTxOut (mkTxOut 1500 [x00; x14])
              (AddTxIn (NewTxIn [xab] 0) (NewMsgTx TxVersion)) in
  let c1 := mkUTXO "aa" 0 3000 in
  let c2 := mkUTXO "bb" 1 4000 in
  (forall a b, SignTransaction testLib w tx P2PKH [c1] <> IndexPanic a b) /\
  SignTransaction testLib w tx P2PKH [c1; c2] = IndexPanic 1 1 /\
  digests_check_index testLib /\
  (forall a b, SignTransaction testLib w tx P2TR [c1; c2] <> IndexPanic a b) /\
  exists e, SignTransaction testLib w tx P2TR [c1; c2] = Failed e.
Proof.
  intros w tx c1 c2.
  assert (Hlaw : digests_check_index testLib).
  { split.
    - intros sc prev tx0 idx value Hi. cbn. unfold testIndexOk.
      destruct (Z.ltb_spec idx (len (TxIns tx0))) as [Hlt | _]; [lia | ].
      now rewrite andb_false_r.
    - intros tx0 prev idx value sc key Hi. cbn. unfold testIndexOk.
      destruct (Z.ltb_spec idx (len (TxIns tx0))) as [Hlt | _]; [lia | ].
      now rewrite andb_false_r. }
  destruct (SignTransaction_index_precondition testLib w tx P2PKH [c1])
    as (Hin & _ & _ & _).
  destruct (SignTransaction_index_precondition testLib w tx P2PKH [c1; c2])
    as (_ & _ & Hout & _).
  destruct (SignTransaction_index_precondition testLib w tx P2TR [c1; c2])
    as (_ & _ & _ & Hchecked).
  destruct (Hchecked ltac:(auto) Hlaw) as (Hnp & Herr & _).
  split; [apply Hin; cbn; lia | ].
  split; [ | split; [exact Hlaw | split; [exact Hnp | ]]].
  - eapply (Hout eq_refl [c1] [] c2); try reflexivity. cbn. discriminate.
  - apply Herr. cbn. lia.
Defined.

(** C9, why the claim does not hold as stated: with two coins for a
    transaction of one input, the witness and taproot families return the
    error of signing input 1, raised by the digest routine before
    [tx.TxIn[1]] is touched; only the legacy family reaches the access. *)
Lemma SignTransaction_index_error_counterexample :
  let w := walletWithRate 1 in
  let tx := AddTxOut (mkTxOut 1500 [x00; x14])
              (AddTxIn (NewTxIn [xab] 0) (NewMsgTx TxVersion)) in
  let c1 := mkUTXO "aa" 0 3000 in
  let c2 := mkUTXO "bb" 1 4000 in
  (List.length (TxIns tx) < List.length [c1; c2])%nat /\
  SignTransaction testLib w tx P2WPKH [c1; c2]
  = Failed (ErrSignInput 1 ErrWitnessSigHash) /\
  SignTransaction testLib w tx P2SH [c1; c2]
  = Failed (ErrSignInput 1 ErrWitnessSigHash) /\
  SignTransaction testLib w tx P2TR [c1; c2]
  = Failed (ErrSignInput 1 ErrTaprootSignature) /\
  SignTransaction testLib w tx P2PKH [c1; c2] = IndexPanic 1 1.
Proof.
  intros w tx c1 c2.
  split; [cbn; lia | ].
  split; [vm_compute; reflexivity | ].
  split; [vm_compute; reflexivity | ].
  split; vm_compute; reflexivity.
Qed.

Section Sweep.

Variable L : Collaborators.
Variable w : BitcoinWallet.

Lemma addInputs_spec (utxos : list UTXO) :
  forall (tx tx' : MsgTx),
    addInputs L utxos tx = Ok tx' ->
    TxOuts tx' = TxOuts tx /\
    exists ins,
      TxIns tx' = TxIns tx ++ ins /\
      Forall2 (fun u ti =>
                 exists txHash,
                   newHashFromStr L (TxID u) = Some txHash /\
                   ti = NewTxIn txHash (Vout u))
              utxos ins.
Proof.
  induction utxos as [ | u rest IH]; intros tx tx' H.
  - inversion H; subst. split; [reflexivity | ].
    exists []. rewrite app_nil_r. split; [reflexivity | constructor].
  - cbn [addInputs] in H.
    destruct (newHashFromStr L (TxID u)) as [txHash | ] eqn:Eh;
      [ | discriminate].
    destruct (IH _ _ H) as (Ho & ins & Hins & Hall).
    split; [exact Ho | ].
    exists (NewTxIn txHash (Vout u) :: ins). split.
    + rewrite Hins. cbn [AddTxIn TxIns]. now rewrite <- app_assoc.
    + constructor; [eauto | exact Hall].
Qed.

Lemma sweepTransaction_spec (target : btcAddress L) (utxos : list UTXO)
    (transferAmount : Z) (tx : MsgTx) :
  sweepTransaction L target utxos transferAmount = Ok tx ->
  List.length (TxIns tx) = List.length utxos /\
  unsigned tx /\
  exists receiverScript,
    payToAddrScript L target = Some receiverScript /\
    TxOuts tx = [mkTxOut transferAmount receiverScript].
Proof.
  unfold sweepTransaction.
  destruct (addInputs L utxos (NewMsgTx TxVersion)) as [tx0 | e] eqn:Ea;
    [ | discriminate].
  destruct (payToAddrScript L target) as [receiverScript | ]; [ | discriminate].
  intros H. inversion H; subst.
  destruct (addInputs_spec _ _ _ Ea) as (Ho & ins & Hins & Hall).
  cbn [NewMsgTx TxIns TxOuts app] in Ho, Hins.
  unfold unsigned. cbn [AddTxOut TxIns TxOuts]. rewrite Hins, Ho.
  split; [symmetry; eapply Forall2_length; eassumption | ].
  split; [ | eauto].
  clear - Hall. induction Hall as [ | u ti us tis (h & _ & ->) _ IH];
    constructor; [split; reflexivity | exact IH].
Qed.

Lemma SignTransaction_preserves (tx signed : MsgTx) (t : AddressType)
    (utxos : list UTXO) :
  SignTransaction L w tx t utxos = Done signed ->
  TxOuts signed = TxOuts tx /\
  List.length (TxIns signed) = List.length (TxIns tx).
Proof.
  unfold SignTransaction.
  destruct (senderScript L w t) as [fromScript | e]; [ | discriminate].
  change 0 with (Z.of_nat 0). intros H.
  destruct (signLoop_done L w t fromScript utxos 0%nat tx signed H)
    as (_ & Hl & Ho & _). split; assumption.
Qed.

Lemma totalBalance_from (utxos : list UTXO) :
  forall acc : Z,
    Forall (fun u => 0 <= Value u) utxos ->
    0 <= acc ->
    acc + sumValues utxos <= I64.max_int ->
    fold_left (fun a u => I64.add a (Value u)) utxos acc = acc + sumValues utxos.
Proof.
  induction utxos as [ | u rest IH]; intros acc Hnn Hacc Hb; cbn [fold_left sumValues] in *.
  - lia.
  - inversion Hnn as [ | ? ? Hu Hrest]; subst.
    pose proof (sumValues_nonneg rest Hrest).
    rewrite add_small by (unfold_range; lia).
    rewrite IH by (try assumption; lia). lia.
Qed.

Lemma sweepTransferAmount_in_range (t : AddressType) (utxos : list UTXO) :
  Forall (fun u => 0 <= Value u) utxos ->
  sumValues utxos <= I64.max_int ->
  sizes_in_range (len utxos) 1 ->
  EstimateTxSize (len utxos) 1 t * Z.max (feeRate w) 1 <= I64.max_int ->
  sweepTransferAmount w t utxos
  = sumValues utxos - EstimateTxSize (len utxos) 1 t * Z.max (feeRate w) 1.
Proof.
  intros Hnn Hsum Hs Hfee. unfold sweepTransferAmount, totalBalanceOf. cbv zeta.
  rewrite totalBalance_from by (try assumption; lia). cbn [Z.add].
  assert (Hr : (if feeRate w <=? 0 then 1 else feeRate w) = Z.max (feeRate w) 1)
    by (destruct (Z.leb_spec (feeRate w) 0); lia).
  rewrite Hr.
  pose proof (sumValues_nonneg utxos Hnn) as H0.
  assert (Hp : 0 < EstimateTxSize (len utxos) 1 t).
  { rewrite (EstimateTxSize_exact _ _ _ Hs). apply txSizeZ_pos; [ | lia].
    unfold sizes_in_range in Hs. lia. }
  rewrite mul_small by (unfold_range; nia).
  apply sub_small. unfold_range. nia.
Qed.

Lemma SendAll_after_fetch (t : AddressType) (toAddress fromAddr : string)
    (target : btcAddress L) (utxos : list UTXO) :
  decodeAndValidateAddress L w toAddress = inl target ->
  GetAddress L w t = Some fromAddr ->
  GetUTXOs L w fromAddr = Some utxos ->
  utxos <> [] ->
  SendAll L w t toAddress =
    if sweepTransferAmount w t utxos <=? 0 then Failed ErrFeeExceedsBalance
    else
      match sweepTransaction L target utxos (sweepTransferAmount w t utxos) with
      | Err e => Failed e
      | Ok tx => signAndBroadcast L w tx t utxos
      end.
Proof.
  intros Hd Ha Hu Hne. unfold SendAll. rewrite Hd, Ha, Hu.
  destruct (Z.eqb_spec (len utxos) 0) as [E | _];
    [apply len_zero_nil in E; contradiction | reflexivity].
Qed.

Lemma sweepTransaction_error_kind (target : btcAddress L) (utxos : list UTXO)
    (a : Z) (e : error) :
  sweepTransaction L target utxos a = Err e ->
  e = ErrParseTxHash \/ e = ErrReceiverScript.
Proof.
  unfold sweepTransaction.
  assert (Hin : forall l tx e', addInputs L l tx = Err e' -> e' = ErrParseTxHash).
  { induction l as [ | u l IH]; intros tx e' H; [discriminate H | ].
    cbn [addInputs] in H. destruct (newHashFromStr L (TxID u)).
    - eapply IH; eassumption.
    - now inversion H. }
  destruct (addInputs L utxos (NewMsgTx TxVersion)) as [tx0 | e0] eqn:Ea.
  - destruct (payToAddrScript L target); [discriminate | ].
    intros H; inversion H; auto.
  - intros H; inversion H; subst. left. eapply Hin; eassumption.
Qed.

Lemma signAndBroadcast_error_kind (tx : MsgTx) (t : AddressType)
    (utxos : list UTXO) :
  signAndBroadcast L w tx t utxos <> Failed ErrFeeExceedsBalance.
Proof.
  unfold signAndBroadcast, BroadcastTransaction.
  destruct (SignTransaction L w tx t utxos); try discriminate.
  destruct (serializeHex L a); [ | discriminate].
  destruct (postTx L (apiURL w) s); discriminate.
Qed.

End Sweep.

(** C6 (as amended): once the destination decodes, the sender address is
    derived and a non-empty set of coins of non-negative value is fetched,
    and while the balance and the fee stay inside the signed 64-bit range,
    the sweep amount is [T - EstimateTxSize(n, 1, family) * max(rate, 1)]
    exactly; [SendAll] fails with the insufficiency error exactly when that
    amount is [<= 0]; otherwise the transaction it assembles has one input
    per coin and exactly one output, of that amount (no change output), and
    signing keeps both. *)
Theorem SendAll_sweeps_balance
    (L : Collaborators) (w : BitcoinWallet) (t : AddressType)
    (toAddress fromAddr : string) (target : btcAddress L) (utxos : list UTXO) :
  decodeAndValidateAddress L w toAddress = inl target ->
  GetAddress L w t = Some fromAddr ->
  GetUTXOs L w fromAddr = Some utxos ->
  utxos <> [] ->
  Forall (fun u => 0 <= Value u) utxos ->
  sumValues utxos <= I64.max_int ->
  sizes_in_range (len utxos) 1 ->
  EstimateTxSize (len utxos) 1 t * Z.max (feeRate w) 1 <= I64.max_int ->
  let amt := sumValues utxos - EstimateTxSize (len utxos) 1 t * Z.max (feeRate w) 1 in
  (SendAll L w t toAddress = Failed ErrFeeExceedsBalance <-> amt <= 0)
  /\
  (0 < amt ->
   match sweepTransaction L target utxos amt with
   | Err e => SendAll L w t toAddress = Failed e
   | Ok tx =>
       SendAll L w t toAddress = signAndBroadcast L w tx t utxos /\
       List.length (TxIns tx) = List.length utxos /\
       (exists receiverScript,
           payToAddrScript L target = Some receiverScript /\
           TxOuts tx = [mkTxOut amt receiverScript]) /\
       (forall signed,
           SignTransaction L w tx t utxos = Done signed ->
           TxOuts signed = TxOuts tx /\
           List.length (TxIns signed) = List.length utxos)
   end).
Proof.
  intros Hd Ha Hu Hne Hnn Hsum Hs Hfee amt.
  pose proof (SendAll_after_fetch L w t toAddress fromAddr target utxos
                Hd Ha Hu Hne) as Hsend.
  rewrite (sweepTransferAmount_in_range w t utxos Hnn Hsum Hs Hfee) in Hsend.
  fold amt in Hsend. split.
  - rewrite Hsend. destruct (Z.leb_spec amt 0) as [Hle | Hgt].
    + split; [intros _; exact Hle | reflexivity].
    + split; [ | lia]. intros H. exfalso.
      destruct (sweepTransaction L target utxos amt) as [tx | e] eqn:Es.
      * now apply signAndBroadcast_error_kind in H.
      * apply sweepTransaction_error_kind in Es.
        destruct Es as [-> | ->]; discriminate H.
  - intros Hpos. rewrite Hsend.
    destruct (Z.leb_spec amt 0) as [Hle | _]; [lia | ].
    destruct (sweepTransaction L target utxos amt) as [tx | e] eqn:Es;
      [ | reflexivity].
    destruct (sweepTransaction_spec L target utxos amt tx Es)
      as (Hlen & _ & Hout).
    split; [reflexivity | ]. split; [exact Hlen | ]. split; [exact Hout | ].
    intros signed Hsig.
    destruct (SignTransaction_preserves L w tx signed t utxos Hsig) as [Ho Hl].
    split; [exact Ho | congruence].
Qed.

Lemma SendAll_sweeps_balance_witness :
  let w := walletWithRate 2 in
  let coins := [mkUTXO "aa" 0 6000; mkUTXO "bb" 1 4000] in
  let L := testLibWith coins in
  sweepTransferAmount w P2WPKH coins = 9554 /\
  SendAll L w P2WPKH "tb1q-dest" = Done "txid"%string /\
  (SendAll L w P2WPKH "tb1q-dest" = Failed ErrFeeExceedsBalance <->
   sumValues coins - EstimateTxSize (len coins) 1 P2WPKH * Z.max (feeRate w) 1
   <= 0).
Proof.
  intros w coins L.
  split; [vm_compute; reflexivity | ]. split; [vm_compute; reflexivity | ].
  refine (proj1 (SendAll_sweeps_balance L w P2WPKH "tb1q-dest" "tb1q-segwit"
                   "tb1q-dest"%string coins _ _ _ _ _ _ _ _)).
  - reflexivity.
  - reflexivity.
  - reflexivity.
  - discriminate.
  - repeat constructor; cbn; lia.
  - vm_compute; discriminate.
  - unfold sizes_in_range, I64.max_int; cbn; lia.
  - vm_compute; discriminate.
Defined.

(** C6 as stated fails where the fee product wraps: with the rate [2^62]
    the legacy fee [192 * 2^62] wraps to 0, so a single coin of 1000 is
    swept in full, although [T - size * max(rate, 1)] is far below zero. *)
Lemma SendAll_fee_wrap_counterexample :
  let w := walletWithRate (2 ^ 62) in
  let coins := [mkUTXO "aa" 0 1000] in
  let L := testLibWith coins in
  SendAll L w P2PKH "tb1q-dest" = Done "txid"%string /\
  sweepTransferAmount w P2PKH coins = 1000 /\
  sumValues coins - EstimateTxSize (len coins) 1 P2PKH * Z.max (feeRate w) 1 <= 0.
Proof.
  intros w coins L. split; [vm_compute; reflexivity | ].
  split; [vm_compute; reflexivity | vm_compute; discriminate].
Qed.

(** C10: [SendAll] applies no dust check.  Whenever the swept amount is
    positive but at most 546 and the collaborators succeed, the sweep is
    built, signed and submitted with that amount as its only output, while
    the same amount, when below 546, is refused by
    [resolvePaymentOutputs]. *)
Theorem SendAll_no_dust_check
    (L : Collaborators) (w : BitcoinWallet) (t : AddressType)
    (toAddress fromAddr : string) (target : btcAddress L) (utxos : list UTXO)
    (tx signed : MsgTx) (txHex txid : string) :
  decodeAndValidateAddress L w toAddress = inl target ->
  GetAddress L w t = Some fromAddr ->
  GetUTXOs L w fromAddr = Some utxos ->
  utxos <> [] ->
  0 < sweepTransferAmount w t utxos <= dustThreshold ->
  sweepTransaction L target utxos (sweepTransferAmount w t utxos) = Ok tx ->
  SignTransaction L w tx t utxos = Done signed ->
  serializeHex L signed = Some txHex ->
  postTx L (apiURL w) txHex = Some txid ->
  SendAll L w t toAddress = Done txid /\
  (exists receiverScript,
      TxOuts signed = [mkTxOut (sweepTransferAmount w t utxos) receiverScript]) /\
  OutValue (hd (mkTxOut 0 []) (TxOuts signed)) <= dustThreshold /\
  (sweepTransferAmount w t utxos < dustThreshold ->
   resolvePaymentOutputs L w
     [mkPaymentOutput toAddress (sweepTransferAmount w t utxos)]
   = Err (ErrBelowDust 0 dustThreshold)).
Proof.
  intros Hd Ha Hu Hne Hamt Hs Hsig Hser Hpost.
  destruct (sweepTransaction_spec L target utxos _ tx Hs)
    as (_ & _ & sc & Hsc & Hout).
  destruct (SignTransaction_preserves L w tx signed t utxos Hsig) as [Ho _].
  split; [ | split; [ | split]].
  - rewrite (SendAll_after_fetch L w t toAddress fromAddr target utxos
               Hd Ha Hu Hne).
    destruct (Z.leb_spec (sweepTransferAmount w t utxos) 0) as [Hle | _];
      [lia | ].
    rewrite Hs. unfold signAndBroadcast, BroadcastTransaction.
    now rewrite Hsig, Hser, Hpost.
  - exists sc. congruence.
  - rewrite Ho, Hout. cbn [hd OutValue]. lia.
  - intros Hlt. unfold resolvePaymentOutputs. cbn [len List.length resolveLoop].
    change (Z.of_nat 1 =? 0) with false. cbv iota. cbn [Amount Address].
    destruct (Z.leb_spec (sweepTransferAmount w t utxos) 0) as [Hle | _];
      [lia | ].
    rewrite Hd, Hsc.
    destruct (Z.ltb_spec (sweepTransferAmount w t utxos) dustThreshold)
      as [_ | Hge]; [reflexivity | lia].
Qed.

Lemma SendAll_no_dust_check_witness :
  let w := walletWithRate 1 in
  let coins := [mkUTXO "aa" 0 700] in
  let L := testLibWith coins in
  sweepTransferAmount w P2PKH coins = 508 /\
  SendAll L w P2PKH "tb1q-dest" = Done "txid"%string /\
  resolvePaymentOutputs L w [mkPaymentOutput "tb1q-dest" 508]
  = Err (ErrBelowDust 0 dustThreshold).
Proof.
  intros w coins L.
  assert (Hamt : sweepTransferAmount w P2PKH coins = 508)
    by (vm_compute; reflexivity).
  split; [exact Hamt | ].
  destruct (sweepTransaction L "tb1q-dest"%string coins
              (sweepTransferAmount w P2PKH coins)) as [tx | e] eqn:Es;
    [ | vm_compute in Es; discriminate Es].
  destruct (SignTransaction L w tx P2PKH coins) as [signed | e | a b] eqn:Eg;
    [ | vm_compute in Es; inversion Es; subst tx; vm_compute in Eg;
        discriminate Eg ..].
  destruct (SendAll_no_dust_check L w P2PKH "tb1q-dest" "m-legacy"
              "tb1q-dest"%string coins tx signed "hex" "txid")
    as (Hsend & _ & _ & Hres);
    try reflexivity; try discriminate; try exact Es; try exact Eg.
  - rewrite Hamt. unfold dustThreshold. lia.
  - split; [exact Hsend | ]. rewrite Hamt in Hres. apply Hres.
    unfold dustThreshold. lia.
Defined.

Section Builder.

Variable L : Collaborators.
Variable w : BitcoinWallet.

Lemma addInputsChecked_spec (utxos : list UTXO) :
  forall (idx : Z) (tx tx' : MsgTx),
    addInputsChecked L utxos idx tx = Ok tx' ->
    TxOuts tx' = TxOuts tx /\
    List.length (TxIns tx') = (List.length (TxIns tx) + List.length utxos)%nat.
Proof.
  induction utxos as [ | u rest IH]; intros idx tx tx' H.
  - inversion H; subst. split; [reflexivity | cbn; lia].
  - cbn [addInputsChecked] in H.
    destruct (String.eqb (TxID u) ""); [discriminate | ].
    destruct (newHashFromStr L (TxID u)) as [txHash | ]; [ | discriminate].
    destruct (IH _ _ _ H) as [Ho Hl]. split; [exact Ho | ].
    rewrite Hl. cbn [AddTxIn TxIns List.length]. rewrite length_app.
    cbn [List.length]. lia.
Qed.

Lemma addOutputs_spec (outputs : list (resolvedOutput L)) :
  forall tx : MsgTx,
    TxOuts (addOutputs outputs tx) = TxOuts tx ++ map toTxOut outputs /\
    TxIns (addOutputs outputs tx) = TxIns tx.
Proof.
  unfold addOutputs.
  induction outputs as [ | o rest IH]; intros tx; cbn [fold_left map].
  - now rewrite app_nil_r.
  - destruct (IH (AddTxOut (toTxOut o) tx)) as [Ho Hi].
    rewrite Ho, Hi. cbn [AddTxOut TxOuts TxIns]. rewrite <- app_assoc.
    split; reflexivity.
Qed.

(** The builder appends a change output exactly when the change exceeds the
    dust threshold; otherwise the outputs are the resolved ones alone. *)
Lemma buildTransaction_outputs (t : AddressType) (utxos : list UTXO)
    (outputs : list (resolvedOutput L)) (change : Z) (tx : MsgTx) :
  buildTransaction L w t utxos outputs change = Ok tx ->
  0 <= change /\ outputs <> [] /\
  List.length (TxIns tx) = List.length utxos /\
  ((change <= dustThreshold /\ TxOuts tx = map toTxOut outputs) \/
   (dustThreshold < change /\
    exists changeScript,
      TxOuts tx = map toTxOut outputs ++ [mkTxOut change changeScript])).
Proof.
  unfold buildTransaction.
  destruct (Z.eqb_spec (len outputs) 0) as [E | NE]; [discriminate | ].
  destruct (Z.ltb_spec change 0) as [Hneg | Hpos]; [discriminate | ].
  destruct (addInputsChecked L utxos 0 (NewMsgTx TxVersion)) as [tx0 | e] eqn:Ea;
    [ | discriminate].
  destruct (addInputsChecked_spec _ _ _ _ Ea) as [Ho Hl].
  destruct (addOutputs_spec outputs tx0) as [Hao Hai].
  cbn [NewMsgTx TxOuts TxIns List.length Nat.add] in Ho, Hl.
  rewrite Ho in Hao. cbn [app] in Hao.
  assert (Hne : outputs <> []) by (intros ->; apply NE; reflexivity).
  destruct (Z.gtb_spec change dustThreshold) as [Hgt | Hle].
  - destruct (GetAddress L w t) as [changeAddr | ]; [ | discriminate].
    destruct (decodeAddress L changeAddr (network w)) as [obj | ];
      [ | discriminate].
    destruct (payToAddrScript L obj) as [changeScript | ]; [ | discriminate].
    intros H. inversion H; subst. cbn [AddTxOut TxIns TxOuts].
    split; [lia | ]. split; [exact Hne | ]. split; [congruence | ].
    right. split; [lia | ]. exists changeScript. now rewrite Hao.
  - intros H. inversion H; subst.
    split; [lia | ]. split; [exact Hne | ]. split; [congruence | ].
    left. split; [lia | exact Hao].
Qed.

End Builder.

(** The pay flow as a whole inherits the stuck loop: for that rate, one
    coin of 1000 and one request of 600, [SendMany] never returns. *)
Lemma SendMany_stuck :
  forall fuel : nat,
    SendMany insertionSorter (testLibWith [mkUTXO "aa" 0 1000])
      (walletWithRate 48038396025285290) fuel P2PKH
      [mkPaymentOutput "tb1q-dest" 600] = None.
Proof.
  intros fuel. unfold SendMany.
  set (r := resolvePaymentOutputs _ _ _). vm_compute in r. subst r.
  cbv iota beta.
  set (a := GetAddress _ _ _). vm_compute in a. subst a. cbv iota beta.
  set (u := GetUTXOs _ _ _). vm_compute in u. subst u. cbv iota beta.
  change (len [mkUTXO "aa" 0 1000] =? 0) with false. cbv iota.
  change (len [mkResolvedOutput (L := testLibWith [mkUTXO "aa" 0 1000])
                 "tb1q-dest"%string [x76; xa9] 600]) with 1.
  now rewrite sendManyLoop_stuck.
Qed.

(* ================================================================== *)
(** * Further properties of the engine *)
(* ================================================================== *)

(** X1: while the size arithmetic stays in range, the legacy estimate is
    [10 + 148 n + 34 m], the taproot estimate is the rounded-down quotient
    [(4 (10 + 64 n + 31 m) + 64 n + 2) / 4], an unrecognised family gives 250,
    and every estimate is strictly positive. *)
Theorem EstimateTxSize_legacy_taproot_default (n m : Z) (t : AddressType) :
  sizes_in_range n m ->
  EstimateTxSize n m P2PKH = 10 + 148 * n + 34 * m /\
  EstimateTxSize n m P2TR = (4 * (10 + 64 * n + 31 * m) + (64 * n + 2)) / 4 /\
  (forall tag, EstimateTxSize n m (OtherType tag) = 250) /\
  0 < EstimateTxSize n m t.
Proof.
  intros H. rewrite !EstimateTxSize_exact by assumption. cbn [txSizeZ].
  split; [reflexivity | ]. split; [reflexivity | ]. split; [reflexivity | ].
  apply txSizeZ_pos; unfold sizes_in_range in H; lia.
Qed.

Lemma EstimateTxSize_legacy_taproot_default_witness :
  EstimateTxSize 3 2 P2PKH = 10 + 148 * 3 + 34 * 2 /\
  EstimateTxSize 3 2 P2TR = (4 * (10 + 64 * 3 + 31 * 2) + (64 * 3 + 2)) / 4 /\
  (forall tag, EstimateTxSize 3 2 (OtherType tag) = 250) /\
  0 < EstimateTxSize 3 2 P2SH.
Proof.
  apply (EstimateTxSize_legacy_taproot_default 3 2 P2SH).
  unfold sizes_in_range, I64.max_int; lia.
Defined.

Lemma txSizeZ_output_cost (n m : Z) (t : AddressType) :
  txSizeZ n (m + 1) t - txSizeZ n m t =
  match t with
  | P2PKH | P2SH => 34
  | P2WPKH | P2TR => 31
  | OtherType _ => 0
  end.
Proof.
  destruct t; cbn [txSizeZ]; try lia.
  - replace (4 * (10 + 64 * n + 31 * (m + 1)) + (107 * n + 2))
      with (4 * (10 + 64 * n + 31 * m) + (107 * n + 2) + 31 * 4) by lia.
    rewrite Z.div_add by lia. lia.
  - replace (4 * (10 + 148 * n + 34 * (m + 1)) + (107 * n + 2))
      with (4 * (10 + 148 * n + 34 * m) + (107 * n + 2) + 34 * 4) by lia.
    rewrite Z.div_add by lia. lia.
  - replace (4 * (10 + 64 * n + 31 * (m + 1)) + (64 * n + 2))
      with (4 * (10 + 64 * n + 31 * m) + (64 * n + 2) + 31 * 4) by lia.
    rewrite Z.div_add by lia. lia.
Qed.

(** X2: one more output costs exactly 34 size units for the legacy and
    nested-segwit families, 31 for segwit-v0 and taproot, and nothing for an
    unrecognised family; one more input always costs something for the four
    recognised families. *)
Theorem EstimateTxSize_marginal_cost (n m : Z) (t : AddressType) :
  0 <= n -> 0 <= m ->
  sizes_in_range (n + 1) (m + 1) ->
  EstimateTxSize n (m + 1) t - EstimateTxSize n m t =
    match t with
    | P2PKH | P2SH => 34
    | P2WPKH | P2TR => 31
    | OtherType _ => 0
    end
  /\
  match t with
  | OtherType _ => EstimateTxSize (n + 1) m t = EstimateTxSize n m t
  | _ => EstimateTxSize n m t + 64 <= EstimateTxSize (n + 1) m t
  end.
Proof.
  intros Hn Hm H.
  assert (H1 : sizes_in_range n (m + 1)) by (unfold sizes_in_range in *; lia).
  assert (H2 : sizes_in_range n m) by (unfold sizes_in_range in *; lia).
  assert (H3 : sizes_in_range (n + 1) m) by (unfold sizes_in_range in *; lia).
  rewrite !EstimateTxSize_exact by assumption.
  split; [apply txSizeZ_output_cost | ].
  destruct t; cbn [txSizeZ]; try lia.
  - replace (4 * (10 + 64 * (n + 1) + 31 * m) + (107 * (n + 1) + 2))
      with (4 * (10 + 64 * n + 31 * m) + (107 * n + 2) + 107 + 64 * 4) by lia.
    rewrite Z.div_add by lia.
    pose proof (Z.div_le_mono (4 * (10 + 64 * n + 31 * m) + (107 * n + 2))
                  (4 * (10 + 64 * n + 31 * m) + (107 * n + 2) + 107) 4
                  ltac:(lia) ltac:(lia)). lia.
  - replace (4 * (10 + 148 * (n + 1) + 34 * m) + (107 * (n + 1) + 2))
      with (4 * (10 + 148 * n + 34 * m) + (107 * n + 2) + 107 + 148 * 4) by lia.
    rewrite Z.div_add by lia.
    pose proof (Z.div_le_mono (4 * (10 + 148 * n + 34 * m) + (107 * n + 2))
                  (4 * (10 + 148 * n + 34 * m) + (107 * n + 2) + 107) 4
                  ltac:(lia) ltac:(lia)). lia.
  - replace (4 * (10 + 64 * (n + 1) + 31 * m) + (64 * (n + 1) + 2))
      with (4 * (10 + 64 * n + 31 * m) + (64 * n + 2) + 64 + 64 * 4) by lia.
    rewrite Z.div_add by lia.
    pose proof (Z.div_le_mono (4 * (10 + 64 * n + 31 * m) + (64 * n + 2))
                  (4 * (10 + 64 * n + 31 * m) + (64 * n + 2) + 64) 4
                  ltac:(lia) ltac:(lia)). lia.
Qed.

Lemma EstimateTxSize_marginal_cost_witness :
  EstimateTxSize 2 (1 + 1) P2WPKH - EstimateTxSize 2 1 P2WPKH = 31 /\
  EstimateTxSize 2 1 P2WPKH + 64 <= EstimateTxSize (2 + 1) 1 P2WPKH.
Proof.
  apply (EstimateTxSize_marginal_cost 2 1 P2WPKH); try lia.
  unfold sizes_in_range, I64.max_int; lia.
Defined.

(** X3: for the same numbers of inputs and outputs the estimates are
    ordered taproot <= segwit-v0 <= legacy <= nested-segwit: the nested
    estimate adds the witness discount on top of the full legacy size. *)
Theorem EstimateTxSize_family_order (n m : Z) :
  sizes_in_range n m ->
  EstimateTxSize n m P2TR <= EstimateTxSize n m P2WPKH /\
  EstimateTxSize n m P2WPKH <= EstimateTxSize n m P2PKH /\
  EstimateTxSize n m P2PKH <= EstimateTxSize n m P2SH.
Proof.
  intros H. rewrite !EstimateTxSize_exact by assumption. cbn [txSizeZ].
  unfold sizes_in_range in H. destruct H as (Hn & Hm & _).
  split; [apply Z.div_le_mono; lia | ]. split.
  - apply Z.lt_succ_r. apply Z.div_lt_upper_bound; lia.
  - apply Z.div_le_lower_bound; lia.
Qed.

Lemma EstimateTxSize_family_order_witness :
  EstimateTxSize 1 2 P2TR <= EstimateTxSize 1 2 P2WPKH /\
  EstimateTxSize 1 2 P2WPKH <= EstimateTxSize 1 2 P2PKH /\
  EstimateTxSize 1 2 P2PKH <= EstimateTxSize 1 2 P2SH.
Proof.
  apply (EstimateTxSize_family_order 1 2).
  unfold sizes_in_range, I64.max_int; lia.
Defined.

(** X4: the fee-rate floor.  [SetFeeRate] stores any rate, and every fee
    computation treats a stored rate [<= 0] exactly as the rate 1: the fee
    estimate, the fee/change decision and the sweep amount coincide with
    those of a wallet whose rate is 1. *)
Theorem fee_rate_floor (w : BitcoinWallet) (r : Z) :
  r <= 0 ->
  GetFeeRate (SetFeeRate w r) = r /\
  (forall n m t,
      estimateFee (SetFeeRate w r) n m t = estimateFee (SetFeeRate w 1) n m t) /\
  (forall t R k utxos V,
      computeFeeAndChange (SetFeeRate w r) t R k utxos V
      = computeFeeAndChange (SetFeeRate w 1) t R k utxos V) /\
  (forall t utxos,
      sweepTransferAmount (SetFeeRate w r) t utxos
      = sweepTransferAmount (SetFeeRate w 1) t utxos).
Proof.
  intros Hr.
  assert (Hfee : forall n m t,
             estimateFee (SetFeeRate w r) n m t
             = estimateFee (SetFeeRate w 1) n m t).
  { intros n m t. unfold estimateFee, SetFeeRate. cbn [feeRate].
    destruct (Z.leb_spec r 0) as [_ | Hgt]; [reflexivity | lia]. }
  split; [reflexivity | ]. split; [exact Hfee | ]. split.
  - intros t R k utxos V. unfold computeFeeAndChange. now rewrite !Hfee.
  - intros t utxos. unfold sweepTransferAmount, SetFeeRate. cbn [feeRate].
    destruct (Z.leb_spec r 0) as [_ | Hgt]; [reflexivity | lia].
Qed.

Lemma fee_rate_floor_witness :
  let w := walletWithRate 5 in
  estimateFee (SetFeeRate w (-3)) 1 2 P2WPKH = 163 /\
  (forall n m t,
      estimateFee (SetFeeRate w (-3)) n m t = estimateFee (SetFeeRate w 1) n m t).
Proof.
  intros w. split; [reflexivity | ].
  apply (fee_rate_floor w (-3)). lia.
Defined.

(** X5: in range, the solver reports a shortfall (negative change) exactly
    when the selection's value is below the requested total plus the fee
    without a change output; it then returns that fee and the exact
    deficit, so that [totalAmount + fee] is the next target. *)
Theorem computeFeeAndChange_shortfall
    (w : BitcoinWallet) (t : AddressType) (R k : Z) (utxos : list UTXO) (V : Z) :
  0 <= V <= I64.max_int ->
  0 < R ->
  0 <= k ->
  utxos <> [] ->
  sizes_in_range (len utxos) (k + 1) ->
  R + EstimateTxSize (len utxos) (k + 1) t * Z.max 1 (feeRate w) <= I64.max_int ->
  let f0 := EstimateTxSize (len utxos) k t * Z.max 1 (feeRate w) in
  (snd (computeFeeAndChange w t R k utxos V) < 0 <-> V < R + f0) /\
  (V < R + f0 -> computeFeeAndChange w t R k utxos V = (f0, V - (R + f0))).
Proof.
  intros HV HR Hk Hne Hs Hb.
  assert (Hs0 : sizes_in_range (len utxos) k)
    by (apply sizes_in_range_outputs with (k + 1); [lia | assumption]).
  rewrite (EstimateTxSize_exact _ _ _ Hs) in Hb.
  rewrite (EstimateTxSize_exact _ _ _ Hs0).
  destruct (computeFeeAndChange_in_range w t R k utxos V HV HR Hk Hne Hs Hb)
    as [Hf Heq].
  cbv zeta. rewrite Heq.
  set (f0 := txSizeZ (len utxos) k t * Z.max 1 (feeRate w)) in *.
  set (f1 := txSizeZ (len utxos) (k + 1) t * Z.max 1 (feeRate w)) in *.
  destruct (Z.ltb_spec (V - R - f0) 0) as [L0 | G0].
  - cbn [snd]. split; [lia | ]. intros _. f_equal. lia.
  - split; [ | lia].
    destruct (Z.gtb_spec (V - R - f1) dustThreshold) as [G1 | L1]; cbn [snd];
      unfold dustThreshold in *; lia.
Qed.

Lemma computeFeeAndChange_shortfall_witness :
  let w := walletWithRate 1 in
  let coins := [mkUTXO "00" 0 600] in
  computeFeeAndChange w P2WPKH 546 1 coins 600 = (132, 600 - (546 + 132)).
Proof.
  intros w coins.
  refine (proj2 (computeFeeAndChange_shortfall w P2WPKH 546 1 coins 600
                   _ _ _ _ _ _) _).
  - unfold I64.max_int; lia.
  - lia.
  - lia.
  - discriminate.
  - unfold sizes_in_range, I64.max_int; cbn; lia.
  - vm_compute; discriminate.
  - vm_compute; reflexivity.
Defined.

(** X6: in range, a decision with change [>= 0] never pays less than the
    fee without a change output and never more than the fee with one plus
    the dust threshold; a change output is decided exactly when what is
    left after the fee with a change output exceeds 546, and then the fee is
    that fee. *)
Theorem computeFeeAndChange_fee_bounds
    (w : BitcoinWallet) (t : AddressType) (R k : Z) (utxos : list UTXO) (V : Z)
    (fee change : Z) :
  0 <= V <= I64.max_int ->
  0 < R ->
  0 <= k ->
  utxos <> [] ->
  sizes_in_range (len utxos) (k + 1) ->
  R + EstimateTxSize (len utxos) (k + 1) t * Z.max 1 (feeRate w) <= I64.max_int ->
  computeFeeAndChange w t R k utxos V = (fee, change) ->
  0 <= change ->
  let f0 := EstimateTxSize (len utxos) k t * Z.max 1 (feeRate w) in
  let f1 := EstimateTxSize (len utxos) (k + 1) t * Z.max 1 (feeRate w) in
  0 < f0 <= fee /\ fee <= f1 + dustThreshold /\
  (0 < change <-> dustThreshold < V - R - f1) /\
  (0 < change -> fee = f1).
Proof.
  intros HV HR Hk Hne Hs Hb Hc Hch.
  assert (Hs0 : sizes_in_range (len utxos) k)
    by (apply sizes_in_range_outputs with (k + 1); [lia | assumption]).
  rewrite (EstimateTxSize_exact _ _ _ Hs) in Hb.
  rewrite (EstimateTxSize_exact _ _ _ Hs), (EstimateTxSize_exact _ _ _ Hs0).
  destruct (computeFeeAndChange_in_range w t R k utxos V HV HR Hk Hne Hs Hb)
    as [Hf Heq].
  rewrite Heq in Hc. clear Heq. cbv zeta.
  set (f0 := txSizeZ (len utxos) k t * Z.max 1 (feeRate w)) in *.
  set (f1 := txSizeZ (len utxos) (k + 1) t * Z.max 1 (feeRate w)) in *.
  unfold dustThreshold in *.
  destruct (Z.ltb_spec (V - R - f0) 0) as [L0 | G0].
  - inversion Hc; subst. lia.
  - destruct (Z.gtb_spec (V - R - f1) 546) as [G1 | L1];
      inversion Hc; subst; lia.
Qed.

Lemma computeFeeAndChange_fee_bounds_witness :
  let w := walletWithRate 1 in
  let coins := [mkUTXO "00" 0 2000] in
  computeFeeAndChange w P2WPKH 1500 1 coins 2000 = (500, 0) /\
  0 < EstimateTxSize (len coins) 1 P2WPKH * Z.max 1 (feeRate w) <= 500 /\
  500 <= EstimateTxSize (len coins) (1 + 1) P2WPKH * Z.max 1 (feeRate w)
         + dustThreshold.
Proof.
  intros w coins. split; [vm_compute; reflexivity | ].
  assert (Hv : 0 <= 2000 <= I64.max_int) by (unfold I64.max_int; lia).
  assert (Hs : sizes_in_range (len coins) (1 + 1))
    by (unfold sizes_in_range, I64.max_int; cbn; lia).
  assert (Hb : 1500 + EstimateTxSize (len coins) (1 + 1) P2WPKH
                      * Z.max 1 (feeRate w) <= I64.max_int)
    by (vm_compute; discriminate).
  assert (Hne : coins <> []) by discriminate.
  assert (Hc : computeFeeAndChange w P2WPKH 1500 1 coins 2000 = (500, 0))
    by (vm_compute; reflexivity).
  destruct (computeFeeAndChange_fee_bounds w P2WPKH 1500 1 coins 2000 500 0
              Hv ltac:(lia) ltac:(lia) Hne Hs Hb Hc ltac:(lia))
    as (H1 & H2 & _).
  split; assumption.
Defined.

Section CoinSelectorUniversal.

Variable S : ValueSorter.

Lemma runningTotal_cons (acc : Z) (u : UTXO) (l : list UTXO) :
  runningTotal acc (u :: l) = runningTotal (I64.add acc (Value u)) l.
Proof. reflexivity. Qed.

(** The loop on any input, wrap-around included: a success is the first
    prefix whose running 64-bit total reaches the target. *)
Lemma selectLoop_prefix (amount : Z) (rest : list UTXO) :
  forall (selected : list UTXO) (total : Z),
    match selectLoop rest selected total amount with
    | Ok (sel, t) =>
        exists k : nat,
          (0 < k <= List.length rest)%nat /\
          sel = selected ++ firstn k rest /\
          t = runningTotal total (firstn k rest) /\
          amount <= t /\
          (forall j : nat, (0 < j < k)%nat ->
             runningTotal total (firstn j rest) < amount)
    | Err e =>
        e = ErrInsufficientFunds amount (runningTotal total rest) /\
        (forall j : nat, (0 < j <= List.length rest)%nat ->
           runningTotal total (firstn j rest) < amount)
    end.
Proof.
  induction rest as [ | u rest IH]; intros selected total.
  - cbn. split; [reflexivity | intros j Hj; lia].
  - cbn [selectLoop]. cbv zeta.
    destruct (Z.geb_spec (I64.add total (Value u)) amount) as [Hge | Hlt].
    + exists 1%nat. cbn [List.length firstn]. split; [lia | ].
      split; [reflexivity | ]. split; [reflexivity | ].
      split; [exact Hge | intros j Hj; lia].
    + specialize (IH (selected ++ [u]) (I64.add total (Value u))).
      destruct (selectLoop rest (selected ++ [u]) (I64.add total (Value u)) amount)
        as [[sel t] | e].
      * destruct IH as (k & Hk & Hsel & Ht & Ha & Hfirst).
        exists (Datatypes.S k). cbn [List.length firstn].
        rewrite runningTotal_cons. split; [lia | ].
        split; [rewrite Hsel, <- app_assoc; reflexivity | ].
        split; [exact Ht | ]. split; [exact Ha | ].
        intros j Hj. destruct j as [ | [ | j]]; [lia | exact Hlt | ].
        cbn [firstn]. rewrite runningTotal_cons.
        apply (Hfirst (Datatypes.S j)). lia.
      * destruct IH as [He Hall]. rewrite runningTotal_cons.
        split; [exact He | ].
        intros j Hj. destruct j as [ | [ | j]]; [lia | exact Hlt | ].
        cbn [firstn]. rewrite runningTotal_cons.
        apply (Hall (Datatypes.S j)). cbn [List.length] in Hj. lia.
Qed.

Lemma SelectUTXOs_prefix (utxos : list UTXO) (amount : Z) :
  match SelectUTXOs S utxos amount with
  | Ok (sel, t) =>
      exists k : nat,
        (0 < k <= List.length utxos)%nat /\
        sel = firstn k (sortSlice S utxos) /\
        t = runningTotal 0 sel /\
        amount <= t /\
        (forall j : nat, (0 < j < k)%nat ->
           runningTotal 0 (firstn j (sortSlice S utxos)) < amount)
  | Err e =>
      (utxos = [] /\ e = ErrNoUTXO) \/
      (utxos <> [] /\
       e = ErrInsufficientFunds amount (runningTotal 0 (sortSlice S utxos)) /\
       forall j : nat, (0 < j <= List.length utxos)%nat ->
         runningTotal 0 (firstn j (sortSlice S utxos)) < amount)
  end.
Proof.
  pose proof (sortSlice_perm S utxos) as Hperm.
  pose proof (Permutation_length Hperm) as Hlen.
  unfold SelectUTXOs.
  destruct (Z.eqb_spec (len utxos) 0) as [E | NE].
  - left. split; [now apply len_zero_nil | reflexivity].
  - pose proof (selectLoop_prefix amount (sortSlice S utxos) [] 0) as H.
    destruct (selectLoop (sortSlice S utxos) [] 0 amount) as [[sel t] | e].
    + destruct H as (k & Hk & Hsel & Ht & Ha & Hfirst).
      exists k. cbn [app] in Hsel. subst sel.
      split; [lia | ]. split; [reflexivity | ]. split; [exact Ht | ].
      split; [exact Ha | exact Hfirst].
    + right. destruct H as [He Hall].
      split; [intros ->; apply NE; reflexivity | ].
      split; [exact He | ]. intros j Hj. apply Hall. lia.
Qed.

Lemma sorted_firstn (l : list UTXO) (k : nat) :
  StronglySorted value_le l -> StronglySorted value_le (firstn k l).
Proof.
  intros H. revert k. induction H as [ | u l Hs IH Hall]; intros k.
  - rewrite firstn_nil. constructor.
  - destruct k as [ | k]; cbn [firstn]; [constructor | ].
    constructor; [apply IH | ].
    rewrite Forall_forall in *. intros x Hx. apply Hall.
    rewrite <- (firstn_skipn k l). apply in_or_app. now left.
Qed.

Lemma sorted_prefix_below_rest (l : list UTXO) (k : nat) :
  StronglySorted value_le l ->
  Forall (fun s => Forall (fun u => Value s <= Value u) (skipn k l)) (firstn k l).
Proof.
  intros H. revert k. induction H as [ | u l Hs IH Hall]; intros k.
  - rewrite firstn_nil. constructor.
  - destruct k as [ | k]; cbn [firstn skipn]; [constructor | ].
    constructor; [ | apply IH].
    rewrite Forall_forall in *. intros x Hx. apply Hall.
    rewrite <- (firstn_skipn k l). apply in_or_app. now right.
Qed.

End CoinSelectorUniversal.

(** X7: on every input, wrap-around included, a successful selection is
    not empty, its total is the running 64-bit sum of the selected coins and
    is at least the target; an empty coin list is refused as such, and the
    insufficient-funds error reports the target and the running total of
    all coins. *)
Theorem SelectUTXOs_result
    (S : ValueSorter) (utxos : list UTXO) (amount : Z) :
  match SelectUTXOs S utxos amount with
  | Ok (sel, total) =>
      sel <> [] /\ total = runningTotal 0 sel /\ amount <= total
  | Err e =>
      (utxos = [] /\ e = ErrNoUTXO) \/
      (utxos <> [] /\
       e = ErrInsufficientFunds amount (runningTotal 0 (sortSlice S utxos)))
  end.
Proof.
  pose proof (SelectUTXOs_prefix S utxos amount) as H.
  pose proof (Permutation_length (sortSlice_perm S utxos)) as Hlen.
  destruct (SelectUTXOs S utxos amount) as [[sel total] | e].
  - destruct H as (k & Hk & Hsel & Ht & Ha & _).
    split; [ | split; assumption].
    intros E. rewrite E in Hsel. symmetry in Hsel.
    apply (f_equal (@List.length UTXO)) in Hsel.
    rewrite length_firstn in Hsel. cbn in Hsel. lia.
  - destruct H as [H | (Hne & He & _)]; [now left | right; now split].
Qed.

(** X8: the selected coins are coins of the list, each taken at most as
    often as it occurs there: together with the coins left over they are a
    rearrangement of the input.  They come in ascending value, and no coin
    left over is worth less than a selected one. *)
Theorem SelectUTXOs_selects_smallest
    (S : ValueSorter) (utxos : list UTXO) (amount : Z) :
  match SelectUTXOs S utxos amount with
  | Ok (sel, _) =>
      exists rest,
        Permutation utxos (sel ++ rest) /\
        StronglySorted value_le sel /\
        Forall (fun s => Forall (fun u => Value s <= Value u) rest) sel
  | Err _ => True
  end.
Proof.
  pose proof (SelectUTXOs_prefix S utxos amount) as H.
  destruct (SelectUTXOs S utxos amount) as [[sel total] | e]; [ | exact I].
  destruct H as (k & _ & Hsel & _). subst sel.
  exists (skipn k (sortSlice S utxos)). split; [ | split].
  - rewrite firstn_skipn. apply sortSlice_perm.
  - apply sorted_firstn, sortSlice_sorted.
  - apply sorted_prefix_below_rest, sortSlice_sorted.
Qed.

(** X9: raising the target never drops a coin: whenever both selections
    succeed, the selection for the smaller target is a prefix of the one
    for the larger target. *)
Theorem SelectUTXOs_monotone
    (S : ValueSorter) (utxos : list UTXO) (a a' : Z)
    (sel sel' : list UTXO) (total total' : Z) :
  a <= a' ->
  SelectUTXOs S utxos a = Ok (sel, total) ->
  SelectUTXOs S utxos a' = Ok (sel', total') ->
  exists more, sel' = sel ++ more.
Proof.
  intros Ha H H'.
  pose proof (SelectUTXOs_prefix S utxos a) as P.
  pose proof (SelectUTXOs_prefix S utxos a') as P'.
  rewrite H in P. rewrite H' in P'.
  destruct P as (k & Hk & Hsel & Ht & Hge & Hfirst).
  destruct P' as (k' & Hk' & Hsel' & Ht' & Hge' & Hfirst').
  assert (Hkk : (k <= k')%nat).
  { destruct (Nat.le_gt_cases k k') as [ | Hlt]; [assumption | ].
    specialize (Hfirst k' ltac:(lia)). rewrite <- Hsel', <- Ht' in Hfirst. lia. }
  exists (skipn k sel').
  rewrite <- (firstn_skipn k sel') at 1. f_equal.
  rewrite Hsel', Hsel, firstn_firstn. f_equal. lia.
Qed.

Lemma SelectUTXOs_monotone_witness :
  let a := mkUTXO "aa" 0 700 in
  let b := mkUTXO "bb" 1 300 in
  let c := mkUTXO "cc" 0 5000 in
  SelectUTXOs insertionSorter [a; b; c] 200 = Ok ([b], 300) /\
  SelectUTXOs insertionSorter [a; b; c] 1123 = Ok ([b; a; c], 6000) /\
  exists more, [b; a; c] = [b] ++ more.
Proof.
  intros a b c. split; [reflexivity | ]. split; [reflexivity | ].
  apply (SelectUTXOs_monotone insertionSorter [a; b; c] 200 1123
           [b] [b; a; c] 300 6000); [lia | reflexivity | reflexivity].
Defined.

(** X10: in range and for a positive target, a selection is minimal among
    the smallest-first prefixes: without its last (largest) coin the
    selected coins fall short of the target. *)
Theorem SelectUTXOs_no_spare_coin
    (S : ValueSorter) (utxos : list UTXO) (amount : Z)
    (sel : list UTXO) (total : Z) :
  Forall (fun u => 0 <= Value u) utxos ->
  sumValues utxos <= I64.max_int ->
  0 < amount ->
  SelectUTXOs S utxos amount = Ok (sel, total) ->
  sumValues (removelast sel) < amount /\ amount <= sumValues sel.
Proof.
  intros Hnn Hsum Hpos H.
  pose proof (sortSlice_perm S utxos) as Hperm.
  assert (Hnn' : Forall (fun u => 0 <= Value u) (sortSlice S utxos))
    by (eapply Permutation_Forall; eassumption).
  destruct (selectLoop_in_range amount (sortSlice S utxos) [] 0 Hnn'
              ltac:(lia) ltac:(rewrite sumValues_sorted; lia)) as [H1 _].
  unfold SelectUTXOs in H.
  destruct (len utxos =? 0); [discriminate H | ].
  destruct (H1 sel total H) as (k & Hk & Hsel & Ht & Ha & Hfirst).
  cbn [app] in Hsel. cbn [Z.add] in Ht, Hfirst. subst sel.
  split; [ | lia].
  destruct k as [ | k]; [lia | ].
  assert (Hrl : removelast (firstn (Datatypes.S k) (sortSlice S utxos))
                = firstn k (sortSlice S utxos)).
  { rewrite removelast_firstn by lia. reflexivity. }
  rewrite Hrl. destruct k as [ | k]; [cbn; lia | ].
  apply Hfirst. lia.
Qed.

Lemma SelectUTXOs_no_spare_coin_witness :
  let a := mkUTXO "aa" 0 700 in
  let b := mkUTXO "bb" 1 300 in
  let c := mkUTXO "cc" 0 5000 in
  sumValues (removelast [b; a]) < 900 /\ 900 <= sumValues [b; a].
Proof.
  intros a b c.
  apply (SelectUTXOs_no_spare_coin insertionSorter [a; b; c] 900 [b; a] 1000).
  - repeat constructor; cbn; lia.
  - vm_compute; discriminate.
  - lia.
  - reflexivity.
Defined.

Section ResolvedOutputs.

Variable L : Collaborators.
Variable w : BitcoinWallet.

Lemma decodeAndValidateAddress_for_net (addr : string) (a : btcAddress L) :
  decodeAndValidateAddress L w addr = inl a ->
  decodeAddress L (trimSpace L addr) (network w) = Some a /\
  isForNet L a (network w) = true /\
  trimSpace L addr <> ""%string.
Proof.
  unfold decodeAndValidateAddress. cbv zeta.
  destruct (String.eqb_spec (trimSpace L addr) "") as [E | NE]; [discriminate | ].
  destruct (decodeAddress L (trimSpace L addr) (network w)) as [d | ];
    [ | discriminate].
  destruct (isForNet L d (network w)) eqn:En; cbn [negb]; [ | discriminate].
  intros H. inversion H; subst. auto.
Qed.

Lemma resolved_facts (outputs : list PaymentOutput)
    (res : list (resolvedOutput L)) :
  Forall (entry_ok L w) outputs ->
  Forall2 (entry_resolves L w) outputs res ->
  List.length res = List.length outputs /\
  map amount res = map Amount outputs /\
  sumResolved res = sumAmounts outputs /\
  dustThreshold * len outputs <= sumAmounts outputs /\
  Forall (fun r => dustThreshold <= amount r /\
                   isForNet L (address r) (network w) = true /\
                   payToAddrScript L (address r) = Some (script r)) res.
Proof.
  intros Hok H2. revert Hok.
  induction H2 as [ | o r outs rs (Hd & Hs & Ha) _ IH]; intros Hok.
  - cbn. unfold len. cbn. repeat split; try lia. constructor.
  - inversion Hok as [ | ? ? [Ho _] Hrest]; subst.
    destruct (IH Hrest) as (Hl & Hm & Hsum & Hdust & Hall).
    destruct (decodeAndValidateAddress_for_net _ _ Hd) as (_ & Hnet & _).
    cbn [List.length map sumResolved sumAmounts].
    split; [lia | ]. split; [congruence | ]. split; [lia | ]. split.
    + unfold len in *. cbn [List.length]. unfold dustThreshold in *. lia.
    + constructor; [ | exact Hall]. split; [lia | ]. split; assumption.
Qed.

End ResolvedOutputs.

(** X11: what a successful resolution guarantees: as many resolved outputs
    as requests, with the requested amounts in order, each at least 546 and
    locked to the script of an address of the wallet's network; the total is
    their exact sum, at least 546 per output and inside the signed 64-bit
    range. *)
Theorem resolvePaymentOutputs_success
    (L : Collaborators) (w : BitcoinWallet) (outputs : list PaymentOutput)
    (res : list (resolvedOutput L)) (total : Z) :
  Forall (fun o => I64.in_range (Amount o)) outputs ->
  resolvePaymentOutputs L w outputs = Ok (res, total) ->
  outputs <> [] /\
  List.length res = List.length outputs /\
  map amount res = map Amount outputs /\
  total = sumResolved res /\
  dustThreshold * len outputs <= total <= I64.max_int /\
  Forall (fun r => dustThreshold <= amount r /\
                   isForNet L (address r) (network w) = true /\
                   payToAddrScript L (address r) = Some (script r)) res.
Proof.
  intros Hr H. unfold resolvePaymentOutputs in H.
  destruct (Z.eqb_spec (len outputs) 0) as [E | NE]; [discriminate | ].
  pose proof (resolveLoop_spec L w outputs 0 [] 0 Hr
                ltac:(unfold I64.max_int; lia)) as Hloop.
  rewrite H in Hloop.
  destruct Hloop as (Hall & Hsum & Hle & fresh & Hfresh & Hf2).
  cbn [app] in Hfresh. subst fresh.
  destruct (resolved_facts L w outputs res Hall Hf2)
    as (Hl & Hm & Hs & Hd & Hres).
  split; [intros ->; apply NE; reflexivity | ].
  split; [exact Hl | ]. split; [exact Hm | ]. split; [lia | ].
  split; [lia | exact Hres].
Qed.

Lemma resolvePaymentOutputs_success_witness :
  let w := walletWithRate 1 in
  let outs := [mkPaymentOutput "tb1q-a" 1500; mkPaymentOutput "tb1q-b" 1200] in
  exists res,
    resolvePaymentOutputs testLib w outs = Ok (res, 2700) /\
    List.length res = List.length outs /\
    map amount res = map Amount outs.
Proof.
  intros w outs. eexists. split; [vm_compute; reflexivity | ].
  match goal with
  | |- List.length ?r = _ /\ _ =>
      destruct (resolvePaymentOutputs_success testLib w outs r 2700)
        as (_ & Hl & Hm & _)
  end.
  - repeat constructor; vm_compute; discriminate.
  - vm_compute; reflexivity.
  - split; assumption.
Defined.

Section BuilderShape.

Variable L : Collaborators.
Variable w : BitcoinWallet.

Lemma addInputsChecked_full (utxos : list UTXO) :
  forall (idx : Z) (tx : MsgTx),
    match addInputsChecked L utxos idx tx with
    | Ok tx' =>
        Version tx' = Version tx /\ LockTime tx' = LockTime tx /\
        TxOuts tx' = TxOuts tx /\
        Forall (coin_parses L) utxos /\
        exists ins,
          TxIns tx' = TxIns tx ++ ins /\ Forall2 (input_of_coin L) utxos ins
    | Err e =>
        exists pre u post,
          utxos = pre ++ u :: post /\
          Forall (coin_parses L) pre /\
          ((TxID u = ""%string /\ e = ErrMissingTxID (idx + len pre)) \/
           (TxID u <> ""%string /\ newHashFromStr L (TxID u) = None /\
            e = ErrParseTxHash))
    end.
Proof.
  induction utxos as [ | u rest IH]; intros idx tx.
  - cbn. repeat split; try constructor.
    exists []. rewrite app_nil_r. split; [reflexivity | constructor].
  - cbn [addInputsChecked].
    destruct (String.eqb_spec (TxID u) "") as [E | NE].
    { exists [], u, rest. split; [reflexivity | ]. split; [constructor | ].
      left. split; [exact E | ]. f_equal. unfold len. cbn. lia. }
    destruct (newHashFromStr L (TxID u)) as [txHash | ] eqn:Eh.
    2:{ exists [], u, rest. split; [reflexivity | ]. split; [constructor | ].
        right. auto. }
    specialize (IH (idx + 1) (AddTxIn (NewTxIn txHash (Vout u)) tx)).
    destruct (addInputsChecked L rest (idx + 1) _) as [tx' | e].
    + destruct IH as (Hv & Hl & Ho & Hall & ins & Hins & H2).
      cbn [AddTxIn Version LockTime TxOuts TxIns] in Hv, Hl, Ho, Hins.
      split; [exact Hv | ]. split; [exact Hl | ]. split; [exact Ho | ].
      split.
      * constructor; [ | exact Hall]. split; [exact NE | congruence].
      * exists (NewTxIn txHash (Vout u) :: ins). split.
        -- rewrite Hins, <- app_assoc. reflexivity.
        -- constructor; [ | exact H2]. exists txHash. auto.
    + destruct IH as (pre & u' & post & Heq & Hpre & Hcase).
      exists (u :: pre), u', post. split; [now rewrite Heq | ].
      split; [constructor; [split; [exact NE | congruence] | exact Hpre] | ].
      replace (idx + len (u :: pre)) with (idx + 1 + len pre)
        by (unfold len; cbn [List.length]; lia).
      exact Hcase.
Qed.

Lemma inputs_of_coins_unsigned (utxos : list UTXO) (ins : list TxIn) :
  Forall2 (input_of_coin L) utxos ins ->
  Forall (fun ti => SignatureScript ti = [] /\ Witness ti = []) ins.
Proof.
  induction 1 as [ | u ti us tis (h & _ & ->) _ IH]; constructor;
    [split; reflexivity | exact IH].
Qed.

Lemma sumOutValues_app (a b : list TxOut) :
  sumOutValues (a ++ b) = sumOutValues a + sumOutValues b.
Proof. induction a as [ | o a IH]; cbn [app sumOutValues]; lia. Qed.

Lemma sumOutValues_resolved (res : list (resolvedOutput L)) :
  sumOutValues (map toTxOut res) = sumResolved res.
Proof.
  induction res as [ | r res IH]; [reflexivity | ].
  cbn [map sumOutValues sumResolved]. rewrite IH. reflexivity.
Qed.

Lemma buildTransaction_full (t : AddressType) (utxos : list UTXO)
    (outputs : list (resolvedOutput L)) (change : Z) :
  match buildTransaction L w t utxos outputs change with
  | Ok tx =>
      outputs <> [] /\ 0 <= change /\
      Version tx = TxVersion /\ LockTime tx = 0 /\
      Forall2 (input_of_coin L) utxos (TxIns tx) /\
      ((change <= dustThreshold /\ TxOuts tx = map toTxOut outputs) \/
       (dustThreshold < change /\
        exists sc, change_script L w t sc /\
                   TxOuts tx = map toTxOut outputs ++ [mkTxOut change sc]))
  | Err e =>
      (outputs = [] /\ e = ErrMissingOutputs) \/
      (outputs <> [] /\ change < 0 /\ e = ErrInvalidChange change) \/
      (outputs <> [] /\ 0 <= change /\
       exists pre u post,
         utxos = pre ++ u :: post /\
         Forall (coin_parses L) pre /\
         ((TxID u = ""%string /\ e = ErrMissingTxID (len pre)) \/
          (TxID u <> ""%string /\ newHashFromStr L (TxID u) = None /\
           e = ErrParseTxHash))) \/
      (outputs <> [] /\ dustThreshold < change /\
       Forall (coin_parses L) utxos /\
       (forall sc, ~ change_script L w t sc) /\
       (e = ErrChangeAddress \/ e = ErrChangeDecode \/ e = ErrChangeScript))
  end.
Proof.
  unfold buildTransaction.
  destruct (Z.eqb_spec (len outputs) 0) as [E | NE].
  { left. split; [now apply len_zero_nil | reflexivity]. }
  assert (Hne : outputs <> []) by (intros ->; apply NE; reflexivity).
  destruct (Z.ltb_spec change 0) as [Hneg | Hpos].
  { right; left. auto. }
  pose proof (addInputsChecked_full utxos 0 (NewMsgTx TxVersion)) as Hin.
  destruct (addInputsChecked L utxos 0 (NewMsgTx TxVersion)) as [tx0 | e].
  2:{ right; right; left. split; [exact Hne | ]. split; [exact Hpos | ].
      destruct Hin as (pre & u & post & Heq & Hpre & Hcase).
      exists pre, u, post. now rewrite Z.add_0_l in Hcase. }
  destruct Hin as (Hv & Hl & Ho & Hall & ins & Hins & H2).
  cbn [NewMsgTx Version LockTime TxOuts TxIns app] in Hv, Hl, Ho, Hins.
  destruct (addOutputs_spec L outputs tx0) as [Hao Hai].
  rewrite Ho in Hao. cbn [app] in Hao. subst ins.
  destruct (Z.gtb_spec change dustThreshold) as [Hgt | Hle].
  - destruct (GetAddress L w t) as [changeAddr | ] eqn:Ea.
    2:{ right; right; right. repeat (split; [assumption || lia | ]).
        split; [ | auto].
        intros sc (a & o & Ha & _). congruence. }
    destruct (decodeAddress L changeAddr (network w)) as [obj | ] eqn:Ed.
    2:{ right; right; right. repeat (split; [assumption || lia | ]).
        split; [ | auto].
        intros sc (a & o & Ha & Hd & _). congruence. }
    destruct (payToAddrScript L obj) as [sc | ] eqn:Es.
    2:{ right; right; right. repeat (split; [assumption || lia | ]).
        split; [ | auto].
        intros sc (a & o & Ha & Hd & Hs). congruence. }
    cbn [AddTxOut Version LockTime TxIns TxOuts].
    split; [exact Hne | ]. split; [exact Hpos | ].
    assert (Hver : forall l tx, Version (addOutputs (L := L) l tx) = Version tx
                                /\ LockTime (addOutputs l tx) = LockTime tx).
    { unfold addOutputs. induction l as [ | o l IH]; intros tx;
        cbn [fold_left]; [split; reflexivity | ].
      destruct (IH (AddTxOut (toTxOut o) tx)) as [-> ->]. split; reflexivity. }
    destruct (Hver outputs tx0) as [-> ->].
    split; [exact Hv | ]. split; [exact Hl | ].
    rewrite Hai. split; [exact H2 | ].
    right. split; [lia | ]. exists sc. split; [ | now rewrite Hao].
    exists changeAddr, obj. auto.
  - assert (Hver : forall l tx, Version (addOutputs (L := L) l tx) = Version tx
                                /\ LockTime (addOutputs l tx) = LockTime tx).
    { unfold addOutputs. induction l as [ | o l IH]; intros tx;
        cbn [fold_left]; [split; reflexivity | ].
      destruct (IH (AddTxOut (toTxOut o) tx)) as [-> ->]. split; reflexivity. }
    destruct (Hver outputs tx0) as [-> ->].
    split; [exact Hne | ]. split; [exact Hpos | ].
    split; [exact Hv | ]. split; [exact Hl | ].
    rewrite Hai. split; [exact H2 | ].
    left. split; [lia | exact Hao].
Qed.

End BuilderShape.

(** X12: a transaction the builder returns has version 1 and lock time 0,
    one input per coin in the given order, each pointing at the coin's
    parsed identifier and output index with final sequence number and no
    unlocking data; its outputs are the resolved outputs in order, followed
    by exactly one output to the wallet's own address when the change is
    above 546 and by nothing otherwise. *)
Theorem buildTransaction_shape
    (L : Collaborators) (w : BitcoinWallet) (t : AddressType)
    (utxos : list UTXO) (outputs : list (resolvedOutput L)) (change : Z) :
  match buildTransaction L w t utxos outputs change with
  | Ok tx =>
      outputs <> [] /\ 0 <= change /\
      Version tx = 1 /\ LockTime tx = 0 /\
      Forall2 (input_of_coin L) utxos (TxIns tx) /\
      unsigned tx /\
      ((change <= dustThreshold /\ TxOuts tx = map toTxOut outputs) \/
       (dustThreshold < change /\
        exists sc, change_script L w t sc /\
                   TxOuts tx = map toTxOut outputs ++ [mkTxOut change sc]))
  | Err _ => True
  end.
Proof.
  pose proof (buildTransaction_full L w t utxos outputs change) as H.
  destruct (buildTransaction L w t utxos outputs change) as [tx | e];
    [ | exact I].
  destruct H as (H1 & H2 & H3 & H4 & H5 & H6).
  split; [exact H1 | ]. split; [exact H2 | ]. split; [exact H3 | ].
  split; [exact H4 | ]. split; [exact H5 | ]. split; [ | exact H6].
  unfold unsigned. eapply inputs_of_coins_unsigned. exact H5.
Qed.

(** X13: why the builder fails, in the order it checks: no outputs; a
    negative change (reported with its value); the first coin whose
    identifier is empty (reported with its index) or does not parse; or,
    only when the change exceeds 546 and every coin parses, a change script
    that cannot be derived. *)
Theorem buildTransaction_errors
    (L : Collaborators) (w : BitcoinWallet) (t : AddressType)
    (utxos : list UTXO) (outputs : list (resolvedOutput L)) (change : Z) :
  match buildTransaction L w t utxos outputs change with
  | Ok _ => True
  | Err e =>
      (outputs = [] /\ e = ErrMissingOutputs) \/
      (outputs <> [] /\ change < 0 /\ e = ErrInvalidChange change) \/
      (outputs <> [] /\ 0 <= change /\
       exists pre u post,
         utxos = pre ++ u :: post /\
         Forall (coin_parses L) pre /\
         ((TxID u = ""%string /\ e = ErrMissingTxID (len pre)) \/
          (TxID u <> ""%string /\ newHashFromStr L (TxID u) = None /\
           e = ErrParseTxHash))) \/
      (outputs <> [] /\ dustThreshold < change /\
       Forall (coin_parses L) utxos /\
       (forall sc, ~ change_script L w t sc) /\
       (e = ErrChangeAddress \/ e = ErrChangeDecode \/ e = ErrChangeScript))
  end.
Proof.
  pose proof (buildTransaction_full L w t utxos outputs change) as H.
  destruct (buildTransaction L w t utxos outputs change) as [tx | e];
    [exact I | exact H].
Qed.

Section BuilderIgnoresValues.

Variable L : Collaborators.

Lemma addInputsChecked_ignores_values (f : UTXO -> Z) (utxos : list UTXO) :
  forall (idx : Z) (tx : MsgTx),
    addInputsChecked L
      (map (fun u => mkUTXO (TxID u) (Vout u) (f u)) utxos) idx tx
    = addInputsChecked L utxos idx tx.
Proof.
  induction utxos as [ | u rest IH]; intros idx tx; [reflexivity | ].
  cbn [map addInputsChecked TxID Vout].
  destruct (String.eqb (TxID u) ""); [reflexivity | ].
  destruct (newHashFromStr L (TxID u)); [apply IH | reflexivity].
Qed.

End BuilderIgnoresValues.

(** X14: the builder never reads the value of a coin: replacing the coin
    values by any others gives the same transaction or the same error, so a
    transaction built through [CreateTransactionWithOutputs] is not checked
    against the coins it spends. *)
Theorem buildTransaction_ignores_values
    (L : Collaborators) (w : BitcoinWallet) (t : AddressType)
    (utxos : list UTXO) (outputs : list PaymentOutput) (change : Z)
    (f : UTXO -> Z) :
  CreateTransactionWithOutputs L w t
    (map (fun u => mkUTXO (TxID u) (Vout u) (f u)) utxos) outputs change
  = CreateTransactionWithOutputs L w t utxos outputs change
  /\
  forall resolved,
    buildTransaction L w t
      (map (fun u => mkUTXO (TxID u) (Vout u) (f u)) utxos) resolved change
    = buildTransaction L w t utxos resolved change.
Proof.
  assert (H : forall resolved,
             buildTransaction L w t
               (map (fun u => mkUTXO (TxID u) (Vout u) (f u)) utxos)
               resolved change
             = buildTransaction L w t utxos resolved change).
  { intros resolved. unfold buildTransaction.
    now rewrite addInputsChecked_ignores_values. }
  split; [ | exact H].
  unfold CreateTransactionWithOutputs.
  destruct (resolvePaymentOutputs L w outputs) as [[resolved total] | e];
    [apply H | reflexivity].
Qed.

(** X15: value conservation from decision to transaction.  In range, when
    the solver decides fee and change [>= 0] for coins worth [V] and the
    builder assembles the transaction with that change, the output values
    and the fee add up to [V] exactly: every unit of the coins is either in
    an output or in the fee. *)
Theorem decision_and_build_conserve_value
    (L : Collaborators) (w : BitcoinWallet) (t : AddressType)
    (utxos : list UTXO) (outputs : list (resolvedOutput L)) (V : Z)
    (fee change : Z) (tx : MsgTx) :
  0 <= V <= I64.max_int ->
  0 < sumResolved outputs ->
  sizes_in_range (len utxos) (len outputs + 1) ->
  sumResolved outputs
  + EstimateTxSize (len utxos) (len outputs + 1) t * Z.max 1 (feeRate w)
  <= I64.max_int ->
  computeFeeAndChange w t (sumResolved outputs) (len outputs) utxos V
  = (fee, change) ->
  0 <= change ->
  buildTransaction L w t utxos outputs change = Ok tx ->
  sumOutValues (TxOuts tx) + fee = V /\
  List.length (TxOuts tx)
  = (List.length outputs + if change >? 0 then 1 else 0)%nat.
Proof.
  intros HV HR Hs Hb Hc Hch Hbuild.
  assert (Hk : 0 <= len outputs) by (unfold len; lia).
  rewrite (EstimateTxSize_exact _ _ _ Hs) in Hb.
  pose proof (buildTransaction_full L w t utxos outputs change) as Hfull.
  rewrite Hbuild in Hfull.
  destruct Hfull as (_ & _ & _ & _ & _ & Hout).
  destruct utxos as [ | u rest].
  { unfold computeFeeAndChange in Hc.
    change (len (@nil UTXO) =? 0) with true in Hc. cbv iota in Hc.
    unfold I64.neg in Hc.
    assert (HRmax : sumResolved outputs <= I64.max_int).
    { pose proof (txSizeZ_pos (len (@nil UTXO)) (len outputs + 1) t
                    ltac:(unfold len; cbn; lia) ltac:(lia)). nia. }
    rewrite wrap_small in Hc by (unfold_range; lia).
    inversion Hc; subst. lia. }
  destruct (computeFeeAndChange_in_range w t (sumResolved outputs)
              (len outputs) (u :: rest) V HV HR Hk ltac:(discriminate) Hs Hb)
    as [Hf Heq].
  rewrite Heq in Hc. clear Heq.
  set (f0 := txSizeZ (len (u :: rest)) (len outputs) t * Z.max 1 (feeRate w)) in *.
  set (f1 := txSizeZ (len (u :: rest)) (len outputs + 1) t
             * Z.max 1 (feeRate w)) in *.
  unfold dustThreshold in *.
  destruct (Z.ltb_spec (V - sumResolved outputs - f0) 0) as [L0 | G0].
  { inversion Hc; subst. lia. }
  destruct (Z.gtb_spec (V - sumResolved outputs - f1) 546) as [G1 | L1];
    inversion Hc; subst fee change.
  - destruct Hout as [[Hle _] | (_ & sc & _ & ->)]; [lia | ].
    rewrite sumOutValues_app, sumOutValues_resolved, length_app, length_map.
    cbn [sumOutValues OutValue List.length].
    destruct (Z.gtb_spec (V - sumResolved outputs - f1) 0); lia.
  - destruct Hout as [[_ ->] | (Hgt & _)]; [ | lia].
    rewrite sumOutValues_resolved, length_map. cbn. lia.
Qed.

Lemma decision_and_build_conserve_value_witness :
  let w := walletWithRate 1 in
  let coins := [mkUTXO "aa" 0 3000] in
  let outs := [mkResolvedOutput (L := testLib) "tb1q-a"%string [x00; x14] 1500] in
  exists tx,
    buildTransaction testLib w P2WPKH coins outs 1337 = Ok tx /\
    sumOutValues (TxOuts tx) + 163 = 3000 /\
    List.length (TxOuts tx) = 2%nat.
Proof.
  intros w coins outs. eexists. split; [vm_compute; reflexivity | ].
  match goal with
  | |- sumOutValues (TxOuts ?tx) + _ = _ /\ _ =>
      apply (decision_and_build_conserve_value testLib w P2WPKH coins outs
               3000 163 1337 tx)
  end.
  - unfold I64.max_int; lia.
  - cbn; lia.
  - unfold sizes_in_range, I64.max_int; cbn; lia.
  - vm_compute; discriminate.
  - vm_compute; reflexivity.
  - lia.
  - vm_compute; reflexivity.
Defined.

(** X16: [CreateTransactionWithOutputs] validates the requests before it
    looks at the coins, and takes the change as given: a successful call
    returns the resolved requests as outputs, plus the caller's change only
    when it exceeds 546; a change between 0 and 546 is left out without an
    error.  [CreateTransaction] is the same call for a single request. *)
Theorem CreateTransactionWithOutputs_change
    (L : Collaborators) (w : BitcoinWallet) (t : AddressType)
    (utxos : list UTXO) (outputs : list PaymentOutput) (change : Z) :
  (forall toAddress amt,
      CreateTransaction L w t toAddress amt utxos change
      = CreateTransactionWithOutputs L w t utxos
          [mkPaymentOutput toAddress amt] change)
  /\
  match resolvePaymentOutputs L w outputs with
  | Err e => CreateTransactionWithOutputs L w t utxos outputs change = Err e
  | Ok (resolved, total) =>
      match CreateTransactionWithOutputs L w t utxos outputs change with
      | Err _ => True
      | Ok tx =>
          0 <= change /\
          List.length (TxIns tx) = List.length utxos /\
          ((change <= dustThreshold /\ TxOuts tx = map toTxOut resolved) \/
           (dustThreshold < change /\
            exists sc, TxOuts tx = map toTxOut resolved ++ [mkTxOut change sc]))
      end
  end.
Proof.
  split; [reflexivity | ].
  unfold CreateTransactionWithOutputs.
  destruct (resolvePaymentOutputs L w outputs) as [[resolved total] | e];
    [ | reflexivity].
  pose proof (buildTransaction_full L w t utxos resolved change) as H.
  destruct (buildTransaction L w t utxos resolved change) as [tx | e];
    [ | exact I].
  destruct H as (_ & Hc & _ & _ & H2 & Hout).
  split; [exact Hc | ].
  split; [symmetry; eapply Forall2_length; exact H2 | ].
  destruct Hout as [Hsmall | (Hgt & sc & _ & Heq)]; [now left | right].
  split; [exact Hgt | eauto].
Qed.

Section SignerFurther.

Variable L : Collaborators.
Variable w : BitcoinWallet.

Lemma updateTxIn_header (tx tx' : MsgTx) (idx : Z) (f : TxIn -> TxIn) :
  updateTxIn tx idx f = Done tx' ->
  Version tx' = Version tx /\ LockTime tx' = LockTime tx.
Proof.
  intros H. destruct (updateTxIn_done _ _ _ _ H) as (_ & ti & _ & _ & _ & Hv & Hl).
  split; assumption.
Qed.

Lemma signInput_header (t : AddressType) (fromScript : bytes)
    (tx tx' : MsgTx) (i : Z) (u : UTXO) :
  signInput L w t fromScript tx i u = Done tx' ->
  Version tx' = Version tx /\ LockTime tx' = LockTime tx.
Proof.
  unfold signInput. cbv zeta. destruct t; try discriminate.
  - unfold SignP2PKHTransaction.
    destruct (calcSignatureHash L fromScript tx i); [ | discriminate].
    cbv zeta. destruct (Script _) as [sc failed].
    destruct (updateTxIn tx i (setSignatureScript sc)) as [tx1 | e | pa pb] eqn:E;
      try discriminate.
    destruct failed; [discriminate | ]. intros H; inversion H; subst.
    now apply updateTxIn_header in E.
  - unfold SignP2WPKHTransaction. cbv zeta.
    destruct (calcWitnessSigHash L fromScript _ tx i (Value u)); [ | discriminate].
    destruct (updateTxIn tx i _) as [tx1 | e | pa pb] eqn:E; try discriminate.
    intros H; inversion H; subst. now apply updateTxIn_header in E.
  - unfold SignP2SHTransaction.
    destruct (Script (redeemScriptBuilder L w)) as [witnessScript failed].
    destruct failed; [discriminate | ]. cbv zeta.
    destruct (calcWitnessSigHash L witnessScript _ tx i (Value u));
      [ | discriminate].
    destruct (updateTxIn tx i _) as [tx1 | e | pa pb] eqn:E1; try discriminate.
    destruct (Script (AddData witnessScript NewScriptBuilder)) as [sc failed'].
    destruct (updateTxIn tx1 i (setSignatureScript sc)) as [tx2 | e | pa' pb'] eqn:E2;
      try discriminate.
    destruct failed'; [discriminate | ]. intros H; inversion H; subst.
    apply updateTxIn_header in E1. apply updateTxIn_header in E2.
    destruct E1, E2. split; congruence.
  - unfold SignP2TRTransaction.
    destruct (getP2TRAddress L w) as [p2trAddr | ]; [ | discriminate].
    destruct (decodeAddress L p2trAddr (network w)) as [addrObj | ];
      [ | discriminate].
    destruct (payToAddrScript L addrObj) as [prevScript | ]; [ | discriminate].
    cbv zeta.
    destruct (rawTxInTaprootSignature L tx _ i (Value u) prevScript _);
      [ | discriminate].
    destruct (updateTxIn tx i _) as [tx1 | e | pa pb] eqn:E; try discriminate.
    intros H; inversion H; subst. now apply updateTxIn_header in E.
Qed.

Lemma signLoop_header (t : AddressType) (fromScript : bytes)
    (utxos : list UTXO) :
  forall (i : Z) (tx tx' : MsgTx),
    signLoop L w t fromScript utxos i tx = Done tx' ->
    Version tx' = Version tx /\ LockTime tx' = LockTime tx.
Proof.
  induction utxos as [ | u rest IH]; intros i tx tx' H.
  - inversion H; subst. split; reflexivity.
  - cbn [signLoop] in H.
    destruct (signInput L w t fromScript tx i u) as [tx1 | e | pa pb] eqn:E;
      try discriminate.
    destruct (signInput_header _ _ _ _ _ _ E) as [Hv Hl].
    destruct (IH _ _ _ H) as [Hv' Hl']. split; congruence.
Qed.

Lemma signInput_failed (t : AddressType) (fromScript : bytes)
    (tx : MsgTx) (i : Z) (u : UTXO) (e : error) :
  signInput L w t fromScript tx i u = Failed e ->
  match t with
  | OtherType _ => e = ErrUnsupportedType
  | _ => exists cause, e = ErrSignInput i cause /\ input_signing_error cause
  end.
Proof.
  unfold signInput, input_signing_error. cbv zeta. destruct t.
  - unfold SignP2PKHTransaction.
    destruct (calcSignatureHash L fromScript tx i).
    + cbv zeta. destruct (Script _) as [sc failed].
      destruct (updateTxIn tx i (setSignatureScript sc)) as [tx1 | e1 | pa pb] eqn:E.
      * destruct failed; [ | discriminate].
        intros H; inversion H. eexists; split; [reflexivity | tauto].
      * exfalso. revert E. unfold updateTxIn.
        destruct ((i <? 0) || (len (TxIns tx) <=? i)); [discriminate | ].
        destruct (nth_error (TxIns tx) (Z.to_nat i)); discriminate.
      * discriminate.
    + intros H; inversion H. eexists; split; [reflexivity | tauto].
  - unfold SignP2WPKHTransaction. cbv zeta.
    destruct (calcWitnessSigHash L fromScript _ tx i (Value u)).
    + unfold updateTxIn.
      destruct ((i <? 0) || (len (TxIns tx) <=? i)); [discriminate | ].
      destruct (nth_error (TxIns tx) (Z.to_nat i)); discriminate.
    + intros H; inversion H. eexists; split; [reflexivity | tauto].
  - unfold SignP2SHTransaction.
    destruct (Script (redeemScriptBuilder L w)) as [witnessScript failed].
    destruct failed.
    { intros H; inversion H. eexists; split; [reflexivity | tauto]. }
    cbv zeta.
    destruct (calcWitnessSigHash L witnessScript _ tx i (Value u)).
    2:{ intros H; inversion H. eexists; split; [reflexivity | tauto]. }
    destruct (updateTxIn tx i _) as [tx1 | e1 | pa pb] eqn:E1.
    + destruct (Script (AddData witnessScript NewScriptBuilder)) as [sc failed'].
      destruct (updateTxIn tx1 i (setSignatureScript sc)) as [tx2 | e2 | pa' pb'] eqn:E2.
      * destruct failed'; [ | discriminate].
        intros H; inversion H. eexists; split; [reflexivity | tauto].
      * exfalso. revert E2. unfold updateTxIn.
        destruct ((i <? 0) || (len (TxIns tx1) <=? i)); [discriminate | ].
        destruct (nth_error (TxIns tx1) (Z.to_nat i)); discriminate.
      * discriminate.
    + exfalso. revert E1. unfold updateTxIn.
      destruct ((i <? 0) || (len (TxIns tx) <=? i)); [discriminate | ].
      destruct (nth_error (TxIns tx) (Z.to_nat i)); discriminate.
    + discriminate.
  - unfold SignP2TRTransaction.
    destruct (getP2TRAddress L w) as [p2trAddr | ].
    2:{ intros H; inversion H. eexists; split; [reflexivity | tauto]. }
    destruct (decodeAddress L p2trAddr (network w)) as [addrObj | ].
    2:{ intros H; inversion H. eexists; split; [reflexivity | tauto]. }
    destruct (payToAddrScript L addrObj) as [prevScript | ].
    2:{ intros H; inversion H. eexists; split; [reflexivity | tauto]. }
    cbv zeta.
    destruct (rawTxInTaprootSignature L tx _ i (Value u) prevScript _).
    2:{ intros H; inversion H. eexists; split; [reflexivity | tauto]. }
    unfold updateTxIn.
    destruct ((i <? 0) || (len (TxIns tx) <=? i)); [discriminate | ].
    destruct (nth_error (TxIns tx) (Z.to_nat i)); discriminate.
  - intros H; now inversion H.
Qed.

Lemma signLoop_failed (t : AddressType) (fromScript : bytes)
    (utxos : list UTXO) :
  forall (n : nat) (tx : MsgTx) (e : error),
    signLoop L w t fromScript utxos (Z.of_nat n) tx = Failed e ->
    match t with
    | OtherType _ => e = ErrUnsupportedType
    | _ =>
        exists (i : nat) cause,
          e = ErrSignInput (Z.of_nat i) cause /\ input_signing_error cause /\
          (n <= i < n + List.length utxos)%nat
    end.
Proof.
  induction utxos as [ | u rest IH]; intros n tx e H; [discriminate H | ].
  cbn [signLoop] in H.
  destruct (signInput L w t fromScript tx (Z.of_nat n) u) as [tx1 | e1 | pa pb]
    eqn:E; try discriminate.
  - replace (Z.of_nat n + 1) with (Z.of_nat (Datatypes.S n)) in H by lia.
    specialize (IH _ _ _ H). destruct t; try exact IH.
    all: destruct IH as (i & c & He & Hc & Hi); exists i, c;
      cbn [List.length]; repeat split; try assumption; lia.
  - inversion H; subst e1. apply signInput_failed in E.
    destruct t; try exact E.
    all: destruct E as (c & He & Hc); exists n, c;
      cbn [List.length]; repeat split; try assumption; lia.
Qed.

End SignerFurther.

Section SignerPreserves.

Variable L : Collaborators.
Variable w : BitcoinWallet.

Lemma signLoop_keeps_references (t : AddressType) (fromScript : bytes)
    (utxos : list UTXO) (tx tx' : MsgTx) :
  signLoop L w t fromScript utxos 0 tx = Done tx' ->
  map PreviousOutPoint (TxIns tx') = map PreviousOutPoint (TxIns tx) /\
  map Sequence (TxIns tx') = map Sequence (TxIns tx).
Proof.
  intros H. change 0 with (Z.of_nat 0) in H.
  destruct (signLoop_done L w t fromScript utxos 0%nat tx tx' H)
    as (_ & _ & _ & Hother & Hsigned).
  split; apply nth_error_ext; intros j; rewrite !nth_error_map.
  all: destruct (Nat.lt_ge_cases j (List.length utxos)) as [Hlt | Hge];
    [ destruct (Hsigned j ltac:(lia)) as (ti & ti' & -> & -> & Hp & Hs & _);
      cbn [option_map]; congruence
    | rewrite (Hother j ltac:(lia)); reflexivity ].
Qed.

End SignerPreserves.

(** X17: signing only writes unlocking data.  A successful
    [SignTransaction] returns a transaction with the same version, lock
    time and outputs, the same number of inputs, and for every input the
    same previous outpoint and sequence number. *)
Theorem SignTransaction_writes_unlocking_data_only
    (L : Collaborators) (w : BitcoinWallet) (tx : MsgTx)
    (t : AddressType) (utxos : list UTXO) :
  match SignTransaction L w tx t utxos with
  | Done tx' =>
      Version tx' = Version tx /\ LockTime tx' = LockTime tx /\
      TxOuts tx' = TxOuts tx /\
      List.length (TxIns tx') = List.length (TxIns tx) /\
      map PreviousOutPoint (TxIns tx') = map PreviousOutPoint (TxIns tx) /\
      map Sequence (TxIns tx') = map Sequence (TxIns tx)
  | _ => True
  end.
Proof.
  unfold SignTransaction.
  destruct (senderScript L w t) as [fromScript | e]; [ | exact I].
  destruct (signLoop L w t fromScript utxos 0 tx) as [tx' | e | a b] eqn:E;
    try exact I.
  destruct (signLoop_header L w t fromScript utxos 0 tx tx' E) as [Hv Hl].
  destruct (signLoop_keeps_references L w t fromScript utxos tx tx' E)
    as [Hp Hs].
  change 0 with (Z.of_nat 0) in E.
  destruct (signLoop_done L w t fromScript utxos 0%nat tx tx' E)
    as (_ & Hlen & Ho & _).
  repeat (split; [assumption | ]). assumption.
Qed.

(** X18: the signer signs as many inputs as it is given coins and does not
    compare the two numbers.  A successful call has touched only the inputs
    at indices below [len(utxos)]; every later input is exactly as before,
    so with fewer coins than inputs success is reported for a transaction
    that is only partly signed, and with no coins at all the transaction
    comes back unchanged. *)
Theorem SignTransaction_signs_one_input_per_coin
    (L : Collaborators) (w : BitcoinWallet) (tx : MsgTx)
    (t : AddressType) (utxos : list UTXO) :
  match SignTransaction L w tx t utxos with
  | Done tx' =>
      (List.length utxos <= List.length (TxIns tx))%nat /\
      (forall j : nat, (List.length utxos <= j)%nat ->
         nth_error (TxIns tx') j = nth_error (TxIns tx) j) /\
      (utxos = [] -> tx' = tx)
  | _ => True
  end.
Proof.
  unfold SignTransaction.
  destruct (senderScript L w t) as [fromScript | e]; [ | exact I].
  destruct (signLoop L w t fromScript utxos 0 tx) as [tx' | e | a b] eqn:E;
    try exact I.
  split; [ | split].
  - change 0 with (Z.of_nat 0) in E.
    destruct (signLoop_done L w t fromScript utxos 0%nat tx tx' E) as (Hb & _).
    destruct utxos as [ | u rest]; [cbn; lia | ].
    specialize (Hb ltac:(discriminate)). lia.
  - change 0 with (Z.of_nat 0) in E.
    destruct (signLoop_done L w t fromScript utxos 0%nat tx tx' E)
      as (_ & _ & _ & Hother & _).
    intros j Hj. apply Hother. lia.
  - intros ->. cbn in E. now inversion E.
Qed.

(** X19: the errors of [SignTransaction].  A failure is either one of the
    three errors of looking up the sender's own script, before any input is
    touched, or the error of one signing function wrapped with the index of
    the input it failed on, an index below [len(utxos)].  The "unsupported
    address type" error of the dispatch is never returned: an unrecognised
    family already fails the address lookup. *)
Theorem SignTransaction_errors
    (L : Collaborators) (w : BitcoinWallet) (tx : MsgTx)
    (t : AddressType) (utxos : list UTXO) :
  match SignTransaction L w tx t utxos with
  | Failed e =>
      e <> ErrUnsupportedType /\
      ((e = ErrSenderAddress \/ e = ErrSenderDecode \/ e = ErrSenderScript) \/
       exists (i : nat) cause,
         e = ErrSignInput (Z.of_nat i) cause /\
         input_signing_error cause /\ (i < List.length utxos)%nat)
  | _ => True
  end
  /\
  (forall tag, SignTransaction L w tx (OtherType tag) utxos
               = Failed ErrSenderAddress).
Proof.
  split; [ | reflexivity].
  unfold SignTransaction, senderScript.
  destruct (GetAddress L w t) as [fromAddr | ] eqn:Ea.
  2:{ split; [discriminate | left; auto]. }
  destruct (decodeAddress L fromAddr (network w)) as [obj | ].
  2:{ split; [discriminate | left; auto]. }
  destruct (payToAddrScript L obj) as [fromScript | ].
  2:{ split; [discriminate | left; auto]. }
  destruct (signLoop L w t fromScript utxos 0 tx) as [tx' | e | a b] eqn:E;
    try exact I.
  change 0 with (Z.of_nat 0) in E.
  apply signLoop_failed in E.
  destruct t; try (destruct E as (i & c & -> & Hc & Hi);
                   split; [discriminate | right; exists i, c;
                           repeat split; try assumption; lia]).
  discriminate Ea.
Qed.

Section SendFlowsFurther.

Variable S : ValueSorter.
Variable L : Collaborators.
Variable w : BitcoinWallet.

Lemma SignTransaction_no_panic (tx : MsgTx) (t : AddressType)
    (utxos : list UTXO) (a b : Z) :
  (List.length utxos <= List.length (TxIns tx))%nat ->
  SignTransaction L w tx t utxos <> IndexPanic a b.
Proof.
  intros Hle. unfold SignTransaction.
  destruct (senderScript L w t) as [fromScript | e]; [ | discriminate].
  change 0 with (Z.of_nat 0). apply signLoop_no_panic. lia.
Qed.

Lemma signAndBroadcast_no_panic (tx : MsgTx) (t : AddressType)
    (utxos : list UTXO) (a b : Z) :
  (List.length utxos <= List.length (TxIns tx))%nat ->
  signAndBroadcast L w tx t utxos <> IndexPanic a b.
Proof.
  intros Hle. unfold signAndBroadcast, BroadcastTransaction.
  pose proof (SignTransaction_no_panic tx t utxos) as Hs.
  destruct (SignTransaction L w tx t utxos) as [signed | e | a' b'].
  - destruct (serializeHex L signed) as [txHex | ]; [ | discriminate].
    destruct (postTx L (apiURL w) txHex); discriminate.
  - discriminate.
  - exfalso. now apply (Hs a' b').
Qed.

(** More rounds never change the way the reselection loop leaves. *)
Lemma sendManyLoop_more_fuel (t : AddressType) (R k : Z) (utxos : list UTXO)
    (fuel : nat) :
  forall (a : Z) (r : result FeeDecision) (fuel' : nat),
    sendManyLoop S w t R k utxos fuel a = Some r ->
    (fuel <= fuel')%nat ->
    sendManyLoop S w t R k utxos fuel' a = Some r.
Proof.
  induction fuel as [ | fuel IH]; intros a r fuel' H Hle; [discriminate H | ].
  destruct fuel' as [ | fuel']; [lia | ].
  cbn [sendManyLoop] in H |- *.
  destruct (SelectUTXOs S utxos a) as [[sel V] | e]; [ | exact H].
  destruct (computeFeeAndChange w t R k sel V) as [fee change].
  destruct (change >=? 0); [exact H | ].
  apply IH; [exact H | lia].
Qed.

(** A decision of the loop is a selection of the coins it was given. *)
Lemma sendManyLoop_decision (t : AddressType) (R k : Z) (utxos : list UTXO)
    (fuel : nat) :
  forall (a : Z) (d : FeeDecision),
    sendManyLoop S w t R k utxos fuel a = Some (Ok d) ->
    0 <= changeAmount d /\
    exists a', SelectUTXOs S utxos a' = Ok (selectedUTXOs d, totalValue d) /\
               computeFeeAndChange w t R k (selectedUTXOs d) (totalValue d)
               = (estimatedFee d, changeAmount d).
Proof.
  induction fuel as [ | fuel IH]; intros a d H; [discriminate H | ].
  cbn [sendManyLoop] in H.
  destruct (SelectUTXOs S utxos a) as [[sel V] | e] eqn:Es; [ | discriminate H].
  destruct (computeFeeAndChange w t R k sel V) as [fee change] eqn:Ec.
  destruct (Z.geb_spec change 0) as [Hge | Hlt].
  - inversion H; subst d. cbn. split; [lia | ]. exists a. auto.
  - eapply IH; eassumption.
Qed.

Lemma resolvePaymentOutputs_total (outputs : list PaymentOutput)
    (res : list (resolvedOutput L)) (total : Z) :
  Forall (fun o => I64.in_range (Amount o)) outputs ->
  resolvePaymentOutputs L w outputs = Ok (res, total) ->
  List.length res = List.length outputs /\
  0 < total <= I64.max_int.
Proof.
  intros Hr H. unfold resolvePaymentOutputs in H.
  destruct (Z.eqb_spec (len outputs) 0) as [E | NE]; [discriminate | ].
  pose proof (resolveLoop_spec L w outputs 0 [] 0 Hr
                ltac:(unfold I64.max_int; lia)) as Hloop.
  rewrite H in Hloop.
  destruct Hloop as (Hall & Hsum & Hle & fresh & Hfresh & Hf2).
  cbn [app] in Hfresh. subst fresh.
  destruct (resolved_facts L w outputs res Hall Hf2)
    as (Hl & Hm & Hs & Hd & Hres).
  split; [exact Hl | ].
  assert (0 < len outputs) by (unfold len in *; lia).
  unfold dustThreshold in Hd. nia.
Qed.

End SendFlowsFurther.

(** X20: the send flows never run the signer past the inputs.  [SendAll]
    and [SendMany] sign a transaction they built themselves with exactly
    one input per coin, so the out-of-range write of the signer cannot
    happen inside them, whatever the network answers and however many
    rounds the reselection loop is given. *)
Theorem send_flows_never_panic
    (S : ValueSorter) (L : Collaborators) (w : BitcoinWallet)
    (t : AddressType) :
  (forall toAddress,
      match SendAll L w t toAddress with
      | IndexPanic _ _ => False
      | _ => True
      end)
  /\
  (forall fuel outputs,
      match SendMany S L w fuel t outputs with
      | Some (IndexPanic _ _) => False
      | _ => True
      end)
  /\
  (forall fuel toAddress amt,
      match SendTransaction S L w fuel t toAddress amt with
      | Some (IndexPanic _ _) => False
      | _ => True
      end).
Proof.
  assert (Hmany : forall fuel outputs,
             match SendMany S L w fuel t outputs with
             | Some (IndexPanic _ _) => False
             | _ => True
             end).
  { intros fuel outputs. unfold SendMany.
    destruct (resolvePaymentOutputs L w outputs) as [[res R] | e]; [ | exact I].
    destruct (GetAddress L w t) as [fromAddr | ]; [ | exact I].
    destruct (GetUTXOs L w fromAddr) as [utxos | ]; [ | exact I].
    destruct (len utxos =? 0); [exact I | ].
    destruct (sendManyLoop S w t R (len res) utxos fuel R) as [[d | e] | ];
      try exact I.
    pose proof (buildTransaction_full L w t (selectedUTXOs d) res
                  (changeAmount d)) as Hb.
    destruct (buildTransaction L w t (selectedUTXOs d) res (changeAmount d))
      as [tx | e]; [ | exact I].
    destruct Hb as (_ & _ & _ & _ & Hins & _).
    apply Forall2_length in Hins.
    pose proof (signAndBroadcast_no_panic L w tx t (selectedUTXOs d)) as Hn.
    destruct (signAndBroadcast L w tx t (selectedUTXOs d)) as [id | e | a b];
      try exact I.
    apply (Hn a b); [lia | reflexivity]. }
  split; [ | split; [exact Hmany | ]].
  - intros toAddress. unfold SendAll.
    destruct (decodeAndValidateAddress L w toAddress) as [target | cause];
      [ | exact I].
    destruct (GetAddress L w t) as [fromAddr | ]; [ | exact I].
    destruct (GetUTXOs L w fromAddr) as [utxos | ]; [ | exact I].
    destruct (len utxos =? 0); [exact I | ]. cbv zeta.
    destruct (sweepTransferAmount w t utxos <=? 0); [exact I | ].
    destruct (sweepTransaction L target utxos (sweepTransferAmount w t utxos))
      as [tx | e] eqn:Est; [ | exact I].
    destruct (sweepTransaction_spec L target utxos _ tx Est) as (Hlen & _).
    pose proof (signAndBroadcast_no_panic L w tx t utxos) as Hn.
    destruct (signAndBroadcast L w tx t utxos) as [id | e | a b]; try exact I.
    apply (Hn a b); [lia | reflexivity].
  - intros fuel toAddress amt. apply Hmany.
Qed.

(** X21: [SendMany] returns.  When the requested amounts are 64-bit values
    and the requests resolve, the sender address is derived and the coin
    query answers with coins of non-negative value, and while the sum of
    the coins and the requested total plus the fee for all coins and one
    more output stay inside the signed 64-bit range, [SendMany] returns
    within [length utxos + 1] rounds of its loop, and more rounds give the
    same result. *)
Theorem SendMany_returns
    (S : ValueSorter) (L : Collaborators) (w : BitcoinWallet)
    (t : AddressType) (outputs : list PaymentOutput)
    (res : list (resolvedOutput L)) (R : Z) (fromAddr : string)
    (utxos : list UTXO) :
  Forall (fun o => I64.in_range (Amount o)) outputs ->
  resolvePaymentOutputs L w outputs = Ok (res, R) ->
  GetAddress L w t = Some fromAddr ->
  GetUTXOs L w fromAddr = Some utxos ->
  Forall (fun u => 0 <= Value u) utxos ->
  sumValues utxos <= I64.max_int ->
  sizes_in_range (len utxos) (len outputs + 1) ->
  R + EstimateTxSize (len utxos) (len outputs + 1) t * Z.max 1 (feeRate w)
    <= I64.max_int ->
  exists r,
    forall fuel : nat, (List.length utxos < fuel)%nat ->
      SendMany S L w fuel t outputs = Some r.
Proof.
  intros Hr Hres Ha Hu Hnn Hsum Hs Hb.
  destruct (resolvePaymentOutputs_total L w outputs res R Hr Hres)
    as (Hlen & HR & _).
  assert (Hk : len res = len outputs) by (unfold len; now rewrite Hlen).
  unfold SendMany. rewrite Hres, Ha, Hu, Hk.
  destruct (Z.eqb_spec (len utxos) 0) as [E | NE].
  { eexists. intros fuel _. reflexivity. }
  assert (Hne : utxos <> []) by (intros ->; apply NE; reflexivity).
  rewrite (EstimateTxSize_exact _ _ _ Hs) in Hb.
  destruct (sendManyLoop_leaves_from S w t R (len outputs) utxos Hne Hnn Hsum
              HR ltac:(unfold len; lia) Hs Hb
              (List.length utxos) 0%nat R ltac:(lia)
              ltac:(intros i Hi; lia)) as (r & Hloop & _).
  exists (match r with
          | Err e => Failed e
          | Ok d =>
              match buildTransaction L w t (selectedUTXOs d) res
                      (changeAmount d) with
              | Err e => Failed (ErrBuild e)
              | Ok tx => signAndBroadcast L w tx t (selectedUTXOs d)
              end
          end).
  intros fuel Hfuel.
  rewrite (sendManyLoop_more_fuel S w t R (len outputs) utxos _ R r fuel Hloop
             ltac:(lia)).
  destruct r as [d | e]; [ | reflexivity].
  destruct (buildTransaction L w t (selectedUTXOs d) res (changeAmount d));
    reflexivity.
Qed.

Lemma SendMany_returns_witness :
  let coins := [mkUTXO "aa" 0 1000; mkUTXO "bb" 1 5000] in
  let outs := [mkPaymentOutput "tb1q-a" 1500] in
  exists r,
    forall fuel : nat, (2 < fuel)%nat ->
      SendMany insertionSorter (testLibWith coins) (walletWithRate 2) fuel
        P2WPKH outs = Some r.
Proof.
  intros coins outs.
  destruct (SendMany_returns insertionSorter (testLibWith coins)
              (walletWithRate 2) P2WPKH outs
              [{| address := "tb1q-a"%string : btcAddress (testLibWith coins);
                  amount := 1500; script := [x76; xa9] |}]
              1500 "tb1q-segwit" coins) as [r Hr].
  - repeat constructor; vm_compute; intuition discriminate.
  - vm_compute; reflexivity.
  - vm_compute; reflexivity.
  - reflexivity.
  - repeat constructor; cbn; lia.
  - vm_compute; discriminate.
  - vm_compute; intuition discriminate.
  - vm_compute; discriminate.
  - exists r. exact Hr.
Defined.

Section RawFurther.

Variable L : Collaborators.
Variable w : BitcoinWallet.

(** A total that passes the sign check is the exact sum, for any 64-bit
    coin values. *)
Lemma sumValuesChecked_sound (utxos : list UTXO) :
  forall (acc V : Z),
    Forall (fun u => I64.in_range (Value u)) utxos ->
    0 <= acc <= I64.max_int ->
    sumValuesChecked utxos acc = Some V ->
    V = acc + sumValues utxos /\ 0 <= V <= I64.max_int.
Proof.
  induction utxos as [ | u rest IH]; intros acc V Hr Hacc H.
  - cbn [sumValuesChecked sumValues] in H |- *. inversion H; subst. lia.
  - inversion Hr as [ | ? ? Hu Hrest]; subst.
    cbn [sumValuesChecked sumValues] in H |- *. cbv zeta in H.
    destruct (Z.ltb_spec (I64.add acc (Value u)) 0) as [Hneg | Hpos];
      [discriminate H | ].
    assert (Hsmall : acc + Value u <= I64.max_int).
    { destruct (Z_le_gt_dec (acc + Value u) I64.max_int) as [ | Hgt];
        [assumption | exfalso].
      unfold I64.add in Hpos. rewrite wrap_high in Hpos; range_lia. }
    rewrite add_small in H, Hpos by range_lia.
    destruct (IH (acc + Value u) V Hrest ltac:(lia) H) as [-> Hb].
    split; lia.
Qed.

(** For coins of non-negative value the sign check is exact. *)
Lemma sumValuesChecked_exact (utxos : list UTXO) :
  forall acc : Z,
    Forall (fun u => 0 <= Value u <= I64.max_int) utxos ->
    0 <= acc <= I64.max_int ->
    sumValuesChecked utxos acc
    = if acc + sumValues utxos <=? I64.max_int
      then Some (acc + sumValues utxos) else None.
Proof.
  induction utxos as [ | u rest IH]; intros acc Hr Hacc.
  - cbn [sumValuesChecked sumValues]. rewrite Z.add_0_r.
    destruct (Z.leb_spec acc I64.max_int); [reflexivity | lia].
  - inversion Hr as [ | ? ? Hu Hrest]; subst.
    assert (Hnn : 0 <= sumValues rest).
    { apply sumValues_nonneg. eapply Forall_impl; [ | exact Hrest].
      cbn. intros; lia. }
    cbn [sumValuesChecked sumValues]. cbv zeta.
    destruct (Z_le_gt_dec (acc + Value u) I64.max_int) as [Hle | Hgt].
    + rewrite add_small by range_lia.
      destruct (Z.ltb_spec (acc + Value u) 0) as [Hneg | _]; [lia | ].
      rewrite IH by (try assumption; lia).
      now rewrite Z.add_assoc.
    + unfold I64.add. rewrite wrap_high by range_lia.
      destruct (Z.ltb_spec (acc + Value u - 2 ^ 64) 0) as [_ | Hpos];
        [ | range_lia].
      destruct (Z.leb_spec (acc + (Value u + sumValues rest)) I64.max_int);
        [lia | reflexivity].
Qed.

(** What the function returns once the requests resolve and there are
    coins, by the outcome of its three later steps. *)
Lemma CreateRaw_after_resolution (t : AddressType)
    (outputs : list PaymentOutput) (utxos : list UTXO)
    (res : list (resolvedOutput L)) (R : Z) :
  resolvePaymentOutputs L w outputs = Ok (res, R) ->
  utxos <> [] ->
  CreateRawTransactionWithOutputs L w t outputs utxos =
    match sumValuesChecked utxos 0 with
    | None => RawFailed RawValueOverflow
    | Some V =>
        let change := snd (computeFeeAndChange w t R (len res) utxos V) in
        if change <? 0 then RawFailed RawInsufficient
        else
          match buildTransaction L w t utxos res change with
          | Err e => RawFailed (RawShared (ErrBuild e))
          | Ok tx =>
              match serializeHex L tx with
              | None => RawFailed (RawShared ErrSerialize)
              | Some txHex => RawDone txHex
              end
          end
    end.
Proof.
  intros Hres Hne. unfold CreateRawTransactionWithOutputs. rewrite Hres.
  destruct (Z.eqb_spec (len utxos) 0) as [E | _];
    [apply len_zero_nil in E; contradiction | ].
  destruct (sumValuesChecked utxos 0) as [V | ]; [ | reflexivity].
  destruct (computeFeeAndChange w t R (len res) utxos V) as [fee change].
  reflexivity.
Qed.

End RawFurther.

(** X22: the overflow check of [CreateRawTransactionWithOutputs].  The
    function sums the coin values in 64 bits and stops when the running
    total is negative.  Once the requests resolve and there are coins of
    non-negative value, it fails with the overflow error exactly when the
    exact sum of the values exceeds the largest 64-bit value: no overflow
    goes unnoticed and none is reported falsely. *)
Theorem CreateRawTransactionWithOutputs_overflow_check
    (L : Collaborators) (w : BitcoinWallet) (t : AddressType)
    (outputs : list PaymentOutput) (utxos : list UTXO)
    (res : list (resolvedOutput L)) (R : Z) :
  resolvePaymentOutputs L w outputs = Ok (res, R) ->
  utxos <> [] ->
  Forall (fun u => 0 <= Value u <= I64.max_int) utxos ->
  (CreateRawTransactionWithOutputs L w t outputs utxos
   = RawFailed RawValueOverflow
   <-> I64.max_int < sumValues utxos).
Proof.
  intros Hres Hne Hnn.
  rewrite (CreateRaw_after_resolution L w t outputs utxos res R Hres Hne).
  rewrite (sumValuesChecked_exact utxos 0 Hnn ltac:(range_lia)).
  rewrite Z.add_0_l.
  destruct (Z.leb_spec (sumValues utxos) I64.max_int) as [Hle | Hgt].
  - split; [ | lia]. cbv zeta.
    destruct (snd (computeFeeAndChange w t R (len res) utxos (sumValues utxos))
              <? 0); [discriminate | ].
    destruct (buildTransaction L w t utxos res _) as [tx | e];
      [ | discriminate].
    destruct (serializeHex L tx); discriminate.
  - split; [intros _; exact Hgt | reflexivity].
Qed.

Lemma CreateRawTransactionWithOutputs_overflow_check_witness :
  let big := mkUTXO "aa" 0 I64.max_int in
  let one := mkUTXO "bb" 1 1 in
  let outs := [mkPaymentOutput "tb1q-a" 1500] in
  CreateRawTransactionWithOutputs testLib (walletWithRate 1) P2WPKH outs
    [big; one] = RawFailed RawValueOverflow.
Proof.
  intros big one outs.
  apply (CreateRawTransactionWithOutputs_overflow_check testLib
           (walletWithRate 1) P2WPKH outs [big; one]
           [{| address := "tb1q-a"%string : btcAddress testLib;
               amount := 1500; script := [x76; xa9] |}] 1500).
  - vm_compute; reflexivity.
  - discriminate.
  - repeat constructor; vm_compute; discriminate.
  - vm_compute; reflexivity.
Defined.

(** X23: the insufficiency check of [CreateRawTransactionWithOutputs].  It
    spends all the coins it is given, without selecting.  In range (64-bit
    requested amounts, coins of non-negative value with a sum inside the
    range, requested total plus the fee with one more output inside the
    range), it fails with the insufficiency error exactly when the coins'
    value is below the requested total plus the fee for all coins and no
    change output. *)
Theorem CreateRawTransactionWithOutputs_insufficient
    (L : Collaborators) (w : BitcoinWallet) (t : AddressType)
    (outputs : list PaymentOutput) (utxos : list UTXO)
    (res : list (resolvedOutput L)) (R : Z) :
  Forall (fun o => I64.in_range (Amount o)) outputs ->
  resolvePaymentOutputs L w outputs = Ok (res, R) ->
  utxos <> [] ->
  Forall (fun u => 0 <= Value u) utxos ->
  sumValues utxos <= I64.max_int ->
  sizes_in_range (len utxos) (len outputs + 1) ->
  R + EstimateTxSize (len utxos) (len outputs + 1) t * Z.max 1 (feeRate w)
    <= I64.max_int ->
  (CreateRawTransactionWithOutputs L w t outputs utxos
   = RawFailed RawInsufficient
   <-> sumValues utxos
       < R + EstimateTxSize (len utxos) (len outputs) t * Z.max 1 (feeRate w)).
Proof.
  intros Hr Hres Hne Hnn Hsum Hs Hb.
  destruct (resolvePaymentOutputs_total L w outputs res R Hr Hres)
    as (Hlen & HR & _).
  assert (Hk : len res = len outputs) by (unfold len; now rewrite Hlen).
  assert (Hk0 : 0 <= len outputs) by (unfold len; lia).
  assert (Hs0 : sizes_in_range (len utxos) (len outputs))
    by (apply sizes_in_range_outputs with (len outputs + 1);
        [lia | assumption]).
  pose proof (sumValues_nonneg utxos Hnn) as HV0.
  assert (Hnn' : Forall (fun u => 0 <= Value u <= I64.max_int) utxos).
  { clear - Hnn Hsum. induction Hnn as [ | u l Hu Hl IH]; constructor.
    - cbn [sumValues] in Hsum. pose proof (sumValues_nonneg l Hl). lia.
    - apply IH. cbn [sumValues] in Hsum. lia. }
  rewrite (CreateRaw_after_resolution L w t outputs utxos res R Hres Hne).
  rewrite (sumValuesChecked_exact utxos 0 Hnn' ltac:(range_lia)).
  rewrite Z.add_0_l, Hk.
  destruct (Z.leb_spec (sumValues utxos) I64.max_int) as [_ | Hgt]; [ | lia].
  cbv zeta.
  rewrite (EstimateTxSize_exact _ _ _ Hs) in Hb.
  rewrite (EstimateTxSize_exact _ _ _ Hs0).
  destruct (computeFeeAndChange_in_range w t R (len outputs) utxos
              (sumValues utxos) ltac:(lia) HR Hk0 Hne Hs Hb) as [Hf Heq].
  rewrite Heq. clear Heq.
  set (f0 := txSizeZ (len utxos) (len outputs) t * Z.max 1 (feeRate w)) in *.
  set (f1 := txSizeZ (len utxos) (len outputs + 1) t * Z.max 1 (feeRate w))
    in *.
  set (V := sumValues utxos) in *.
  destruct (Z.ltb_spec (V - R - f0) 0) as [L0 | G0].
  - cbn [snd]. destruct (Z.ltb_spec (V - R - f0) 0) as [_ | ]; [ | lia].
    split; [lia | reflexivity].
  - split; [ | lia]. intros H. exfalso.
    destruct (Z.gtb_spec (V - R - f1) dustThreshold) as [G1 | L1];
      cbn [snd] in H.
    + unfold dustThreshold in G1.
      destruct (Z.ltb_spec (V - R - f1) 0) as [ | _]; [lia | ].
      destruct (buildTransaction L w t utxos res (V - R - f1)) as [tx | e];
        [ | discriminate].
      destruct (serializeHex L tx); discriminate.
    + cbn in H.
      destruct (buildTransaction L w t utxos res 0) as [tx | e];
        [ | discriminate].
      destruct (serializeHex L tx); discriminate.
Qed.

Lemma CreateRawTransactionWithOutputs_insufficient_witness :
  let outs := [mkPaymentOutput "tb1q-a" 1500] in
  let coins := [mkUTXO "aa" 0 1600] in
  CreateRawTransactionWithOutputs testLib (walletWithRate 1) P2WPKH outs coins
  = RawFailed RawInsufficient.
Proof.
  intros outs coins.
  apply (CreateRawTransactionWithOutputs_insufficient testLib
           (walletWithRate 1) P2WPKH outs coins
           [{| address := "tb1q-a"%string : btcAddress testLib;
               amount := 1500; script := [x76; xa9] |}] 1500).
  - repeat constructor; vm_compute; intuition discriminate.
  - vm_compute; reflexivity.
  - discriminate.
  - repeat constructor; cbn; lia.
  - vm_compute; discriminate.
  - vm_compute; intuition discriminate.
  - vm_compute; discriminate.
  - vm_compute; reflexivity.
Defined.

(** X24: what [CreateRawTransactionWithOutputs] returns.  A success is the
    serialization of an unsigned transaction of version 1 and lock time 0
    that spends every coin given, in the given order, and pays the resolved
    requests, followed by at most one change output above 546; the function
    never signs and never indexes past the inputs.
    [CreateRawTransaction] is the same call for a single request. *)
Theorem CreateRawTransactionWithOutputs_result
    (L : Collaborators) (w : BitcoinWallet) (t : AddressType)
    (outputs : list PaymentOutput) (utxos : list UTXO) :
  (forall toAddress amt,
      CreateRawTransaction L w t toAddress amt utxos
      = CreateRawTransactionWithOutputs L w t
          [mkPaymentOutput toAddress amt] utxos)
  /\
  match CreateRawTransactionWithOutputs L w t outputs utxos with
  | RawDone txHex =>
      exists res R tx,
        resolvePaymentOutputs L w outputs = Ok (res, R) /\
        serializeHex L tx = Some txHex /\
        Version tx = TxVersion /\ LockTime tx = 0 /\
        unsigned tx /\
        Forall2 (input_of_coin L) utxos (TxIns tx) /\
        (TxOuts tx = map toTxOut res \/
         exists change sc,
           dustThreshold < change /\ change_script L w t sc /\
           TxOuts tx = map toTxOut res ++ [mkTxOut change sc])
  | RawFailed e => e <> RawHexDecode /\ e <> RawDeserialize
  | RawPanic _ _ => False
  end.
Proof.
  split; [reflexivity | ].
  unfold CreateRawTransactionWithOutputs.
  destruct (resolvePaymentOutputs L w outputs) as [[res R] | e];
    [ | split; discriminate].
  destruct (len utxos =? 0); [split; discriminate | ].
  destruct (sumValuesChecked utxos 0) as [V | ]; [ | split; discriminate].
  destruct (computeFeeAndChange w t R (len res) utxos V) as [fee change].
  destruct (change <? 0); [split; discriminate | ].
  pose proof (buildTransaction_full L w t utxos res change) as Hb.
  destruct (buildTransaction L w t utxos res change) as [tx | e];
    [ | split; discriminate].
  destruct (serializeHex L tx) as [txHex | ] eqn:Eh; [ | split; discriminate].
  destruct Hb as (_ & _ & Hv & Hl & Hins & Houts).
  exists res, R, tx.
  split; [reflexivity | ]. split; [exact Eh | ].
  split; [exact Hv | ]. split; [exact Hl | ].
  split; [exact (inputs_of_coins_unsigned L utxos (TxIns tx) Hins) | ].
  split; [exact Hins | ].
  destruct Houts as [[_ Ho] | (Hc & sc & Hsc & Ho)]; [left; exact Ho | ].
  right. exists change, sc. auto.
Qed.

(** X25: when [SignRawTransaction] can crash.  It decodes a transaction and
    signs it with whatever coins the caller passes.  The out-of-range write
    of the signer is only possible when the caller passes more coins than
    the decoded transaction has inputs; with at most as many coins the call
    returns, and a success is the serialization of a transaction with the
    outputs, and input for input the outpoints, of the decoded one. *)
Theorem SignRawTransaction_result
    (L : Collaborators) (D : WireDecoder) (w : BitcoinWallet)
    (txHex : string) (t : AddressType) (utxos : list UTXO) :
  match SignRawTransaction L D w txHex t utxos with
  | RawDone signedHex =>
      exists data tx signed,
        hexDecodeString D txHex = Some data /\
        deserializeTx D data = Some tx /\
        (List.length utxos <= List.length (TxIns tx))%nat /\
        TxOuts signed = TxOuts tx /\
        map PreviousOutPoint (TxIns signed) = map PreviousOutPoint (TxIns tx) /\
        serializeHex L signed = Some signedHex
  | RawPanic _ _ =>
      exists data tx,
        hexDecodeString D txHex = Some data /\
        deserializeTx D data = Some tx /\
        (List.length (TxIns tx) < List.length utxos)%nat
  | RawFailed e => e <> RawValueOverflow /\ e <> RawInsufficient
  end.
Proof.
  unfold SignRawTransaction.
  destruct (hexDecodeString D txHex) as [data | ] eqn:Ehex;
    [ | split; discriminate].
  destruct (deserializeTx D data) as [tx | ] eqn:Etx; [ | split; discriminate].
  pose proof (SignTransaction_no_panic L w tx t utxos) as Hnp.
  destruct (SignTransaction L w tx t utxos) as [signed | e | a b] eqn:Es.
  - destruct (serializeHex L signed) as [signedHex | ] eqn:Eh;
      [ | split; discriminate].
    exists data, tx, signed.
    split; [reflexivity | ]. split; [exact Etx | ].
    unfold SignTransaction in Es.
    destruct (senderScript L w t) as [fromScript | e]; [ | discriminate].
    destruct (signLoop_keeps_references L w t fromScript utxos tx signed Es)
      as [Hp _].
    change 0 with (Z.of_nat 0) in Es.
    destruct (signLoop_done L w t fromScript utxos 0%nat tx signed Es)
      as (Hb & _ & Ho & _).
    split; [ | split; [exact Ho | split; [exact Hp | exact Eh]]].
    destruct utxos as [ | u rest]; [cbn; lia | ].
    specialize (Hb ltac:(discriminate)). lia.
  - split; discriminate.
  - exists data, tx. split; [reflexivity | ]. split; [exact Etx | ].
    destruct (Nat.lt_ge_cases (List.length (TxIns tx)) (List.length utxos))
      as [Hlt | Hge]; [exact Hlt | ].
    exfalso. apply (Hnp a b); [lia | reflexivity].
Qed.

Section NestedSegwit.

Variable L : Collaborators.
Variable w : BitcoinWallet.

Lemma pushData_short (data : bytes) :
  (2 <= List.length data < 76)%nat ->
  pushData data = byteOfZ (len data) :: data /\
  canonicalDataSize data = 1 + len data.
Proof.
  intros Hlen. unfold pushData, canonicalDataSize.
  destruct data as [ | d1 [ | d2 rest]]; cbn [List.length] in Hlen; try lia.
  cbv zeta.
  assert (Hl : 2 <= len (d1 :: d2 :: rest) < 76)
    by (unfold len; cbn [List.length]; lia).
  cbn [isSmallInt].
  destruct (Z.eqb_spec (len (d1 :: d2 :: rest)) 0) as [E | _]; [lia | ].
  destruct (Z.ltb_spec (len (d1 :: d2 :: rest)) 76) as [_ | G]; [ | lia].
  split; reflexivity.
Qed.

Lemma redeemScript_of_hash :
  List.length (hash160 L (serializeCompressed L (publicKey w))) = 20%nat ->
  Script (redeemScriptBuilder L w)
  = (x00 :: x14 :: hash160 L (serializeCompressed L (publicKey w)), false).
Proof.
  intros Hlen. unfold redeemScriptBuilder. cbv zeta.
  set (h := hash160 L (serializeCompressed L (publicKey w))) in *.
  destruct (pushData_short h ltac:(lia)) as [Hp Hc].
  assert (Hl : len h = 20) by (unfold len; rewrite Hlen; reflexivity).
  unfold Script, AddData, AddOp, NewScriptBuilder.
  cbn [sbFailed sbScript app]. rewrite Hc, Hp, Hl.
  reflexivity.
Qed.

Lemma push_of_redeemScript (h : bytes) :
  List.length h = 20%nat ->
  Script (AddData (x00 :: x14 :: h) NewScriptBuilder)
  = (x16 :: x00 :: x14 :: h, false).
Proof.
  intros Hlen.
  destruct (pushData_short (x00 :: x14 :: h)
              ltac:(cbn [List.length]; lia)) as [Hp Hc].
  assert (Hl : len (x00 :: x14 :: h) = 22)
    by (unfold len; cbn [List.length]; rewrite Hlen; reflexivity).
  unfold Script, AddData, NewScriptBuilder.
  cbn [sbFailed sbScript app]. rewrite Hc, Hp, Hl.
  reflexivity.
Qed.

End NestedSegwit.

(** X26: the nested-segwit address and its signature agree.  When the
    160-bit hash has its 20 bytes, the script builder never fails: the
    redeem script is the 22 bytes [00 14 <hash160(pubkey)>], the wallet's
    P2SH address is the one of the hash of exactly that script (it fails
    only if the address constructor does), and the unlocking script the
    signer writes is the 23-byte push [16 00 14 <hash>] of the same script;
    neither script-building error of [SignP2SHTransaction] can occur. *)
Theorem nested_segwit_address_matches_signature
    (L : Collaborators) (w : BitcoinWallet) :
  let h := hash160 L (serializeCompressed L (publicKey w)) in
  List.length h = 20%nat ->
  GetAddress L w P2SH
  = option_map (encodeAddress L)
      (newAddressScriptHashFromHash L (hash160 L (x00 :: x14 :: h))
         (network w))
  /\
  forall tx idx value pkScript,
    match SignP2SHTransaction L w tx idx value pkScript with
    | Done tx' =>
        exists ti', nth_error (TxIns tx') (Z.to_nat idx) = Some ti' /\
                    SignatureScript ti' = x16 :: x00 :: x14 :: h
    | Failed e => e = ErrWitnessSigHash
    | IndexPanic _ _ => True
    end.
Proof.
  intros h Hlen. pose proof (redeemScript_of_hash L w Hlen) as Hrs.
  fold h in Hrs. split.
  - cbn [GetAddress]. unfold getP2SHAddress. rewrite Hrs. cbv zeta.
    destruct (newAddressScriptHashFromHash L _ (network w)); reflexivity.
  - intros tx idx value pkScript.
    unfold SignP2SHTransaction. rewrite Hrs. cbv zeta.
    destruct (calcWitnessSigHash L (x00 :: x14 :: h) (pkScript, value) tx idx
                value) as [sigHash | ] eqn:Eh; [ | reflexivity].
    rewrite (push_of_redeemScript h Hlen).
    destruct (updateTxIn tx idx _) as [tx1 | e | a b] eqn:E1.
    + destruct (updateTxIn tx1 idx (setSignatureScript _)) as [tx2 | e | a b]
        eqn:E2.
      * destruct (updateTxIn_done _ _ _ _ E2) as (Hi & ti & Hn & Hins & _).
        exists (setSignatureScript (x16 :: x00 :: x14 :: h) ti).
        split; [ | reflexivity].
        rewrite Hins. apply replace_nth_same.
        apply nth_error_Some. congruence.
      * unfold updateTxIn in E2.
        destruct ((idx <? 0) || (len (TxIns tx1) <=? idx)); [discriminate | ].
        destruct (nth_error (TxIns tx1) (Z.to_nat idx)); discriminate.
      * exact I.
    + unfold updateTxIn in E1.
      destruct ((idx <? 0) || (len (TxIns tx) <=? idx)); [discriminate | ].
      destruct (nth_error (TxIns tx) (Z.to_nat idx)); discriminate.
    + exact I.
Qed.

Lemma nested_segwit_address_matches_signature_witness :
  GetAddress testLib (walletWithRate 1) P2SH = Some "2-nested"%string.
Proof.
  destruct (nested_segwit_address_matches_signature testLib (walletWithRate 1))
    as [Ha _].
  - vm_compute; reflexivity.
  - rewrite Ha. vm_compute; reflexivity.
Defined.

(** X27: [SendMany] with too little money.  When the requests resolve to a
    total that the coins of the sender (non-negative values, sum inside the
    signed 64-bit range) do not reach, [SendMany] fails in the first round
    of its loop with the selector's insufficient-funds error, which names
    the requested total and the exact value of all coins; nothing is built,
    signed or broadcast, whatever the fee rate. *)
Theorem SendMany_insufficient_funds
    (S : ValueSorter) (L : Collaborators) (w : BitcoinWallet)
    (t : AddressType) (outputs : list PaymentOutput)
    (res : list (resolvedOutput L)) (R : Z) (fromAddr : string)
    (utxos : list UTXO) (fuel : nat) :
  resolvePaymentOutputs L w outputs = Ok (res, R) ->
  GetAddress L w t = Some fromAddr ->
  GetUTXOs L w fromAddr = Some utxos ->
  utxos <> [] ->
  Forall (fun u => 0 <= Value u) utxos ->
  sumValues utxos <= I64.max_int ->
  sumValues utxos < R ->
  SendMany S L w (Datatypes.S fuel) t outputs
  = Some (Failed (ErrSelectUTXO (ErrInsufficientFunds R (sumValues utxos)))).
Proof.
  intros Hres Ha Hu Hne Hnn Hsum Hlow.
  pose proof (sortSlice_perm S utxos) as Hperm.
  assert (Hnn' : Forall (fun u => 0 <= Value u) (sortSlice S utxos))
    by (eapply Permutation_Forall; eassumption).
  assert (Hrun : forall j : nat,
             runningTotal 0 (firstn j (sortSlice S utxos))
             = sumValues (firstn j (sortSlice S utxos)) /\
             sumValues (firstn j (sortSlice S utxos)) <= sumValues utxos).
  { intros j.
    destruct (prefix_sum_mono w _ Hnn' j j ltac:(lia)) as [[H0 _] H1].
    rewrite (sumValues_sorted S) in H1.
    split; [ | exact H1].
    unfold runningTotal. rewrite totalBalance_from; [reflexivity | | lia | lia].
    pose proof Hnn' as Hsplit.
    rewrite <- (firstn_skipn j (sortSlice S utxos)) in Hsplit.
    apply Forall_app in Hsplit. exact (proj1 Hsplit). }
  unfold SendMany. rewrite Hres, Ha, Hu.
  destruct (Z.eqb_spec (len utxos) 0) as [E | _];
    [apply len_zero_nil in E; contradiction | ].
  cbn [sendManyLoop].
  pose proof (SelectUTXOs_prefix S utxos R) as Hsel.
  destruct (SelectUTXOs S utxos R) as [[sel V] | e].
  - exfalso. destruct Hsel as (k & _ & -> & -> & HR & _).
    destruct (Hrun k) as [Heq Hle]. lia.
  - destruct Hsel as [[Hnil _] | (_ & -> & _)]; [contradiction | ].
    destruct (Hrun (List.length (sortSlice S utxos))) as [Heq _].
    rewrite firstn_all in Heq. rewrite Heq, (sumValues_sorted S).
    reflexivity.
Qed.

Lemma SendMany_insufficient_funds_witness :
  let coins := [mkUTXO "aa" 0 1000; mkUTXO "bb" 1 400] in
  let outs := [mkPaymentOutput "tb1q-a" 1500] in
  SendMany insertionSorter (testLibWith coins) (walletWithRate 2) 1
    P2WPKH outs
  = Some (Failed (ErrSelectUTXO (ErrInsufficientFunds 1500 1400))).
Proof.
  intros coins outs.
  apply (SendMany_insufficient_funds insertionSorter (testLibWith coins)
           (walletWithRate 2) P2WPKH outs
           [{| address := "tb1q-a"%string : btcAddress (testLibWith coins);
               amount := 1500; script := [x76; xa9] |}]
           1500 "tb1q-segwit" coins 0).
  - vm_compute; reflexivity.
  - vm_compute; reflexivity.
  - reflexivity.
  - discriminate.
  - repeat constructor; cbn; lia.
  - vm_compute; discriminate.
  - vm_compute; reflexivity.
Defined.
